(** * hostscanner: address-range expansion and the concurrent discovery engine

    A shallow embedding of the Go packages [network] (range parsing and
    expansion, detection of the local network), [scanner] (probe,
    enrichment, worker pool) and [main] (the texts the terminal interface
    shows), together with the parts of Go's [strings], [net], [time] and
    [fmt] packages that they call.

    Conventions.
    - A Go [string] is a byte sequence: Rocq's [string] (a list of [ascii]).
    - A [byte] and a [uint32] are integers of [Z]; every wrap-around and
      truncation the Go code performs is written out ([mod 2^32], [mod 256]).
    - A [net.IP] is a byte slice: a [list Z]; the nil slice is [[]].
    - A [float64] is a [spec_float] in the binary64 format.
    - Go's [int] is taken to be 64 bits wide (as on amd64 and arm64), so
      [int(x)] of a [uint32] [x] is [x] itself; memory is not bounded.
    - A function that can loop takes a [fuel] argument and answers
      [OutOfFuel] when the fuel is used up before the loop exits. *)

From Stdlib Require Import ZArith List String Ascii Bool Lia Permutation.
From Stdlib Require Import Floats.SpecFloat.
Import ListNotations.
Local Open Scope Z_scope.

(** ** Bytes and characters *)

Definition byte_of_ascii (c : ascii) : Z := Z.of_N (N_of_ascii c).

Definition ascii_of_byte (b : Z) : ascii := ascii_of_N (Z.to_N (b mod 256)).

Definition is_byte (b : Z) : Prop := 0 <= b < 256.

Definition is_digit (c : ascii) : bool :=
  (48 <=? byte_of_ascii c) && (byte_of_ascii c <=? 57).

Definition digit_val (c : ascii) : Z := byte_of_ascii c - 48.

Fixpoint string_of_list (l : list ascii) : string :=
  match l with
  | [] => EmptyString
  | c :: l' => String c (string_of_list l')
  end.

Fixpoint string_rev_onto (s acc : string) : string :=
  match s with
  | EmptyString => acc
  | String c s' => string_rev_onto s' (String c acc)
  end.

Definition string_rev (s : string) : string := string_rev_onto s EmptyString.

Fixpoint string_drop (n : nat) (s : string) : string :=
  match n, s with
  | O, _ => s
  | S n', String _ s' => string_drop n' s'
  | S _, EmptyString => EmptyString
  end.

(** ** Go's [strings] package (the functions the repository calls) *)

Module strings.

(** [strings.HasPrefix(s, prefix)]. *)
Definition HasPrefix (s prefix : string) : bool := String.prefix prefix s.

(** [strings.HasSuffix(s, suffix)]:
    [len(s) >= len(suffix) && s[len(s)-len(suffix):] == suffix]. *)
Definition HasSuffix (s suffix : string) : bool :=
  (String.length suffix <=? String.length s)%nat &&
  String.eqb (string_drop (String.length s - String.length suffix) s) suffix.

(** [strings.TrimSuffix(s, suffix)]. *)
Definition TrimSuffix (s suffix : string) : string :=
  if HasSuffix s suffix
  then substring 0 (String.length s - String.length suffix) s
  else s.

(** [strings.Contains(s, substr)]: [substr] occurs at some offset of [s]. *)
Fixpoint Contains (s substr : string) : bool :=
  HasPrefix s substr ||
  match s with
  | EmptyString => false
  | String _ s' => Contains s' substr
  end.

(** The scanning functions below walk [s] from left to right and, after a
    match of [sep] at the current offset, skip the rest of the match
    ([skip] counts the bytes of it still to pass), as Go's [Index]-driven
    loops do.  They are meant for a non-empty [sep] (the repository only
    passes one-byte separators). *)

(** First field and the remaining fields of [strings.Split(s, sep)]. *)
Fixpoint Split_from (sep : string) (skip : nat) (s : string) : string * list string :=
  match s with
  | EmptyString => (EmptyString, [])
  | String c s' =>
      match skip with
      | S k => Split_from sep k s'
      | O =>
          if HasPrefix s sep
          then (EmptyString,
                let (f, fs) := Split_from sep (String.length sep - 1) s' in f :: fs)
          else let (f, fs) := Split_from sep 0 s' in (String c f, fs)
      end
  end.

(** [strings.Split(s, sep)] for a non-empty [sep]. *)
Definition Split (s sep : string) : list string :=
  let (f, fs) := Split_from sep 0 s in f :: fs.

Fixpoint Count_from (substr : string) (skip : nat) (s : string) : Z :=
  match s with
  | EmptyString => 0
  | String c s' =>
      match skip with
      | S k => Count_from substr k s'
      | O =>
          if HasPrefix s substr
          then 1 + Count_from substr (String.length substr - 1) s'
          else Count_from substr 0 s'
      end
  end.

(** [strings.Count(s, substr)]: non-overlapping occurrences, non-empty [substr]. *)
Definition Count (s substr : string) : Z := Count_from substr 0 s.

Fixpoint ReplaceAll_from (old new : string) (skip : nat) (s : string) : string :=
  match s with
  | EmptyString => EmptyString
  | String c s' =>
      match skip with
      | S k => ReplaceAll_from old new k s'
      | O =>
          if HasPrefix s old
          then new ++ ReplaceAll_from old new (String.length old - 1) s'
          else String c (ReplaceAll_from old new 0 s')
      end
  end.

(** [strings.ReplaceAll(s, old, new)] for a non-empty [old]. *)
Definition ReplaceAll (s old new : string) : string := ReplaceAll_from old new 0 s.

(** [strings.ToUpper] on ASCII letters; bytes outside [a-z] are kept.  (Go
    also maps non-ASCII letters; the repository applies it to hardware
    addresses read from the neighbor table.) *)
Definition upper_ascii (c : ascii) : ascii :=
  if (97 <=? byte_of_ascii c) && (byte_of_ascii c <=? 122)
  then ascii_of_byte (byte_of_ascii c - 32)
  else c.

Fixpoint ToUpper (s : string) : string :=
  match s with
  | EmptyString => EmptyString
  | String c s' => String (upper_ascii c) (ToUpper s')
  end.

(** White space, as [unicode.IsSpace] defines it.  The ASCII ones are
    ['\t'], ['\n'], ['\v'], ['\f'], ['\r'] and [' ']; the others are listed by
    their UTF-8 encodings: U+0085, U+00A0, U+1680, U+2000..U+200A, U+2028,
    U+2029, U+202F, U+205F, U+3000.  A white-space rune starts at an offset
    exactly when one of these encodings does: none of them starts with a
    continuation byte, so the decoder never steps over the start of one. *)
Definition asciiSpace (c : ascii) : bool :=
  let n := byte_of_ascii c in ((9 <=? n) && (n <=? 13)) || (n =? 32).

Definition unicodeSpace : list (list Z) :=
  [ [0xC2; 0x85]; [0xC2; 0xA0]; [0xE1; 0x9A; 0x80];
    [0xE2; 0x80; 0x80]; [0xE2; 0x80; 0x81]; [0xE2; 0x80; 0x82];
    [0xE2; 0x80; 0x83]; [0xE2; 0x80; 0x84]; [0xE2; 0x80; 0x85];
    [0xE2; 0x80; 0x86]; [0xE2; 0x80; 0x87]; [0xE2; 0x80; 0x88];
    [0xE2; 0x80; 0x89]; [0xE2; 0x80; 0x8A]; [0xE2; 0x80; 0xA8];
    [0xE2; 0x80; 0xA9]; [0xE2; 0x80; 0xAF]; [0xE2; 0x81; 0x9F];
    [0xE3; 0x80; 0x80] ].

Definition encoded (bytes : list Z) : string :=
  string_of_list (map ascii_of_byte bytes).

(** Width in bytes of the white-space rune [s] starts with, [0] if none;
    [encs] are the multi-byte encodings to look for. *)
Definition spaceWidth (encs : list string) (s : string) : nat :=
  match s with
  | EmptyString => O
  | String c _ =>
      if asciiSpace c then 1%nat
      else match find (HasPrefix s) encs with
           | Some e => String.length e
           | None => O
           end
  end.

Fixpoint trimLeading (encs : list string) (skip : nat) (s : string) : string :=
  match s with
  | EmptyString => EmptyString
  | String _ s' =>
      match skip with
      | S k => trimLeading encs k s'
      | O =>
          match spaceWidth encs s with
          | O => s
          | S k => trimLeading encs k s'
          end
      end
  end.

Definition TrimLeftSpace (s : string) : string :=
  trimLeading (map encoded unicodeSpace) 0 s.

(** Trailing white space is found on the reversed string, against the
    reversed encodings ([utf8.DecodeLastRuneInString] walks back to the
    start byte of the last rune). *)
Definition TrimRightSpace (s : string) : string :=
  string_rev (trimLeading (map (fun e => string_rev (encoded e)) unicodeSpace) 0
                          (string_rev s)).

(** [strings.TrimSpace(s)]. *)
Definition TrimSpace (s : string) : string := TrimRightSpace (TrimLeftSpace s).

(** [strings.Fields(s)]: the maximal runs of non-white-space bytes.  [cur] is
    the field being read, reversed. *)
Fixpoint Fields_from (encs : list string) (skip : nat) (cur : string) (s : string)
  : list string :=
  let flush (rest : list string) :=
    match cur with
    | EmptyString => rest
    | _ => string_rev cur :: rest
    end in
  match s with
  | EmptyString => flush []
  | String c s' =>
      match skip with
      | S k => Fields_from encs k cur s'
      | O =>
          match spaceWidth encs s with
          | O => Fields_from encs 0 (String c cur) s'
          | S k => flush (Fields_from encs k EmptyString s')
          end
      end
  end.

Definition Fields (s : string) : list string :=
  Fields_from (map encoded unicodeSpace) 0 EmptyString s.

End strings.

(** ** Go's [net] and [net/netip] packages (the functions the repository calls) *)

Module net.

(** [net.IP] and [net.IPMask] are byte slices. *)
Definition IP := list Z.
Definition IPMask := list Z.

Definition IPv4len : nat := 4.
Definition IPv6len : nat := 16.

Definition v4InV6Prefix : list Z := [0; 0; 0; 0; 0; 0; 0; 0; 0; 0; 0xff; 0xff].

(** [net.IPv4(a, b, c, d)]: the 16-byte form of the IPv4 address. *)
Definition IPv4 (a b c d : Z) : IP := v4InV6Prefix ++ [a; b; c; d].

Definition isZeros (p : list Z) : bool := forallb (Z.eqb 0) p.

Definition allFF (p : list Z) : bool := forallb (Z.eqb 0xff) p.

Fixpoint bytesEqual (a b : list Z) : bool :=
  match a, b with
  | [], [] => true
  | x :: a', y :: b' => (x =? y) && bytesEqual a' b'
  | _, _ => false
  end.

(** [ip.To4()]: the 4-byte form, or nil ([None]) when [ip] is no IPv4 address. *)
Definition To4 (ip : IP) : option IP :=
  if (List.length ip =? IPv4len)%nat then Some ip
  else if (List.length ip =? IPv6len)%nat && isZeros (firstn 10 ip)
          && (nth 10 ip 0 =? 0xff) && (nth 11 ip 0 =? 0xff)
       then Some (firstn 4 (skipn 12 ip))
       else None.

(** [ip.Equal(x)]: an IPv4 address and the same address in 16-byte form are
    equal. *)
Definition Equal (ip x : IP) : bool :=
  if (List.length ip =? List.length x)%nat then bytesEqual ip x
  else if (List.length ip =? IPv4len)%nat && (List.length x =? IPv6len)%nat
       then bytesEqual (firstn 12 x) v4InV6Prefix && bytesEqual ip (skipn 12 x)
       else if (List.length ip =? IPv6len)%nat && (List.length x =? IPv4len)%nat
            then bytesEqual (firstn 12 ip) v4InV6Prefix && bytesEqual (skipn 12 ip) x
            else false.

(** [net.CIDRMask(ones, bits)]; nil is [[]]. *)
Fixpoint CIDRMask_bytes (l : nat) (n : Z) : list Z :=
  match l with
  | O => []
  | S l' =>
      if 8 <=? n then 0xff :: CIDRMask_bytes l' (n - 8)
      else Z.lxor (Z.shiftr 0xff n) 0xff :: CIDRMask_bytes l' 0
  end.

Definition CIDRMask (ones bits : Z) : IPMask :=
  if negb (bits =? 32) && negb (bits =? 128) then []
  else if (ones <? 0) || (bits <? ones) then []
  else CIDRMask_bytes (Z.to_nat (bits / 8)) ones.

(** [ip.Mask(mask)]; nil is [[]]. *)
Definition Mask (ip : IP) (mask : IPMask) : IP :=
  let mask :=
    if (List.length mask =? IPv6len)%nat && (List.length ip =? IPv4len)%nat
       && allFF (firstn 12 mask)
    then skipn 12 mask else mask in
  let ip :=
    if (List.length mask =? IPv4len)%nat && (List.length ip =? IPv6len)%nat
       && bytesEqual (firstn 12 ip) v4InV6Prefix
    then skipn 12 ip else ip in
  if negb (List.length ip =? List.length mask)%nat then []
  else map (fun p => Z.land (fst p) (snd p)) (combine ip mask).

(** An address as [netip.ParseAddr] returns it. *)
Inductive Addr : Type :=
| Addr4 (fields : list Z)
| Addr6 (bytes : list Z) (zone : string).

Definition BitLen (a : Addr) : Z :=
  match a with Addr4 _ => 32 | Addr6 _ _ => 128 end.

Definition Zone (a : Addr) : string :=
  match a with Addr4 _ => EmptyString | Addr6 _ z => z end.

Definition As16 (a : Addr) : list Z :=
  match a with
  | Addr4 f => v4InV6Prefix ++ f
  | Addr6 b _ => b
  end.

(** The loop of [netip.parseIPv4Fields].  [prev] is [s[i-1]] ([None] at
    [i = 0]); [fields] are the octets stored so far, so [pos] is their
    number.  [None] is a parse error. *)
Fixpoint parseIPv4_loop (s : string) (prev : option ascii) (val digLen : Z)
  (fields : list Z) : option (list Z) :=
  match s with
  | EmptyString =>
      if (List.length fields <? 3)%nat then None          (* address too short *)
      else Some (fields ++ [val mod 256])
  | String c s' =>
      if is_digit c then
        if (digLen =? 1) && (val =? 0) then None     (* octet with leading zero *)
        else
          let val := val * 10 + byte_of_ascii c - 48 in
          if 255 <? val then None                    (* value > 255 *)
          else parseIPv4_loop s' (Some c) val (digLen + 1) fields
      else if Ascii.eqb c "." then
        if match prev with None => true | Some p => Ascii.eqb p "." end
           || (String.length s' =? 0)%nat
        then None                                    (* field without a digit *)
        else if (List.length fields =? 3)%nat then None   (* address too long *)
        else parseIPv4_loop s' (Some c) 0 0 (fields ++ [val mod 256])
      else None                                      (* unexpected character *)
  end.

Definition parseIPv4Fields (s : string) : option (list Z) :=
  parseIPv4_loop s None 0 0 [].

Definition parseIPv4 (s : string) : option Addr :=
  option_map Addr4 (parseIPv4Fields s).

Definition hex_val (c : ascii) : option Z :=
  let n := byte_of_ascii c in
  if (48 <=? n) && (n <=? 57) then Some (n - 48)
  else if (97 <=? n) && (n <=? 102) then Some (n - 97 + 10)
  else if (65 <=? n) && (n <=? 70) then Some (n - 65 + 10)
  else None.

(** The hexadecimal number [s] starts with: [Some (off, acc, rest)] with
    [off] digits read, or [None] when a group has more than four digits or
    its value exceeds 16 bits. *)
Fixpoint parseHex (s : string) (off : Z) (acc : Z) : option (Z * Z * string) :=
  match s with
  | EmptyString => Some (off, acc, s)
  | String c s' =>
      match hex_val c with
      | None => Some (off, acc, s)
      | Some d =>
          let acc := (Z.shiftl acc 4 + d) mod 2 ^ 32 in
          if 3 <? off then None
          else if 0xffff <? acc then None
          else parseHex s' (off + 1) acc
      end
  end.

(** The main loop of [netip.parseIPv6].  [ip] holds the bytes written so far
    ([i] of the source is [List.length ip]; the rest of the array is zero),
    [ellipsis] the offset of [::] if one was seen.  The loop runs while
    [i < 16] and every turn writes at least two bytes: [fuel = 8] turns are
    enough.  Result: the bytes written, the ellipsis, and the text left. *)
Fixpoint parseIPv6_loop (fuel : nat) (s : string) (ip : list Z) (ellipsis : option nat)
  : option (list Z * option nat * string) :=
  match fuel with
  | O => Some (ip, ellipsis, s)
  | S fuel' =>
      if negb (List.length ip <? 16)%nat then Some (ip, ellipsis, s) else
      match parseHex s 0 0 with
      | None => None
      | Some (off, acc, rest) =>
          if off =? 0 then None                       (* no digit in the field *)
          else
            match rest with
            | String "." _ =>
                (* trailing IPv4 *)
                if match ellipsis with None => negb (List.length ip =? 12)%nat | Some _ => false end
                then None
                else if (16 <? List.length ip + 4)%nat then None
                else match parseIPv4Fields s with
                     | None => None
                     | Some f => Some (ip ++ f, ellipsis, EmptyString)
                     end
            | _ =>
                let ip := ip ++ [Z.shiftr acc 8 mod 256; acc mod 256] in
                match rest with
                | EmptyString => Some (ip, ellipsis, EmptyString)
                | String c rest' =>
                    if negb (Ascii.eqb c ":") then None     (* want colon *)
                    else
                      match rest' with
                      | EmptyString => None                 (* colon at the end *)
                      | String ":" rest'' =>
                          match ellipsis with
                          | Some _ => None                  (* a second :: *)
                          | None =>
                              match rest'' with
                              | EmptyString => Some (ip, Some (List.length ip), EmptyString)
                              | _ => parseIPv6_loop fuel' rest'' ip (Some (List.length ip))
                              end
                          end
                      | _ => parseIPv6_loop fuel' rest' ip ellipsis
                      end
                end
            end
      end
  end.

(** [s[:i], s[i+1:]] for the first offset [i] of byte [c] in [s]. *)
Fixpoint cutByte (c : ascii) (s : string) : option (string * string) :=
  match s with
  | EmptyString => None
  | String x s' =>
      if Ascii.eqb x c then Some (EmptyString, s')
      else match cutByte c s' with
           | Some (a, b) => Some (String x a, b)
           | None => None
           end
  end.

Definition parseIPv6 (s : string) : option Addr :=
  let split :=
    match cutByte "%" s with
    | Some (a, z) => if (String.length z =? 0)%nat then None else Some (a, z)
    | None => Some (s, EmptyString)
    end in
  match split with
  | None => None                                     (* empty zone *)
  | Some (s, zone) =>
      let lead :=
        match s with
        | String ":" (String ":" s') => (Some O, s')
        | _ => (None, s)
        end in
      let (ellipsis, s) := lead in
      match ellipsis, s with
      | Some _, EmptyString => Some (Addr6 (repeat 0 16) zone)   (* only [::] *)
      | _, _ =>
          match parseIPv6_loop 8 s [] ellipsis with
          | None => None
          | Some (ip, ellipsis, rest) =>
              if negb (String.length rest =? 0)%nat then None    (* trailing garbage *)
              else if (List.length ip <? 16)%nat then
                match ellipsis with
                | None => None                                   (* too short *)
                | Some e =>
                    Some (Addr6 (firstn e ip ++ repeat 0 (16 - List.length ip) ++ skipn e ip) zone)
                end
              else match ellipsis with
                   | Some _ => None               (* [::] must stand for a field *)
                   | None => Some (Addr6 ip zone)
                   end
          end
      end
  end.

(** [netip.ParseAddr(s)]: the first of ['.'], [':'] and ['%'] in [s] decides
    the syntax; [rest] is the text from the current offset on. *)
Fixpoint ParseAddr_scan (s rest : string) : option Addr :=
  match rest with
  | EmptyString => None
  | String c rest' =>
      if Ascii.eqb c "." then parseIPv4 s
      else if Ascii.eqb c ":" then parseIPv6 s
      else if Ascii.eqb c "%" then None
      else ParseAddr_scan s rest'
  end.

Definition ParseAddr (s : string) : option Addr := ParseAddr_scan s s.

(** [net.ParseIP(s)]: the 16-byte form of the address, or nil ([None]); an
    address with a zone is refused. *)
Definition ParseIP (s : string) : option IP :=
  match ParseAddr s with
  | Some a => if (String.length (Zone a) =? 0)%nat then Some (As16 a) else None
  | None => None
  end.

(** [net.dtoi(s)]: the decimal number [s] starts with, the number of its
    digits, and [ok]. *)
Fixpoint dtoi_loop (s : string) (n i : Z) : Z * Z * bool :=
  match s with
  | EmptyString => if i =? 0 then (0, 0, false) else (n, i, true)
  | String c s' =>
      if is_digit c then
        let n := n * 10 + (byte_of_ascii c - 48) in
        if 0xFFFFFF <=? n then (0xFFFFFF, i, false)
        else dtoi_loop s' n (i + 1)
      else if i =? 0 then (0, 0, false) else (n, i, true)
  end.

Definition dtoi (s : string) : Z * Z * bool := dtoi_loop s 0 0.

Record IPNet : Type := mkIPNet { Net_IP : IP; Net_Mask : IPMask }.

(** [net.ParseCIDR(s)]: the address and the network; [None] is the error. *)
Definition ParseCIDR (s : string) : option (IP * IPNet) :=
  match cutByte "/" s with
  | None => None
  | Some (addr, mask) =>
      match ParseAddr addr with
      | None => None
      | Some ipAddr =>
          if negb (String.length (Zone ipAddr) =? 0)%nat then None
          else
            let '(n, i, ok) := dtoi mask in
            if negb ok || negb (i =? Z.of_nat (String.length mask))
               || (n <? 0) || (BitLen ipAddr <? n)
            then None
            else
              let m := CIDRMask n (BitLen ipAddr) in
              let addr16 := As16 ipAddr in
              Some (addr16, mkIPNet (Mask addr16 m) m)
      end
  end.

(** Decimal and lower-case hexadecimal text of a non-negative integer. *)
Fixpoint digits_onto (base : Z) (fuel : nat) (n : Z) (acc : string) : string :=
  match fuel with
  | O => acc
  | S fuel' =>
      let d := n mod base in
      let c := ascii_of_byte (if d <? 10 then 48 + d else 97 + d - 10) in
      if n <? base then String c acc
      else digits_onto base fuel' (n / base) (String c acc)
  end.

Definition itoa (n : Z) : string :=
  digits_onto 10 (S (Z.to_nat (Z.log2 n))) n EmptyString.

Definition appendHex (n : Z) : string :=
  digits_onto 16 (S (Z.to_nat (Z.log2 n))) n EmptyString.

Fixpoint join (sep : string) (l : list string) : string :=
  match l with
  | [] => EmptyString
  | [x] => x
  | x :: l' => x ++ sep ++ join sep l'
  end.

(** The eight 16-bit fields of a 16-byte address. *)
Fixpoint v6u16 (ip : list Z) : list Z :=
  match ip with
  | hi :: lo :: ip' => Z.lor (Z.shiftl hi 8) lo :: v6u16 ip'
  | _ => []
  end.

Fixpoint zeroRun (ws : list Z) : nat :=
  match ws with
  | 0 :: ws' => S (zeroRun ws')
  | _ => O
  end.

(** The first longest run of at least two zero fields: [(zeroStart, zeroEnd)]
    of [netip.Addr.appendTo6]. *)
Fixpoint longestZeroRun (i : nat) (ws : list Z) (best : option (nat * nat))
  : option (nat * nat) :=
  match ws with
  | [] => best
  | _ :: ws' =>
      let l := zeroRun ws in
      let width := match best with Some (s, e) => (e - s)%nat | None => O end in
      longestZeroRun (S i) ws'
        (if (2 <=? l)%nat && (width <? l)%nat then Some (i, (i + l)%nat) else best)
  end.

(** The IPv6 text of a 16-byte address: the fields in hexadecimal, the
    longest zero run written [::]. *)
Definition string6 (ip : list Z) : string :=
  let ws := v6u16 ip in
  match longestZeroRun 0 ws None with
  | None => join ":" (map appendHex ws)
  | Some (zs, ze) =>
      join ":" (map appendHex (firstn zs ws)) ++ "::"
      ++ join ":" (map appendHex (skipn ze ws))
  end.

(** [ip.String()]. *)
Definition IP_String (ip : IP) : string :=
  if (List.length ip =? 0)%nat then "<nil>"
  else if negb (List.length ip =? IPv4len)%nat && negb (List.length ip =? IPv6len)%nat
       then "?" ++ String.concat EmptyString
                    (map (fun b => String.append (appendHex (b / 16)) (appendHex (b mod 16))) ip)
       else match To4 ip with
            | Some p4 => join "." (map itoa p4)
            | None => string6 ip
            end.

(** [net.IPv6loopback]. *)
Definition IPv6loopback : IP := [0; 0; 0; 0; 0; 0; 0; 0; 0; 0; 0; 0; 0; 0; 0; 1].

(** [ip.IsLoopback()]. *)
Definition IsLoopback (ip : IP) : bool :=
  match To4 ip with
  | Some ip4 => nth 0 ip4 0 =? 127
  | None => Equal ip IPv6loopback
  end.

(** [networkNumberAndMask(n)]; [None] is [(nil, nil)]. *)
Definition networkNumberAndMask (n : IPNet) : option (IP * IPMask) :=
  let ip :=
    match To4 (Net_IP n) with
    | Some ip4 => Some ip4
    | None => if (List.length (Net_IP n) =? IPv6len)%nat then Some (Net_IP n) else None
    end in
  match ip with
  | None => None
  | Some ip =>
      if (List.length (Net_Mask n) =? IPv4len)%nat then
        if negb (List.length ip =? IPv4len)%nat then None
        else Some (ip, Net_Mask n)
      else if (List.length (Net_Mask n) =? IPv6len)%nat then
        if (List.length ip =? IPv4len)%nat then Some (ip, skipn 12 (Net_Mask n))
        else Some (ip, Net_Mask n)
      else None
  end.

(** The loop [for v&0x80 != 0 { n++; v <<= 1 }] of [simpleMaskLength] on the
    byte [v]: the count and what is left of [v].  The loop is entered for a
    byte other than [0xff], so it ends within eight turns. *)
Fixpoint countOnes (fuel : nat) (v n : Z) : Z * Z :=
  match fuel with
  | O => (n, v)
  | S fuel' =>
      if negb (Z.land v 0x80 =? 0)
      then countOnes fuel' (Z.shiftl v 1 mod 256) (n + 1)
      else (n, v)
  end.

(** [simpleMaskLength(mask)]: the number of leading ones of a mask made of
    ones followed by zeros, [-1] for any other mask. *)
Fixpoint simpleMaskLength_from (mask : list Z) (n : Z) : Z :=
  match mask with
  | [] => n
  | v :: rest =>
      if v =? 0xff then simpleMaskLength_from rest (n + 8)
      else
        let (n', v') := countOnes 8 v n in
        if negb (v' =? 0) then -1
        else if forallb (Z.eqb 0) rest then n' else -1
  end.

Definition simpleMaskLength (mask : IPMask) : Z := simpleMaskLength_from mask 0.

(** [hexString(b)]: two lower-case hexadecimal digits per byte. *)
Definition hexString (b : list Z) : string :=
  String.concat EmptyString
    (map (fun x => String.append (appendHex (x / 16)) (appendHex (x mod 16))) b).

(** [m.String()] of an [IPMask]. *)
Definition IPMask_String (m : IPMask) : string :=
  if (List.length m =? 0)%nat then "<nil>" else hexString m.

(** [n.String()] of a non-nil [*IPNet]. *)
Definition IPNet_String (n : IPNet) : string :=
  match networkNumberAndMask n with
  | None => "<nil>"
  | Some (nn, m) =>
      let l := simpleMaskLength m in
      if l =? -1 then IP_String nn ++ "/" ++ IPMask_String m
      else IP_String nn ++ "/" ++ itoa l
  end.

(** A [net.Addr] as [net.InterfaceAddrs] returns it: an [*IPNet], or a value
    of another type (its [Network()] and [String()] texts). *)
Inductive InterfaceAddr : Type :=
| AddrIPNet (n : IPNet)
| AddrOther (network text : string).

End net.

(** ** Results of code that may loop or panic *)

Inductive outcome (A : Type) : Type :=
| Returns (a : A)        (* the call returns [a] *)
| Panics                 (* a run-time panic *)
| OutOfFuel.             (* still running when the fuel ran out *)

Arguments Returns {A} a.
Arguments Panics {A}.
Arguments OutOfFuel {A}.

(** ** Package [network] *)

Module network.
Import net.

(** The package's sentinel errors. *)
Inductive sentinel : Type :=
| ErrInvalidIPAddress
| ErrInvalidCIDR
| ErrInvalidRange
| ErrNoLocalNetwork.

Definition sentinel_text (e : sentinel) : string :=
  match e with
  | ErrInvalidIPAddress => "invalid IP address"
  | ErrInvalidCIDR => "invalid CIDR notation"
  | ErrInvalidRange => "invalid IP range format"
  | ErrNoLocalNetwork => "no local network found"
  end.

(** An error made by [fmt.Errorf("%w: ...", sentinel, ...)]: the sentinel it
    wraps (what [errors.Is] sees) and its text. *)
Record error : Type := mkError { wraps : sentinel; text : string }.

Definition Errorf_w (e : sentinel) (detail : string) : error :=
  mkError e (sentinel_text e ++ ": " ++ detail).

(** [IPRange] represents an IP range. *)
Record IPRange : Type := mkIPRange { StartIP : IP; EndIP : IP }.

(** [uint32(x)] and [byte(x)]: truncation to 32 and to 8 bits. *)
Definition uint32 (z : Z) : Z := z mod 2 ^ 32.
Definition byte (z : Z) : Z := z mod 256.

(** [ipToUint32]: [ip = ip.To4()], then
    [uint32(ip[0])<<24 + uint32(ip[1])<<16 + uint32(ip[2])<<8 + uint32(ip[3])]
    in 32-bit arithmetic.  Indexing the nil slice panics: [None]. *)
Definition ipToUint32 (ip : IP) : option Z :=
  match To4 ip with
  | Some [a; b; c; d] =>
      Some (uint32 (uint32 (uint32 (uint32 (Z.shiftl a 24) + uint32 (Z.shiftl b 16))
                            + uint32 (Z.shiftl c 8))
                    + d))
  | _ => None
  end.

(** [uint32ToIP]: [net.IPv4(byte(n>>24), byte(n>>16), byte(n>>8), byte(n))]. *)
Definition uint32ToIP (n : Z) : IP :=
  IPv4 (byte (Z.shiftr n 24)) (byte (Z.shiftr n 16)) (byte (Z.shiftr n 8)) (byte n).

(** [parseCIDR]'s loop [endIP[i] = startIP[i] | ^ipNet.Mask[i]] over
    [i < len(startIP)].  ([Mask] is never shorter than [startIP] here, see
    [parseCIDR_mask_length]; [nth]'s default is not reached.) *)
Definition broadcast (startIP : IP) (mask : IPMask) : IP :=
  map (fun i => Z.lor (nth i startIP 0) (Z.lxor (nth i mask 0) 0xff))
      (seq 0 (List.length startIP)).

(** [parseCIDR] parses CIDR notation. *)
Definition parseCIDR (cidr : string) : option IPRange * option error :=
  match ParseCIDR cidr with
  | None => (None, Some (Errorf_w ErrInvalidCIDR cidr))
  | Some (ip, ipNet) =>
      let startIP := Mask ip (Net_Mask ipNet) in
      let endIP := broadcast startIP (Net_Mask ipNet) in
      (Some (mkIPRange startIP endIP), None)
  end.

(** [parseRange] parses range notation. *)
Definition parseRange (rangeStr : string) : option IPRange * option error :=
  let parts := strings.Split rangeStr "-" in
  if negb (List.length parts =? 2)%nat
  then (None, Some (Errorf_w ErrInvalidRange rangeStr))
  else
    let startIP := ParseIP (strings.TrimSpace (nth 0 parts EmptyString)) in
    let endIP := ParseIP (strings.TrimSpace (nth 1 parts EmptyString)) in
    match startIP, endIP with
    | Some s, Some e => (Some (mkIPRange s e), None)
    | _, _ =>
        (None,
         Some (Errorf_w ErrInvalidRange ("invalid IP addresses in range " ++ rangeStr)))
    end.

(** [ParseIPRange] parses the three range formats. *)
Definition ParseIPRange (ipRange : string) : option IPRange * option error :=
  if strings.Contains ipRange "/" then parseCIDR ipRange
  else if strings.Contains ipRange "-" then parseRange ipRange
  else
    match ParseIP ipRange with
    | None => (None, Some (Errorf_w ErrInvalidIPAddress ipRange))
    | Some ip => (Some (mkIPRange ip ip), None)
    end.

(** The loop [for i := start; i <= end; i++ { ips = append(ips, uint32ToIP(i)) }]
    with [i] a [uint32]: [i++] wraps around. *)
Fixpoint GenerateIPs_loop (fuel : nat) (end_ i : Z) (ips : list IP) : outcome (list IP) :=
  match fuel with
  | O => OutOfFuel
  | S fuel' =>
      if i <=? end_
      then GenerateIPs_loop fuel' end_ (uint32 (i + 1)) (ips ++ [uint32ToIP i])
      else Returns ips
  end.

(** [capacity := int(end - start + 1)], computed on [uint32]. *)
Definition capacity (start end_ : Z) : Z := uint32 (uint32 (end_ - start) + 1).

(** [GenerateIPs] generates all IPs in the range; the nil slice it returns
    for a non-IPv4 endpoint is the empty list. *)
Definition GenerateIPs (fuel : nat) (r : IPRange) : outcome (list IP) :=
  match To4 (StartIP r), To4 (EndIP r) with
  | Some startIP, Some endIP =>
      match ipToUint32 startIP, ipToUint32 endIP with
      | Some start, Some end_ =>
          let cap := capacity start end_ in
          GenerateIPs_loop fuel end_ start []
      | _, _ => Panics
      end
  | _, _ => Returns []
  end.

(** What [GetLocalNetworkRange] returns as its error: the wrapped error of
    [net.InterfaceAddrs] (its text), or the sentinel [ErrNoLocalNetwork]. *)
Inductive local_error : Type :=
| InterfaceError (text : string)
| Bare (e : sentinel).

(** The loop of [GetLocalNetworkRange] over the interface addresses. *)
Fixpoint firstLocalNetwork (addrs : list InterfaceAddr) : option string :=
  match addrs with
  | [] => None
  | AddrIPNet ipNet :: rest =>
      if negb (IsLoopback (Net_IP ipNet)) then
        match To4 (Net_IP ipNet) with
        | Some _ => Some (IPNet_String ipNet)
        | None => firstLocalNetwork rest
        end
      else firstLocalNetwork rest
  | AddrOther _ _ :: rest => firstLocalNetwork rest
  end.

(** [GetLocalNetworkRange] attempts to detect the local network range;
    [addrs] and [err] are what [net.InterfaceAddrs()] returns. *)
Definition GetLocalNetworkRange (addrs : list InterfaceAddr) (err : option string)
  : string * option local_error :=
  match err with
  | Some e =>
      (EmptyString, Some (InterfaceError ("failed to get interface addresses: " ++ e)))
  | None =>
      match firstLocalNetwork addrs with
      | Some cidr => (cidr, None)
      | None => (EmptyString, Some (Bare ErrNoLocalNetwork))
      end
  end.

End network.

(** ** Go's [time] and [fmt] packages (the functions the repository calls) *)

Module time.

(** A [time.Duration] is an [int64] count of nanoseconds; a clock reading is
    a count of nanoseconds too. *)
Definition Duration := Z.

Definition Millisecond : Duration := 1000000.
Definition Second : Duration := 1000000000.

Definition minDuration : Duration := - 2 ^ 63.
Definition maxDuration : Duration := 2 ^ 63 - 1.

(** [float64(x)] of an integer: IEEE 754 binary64, round to nearest even. *)
Definition float64 (x : Z) : spec_float := binary_normalize 53 1024 x 0 false.

(** [d.Seconds()]: [float64(d / Second) + float64(d % Second)/1e9]. *)
Definition Seconds (d : Duration) : spec_float :=
  let sec := Z.quot d Second in
  let nsec := Z.rem d Second in
  SFadd 53 1024 (float64 sec) (SFdiv 53 1024 (float64 nsec) (float64 1000000000)).

(** [t.Sub(u)] on two clock readings: the difference, held within the range
    of a [Duration]. *)
Definition Sub (t u : Z) : Duration :=
  let d := t - u in
  if d <? minDuration then minDuration
  else if maxDuration <? d then maxDuration
  else d.

(** [d.Nanoseconds()]. *)
Definition Nanoseconds (d : Duration) : Z := d.

Definition Microsecond : Duration := 1000.

(** [d.Truncate(m)]: [d] rounded toward zero to a multiple of [m]; Go's [%]
    truncates toward zero. *)
Definition Truncate (d m : Duration) : Duration :=
  if m <=? 0 then d else d - Z.rem d m.

(** [fmtFrac(buf, v, prec)]: the fraction of [v / 10^prec] is written in
    front of [buf] without its trailing zeros, and without the point when it
    is zero; the result is the text and [v / 10^prec]. *)
Fixpoint fmtFrac_loop (prec : nat) (v : Z) (print : bool) (buf : string)
  : string * Z * bool :=
  match prec with
  | O => (buf, v, print)
  | S prec' =>
      let digit := v mod 10 in
      let print := print || negb (digit =? 0) in
      let buf := if print then String (ascii_of_byte (digit + 48)) buf else buf in
      fmtFrac_loop prec' (v / 10) print buf
  end.

Definition fmtFrac (buf : string) (v : Z) (prec : nat) : string * Z :=
  let '(buf, v, print) := fmtFrac_loop prec v false buf in
  (if print then String "." buf else buf, v).

(** [fmtInt(buf, v)]: the decimal digits of [v] in front of [buf]. *)
Definition fmtInt (buf : string) (v : Z) : string := (net.itoa v ++ buf)%string.

(** [d.String()]: the duration as [72h3m0.5s]; below a second in the units
    [ms], [µs] (the micro sign is two bytes in UTF-8) and [ns]. *)
Definition Duration_String (d : Duration) : string :=
  let neg := d <? 0 in
  let u := if neg then (- d) mod 2 ^ 64 else d in
  let body :=
    if u <? Second then
      if u =? 0 then "0s"%string
      else if u <? Microsecond then
        let (b, v) := fmtFrac "ns" u 0 in fmtInt b v
      else if u <? Millisecond then
        let (b, v) := fmtFrac (String (ascii_of_byte 194) (String (ascii_of_byte 181) "s")) u 3 in
        fmtInt b v
      else
        let (b, v) := fmtFrac "ms" u 6 in fmtInt b v
    else
      let (b, v) := fmtFrac "s" u 9 in
      let b := fmtInt b (v mod 60) in
      let v := v / 60 in
      if 0 <? v then
        let b := fmtInt (String "m" b) (v mod 60) in
        let v := v / 60 in
        if 0 <? v then fmtInt (String "h" b) v else b
      else b in
  if neg then String "-" body else body.

End time.

Module fmt.

(** The integer nearest to [m * 2^e], ties to even. *)
Definition round_half_even (m : positive) (e : Z) : Z :=
  if 0 <=? e then Zpos m * 2 ^ e
  else
    let d := 2 ^ (- e) in
    let q := Zpos m / d in
    let r := Zpos m mod d in
    if 2 * r <? d then q
    else if d <? 2 * r then q + 1
    else if Z.even q then q else q + 1.

(** [fmt.Sprintf("%.0f", x)]. *)
Definition Sprintf_f0 (x : spec_float) : string :=
  match x with
  | S754_zero s => if s then "-0" else "0"
  | S754_infinity s => if s then "-Inf" else "+Inf"
  | S754_nan => "NaN"
  | S754_finite s m e =>
      ((if s then "-" else "") ++ net.itoa (round_half_even m e))%string
  end.

(** [fmt.Sprintf("%d", n)]. *)
Definition Sprintf_d (n : Z) : string :=
  if n <? 0 then String "-" (net.itoa (- n)) else net.itoa n.

(** [fmt.Sprintf("%.1f", x)]: the tenths are rounded half to even on the
    exact value. *)
Definition Sprintf_f1 (x : spec_float) : string :=
  match x with
  | S754_zero s => if s then "-0.0" else "0.0"
  | S754_infinity s => if s then "-Inf" else "+Inf"
  | S754_nan => "NaN"
  | S754_finite s m e =>
      let n := round_half_even (m * 10) e in
      ((if s then "-" else "") ++ net.itoa (n / 10) ++ "." ++ net.itoa (n mod 10))%string
  end.

(** [int(x)] of a [float64]: the fraction is dropped.  For a value that is
    not finite the result depends on the platform; on amd64 it is the
    smallest [int64]. *)
Definition int_of_float (x : spec_float) : Z :=
  match x with
  | S754_zero _ => 0
  | S754_finite s m e =>
      let v := if 0 <=? e then Zpos m * 2 ^ e else Zpos m / 2 ^ (- e) in
      if s then - v else v
  | _ => - 2 ^ 63
  end.

End fmt.

(** ** The world outside the program *)

(** [exec.Command(name, arg...)]. *)
Record Cmd : Type := mkCmd { Path : string; Args : list string }.

(** How the run of an external command ends. *)
Inductive Exit : Type :=
| Exited (status : Z)         (* the process ran and exited with this status *)
| Failed (detail : string).   (* it could not be started, or its I/O failed *)

Record Run : Type := mkRun {
  exit : Exit;
  stdout : string;
  took : Z                    (* nanoseconds of wall-clock time the run takes *)
}.

(** The platform and the network as the program meets them.  Each oracle
    takes the clock reading at which it is asked. *)
Record Env : Type := mkEnv {
  GOOS : string;                                       (* [runtime.GOOS] *)
  exec : Z -> Cmd -> Run;                              (* running a command *)
  resolver : Z -> string -> list string * bool * Z     (* [net.LookupAddr]:
                                   names, whether [err == nil], time taken *)
}.

(** What the program did to the outside world. *)
Inductive Event : Type :=
| Executed (c : Cmd)
| LookedUp (addr : string).

Record World : Type := mkWorld { clock : Z; trace : list Event }.

(** ** Package [scanner] *)

Module scanner.
Import net.
Local Open Scope string_scope.

Inductive error : Type :=
| ErrUnsupportedOS (goos : string)  (* [fmt.Errorf("%w: %s", ErrUnsupportedOS, runtime.GOOS)] *)
| ExitError (status : Z)            (* [*exec.ExitError]: a non-zero exit status *)
| ExecError (detail : string).      (* any other error of [cmd.Run] *)

(** [Host] represents a discovered host on the network. *)
Record Host : Type := mkHost {
  Host_IP : IP;
  Hostname : string;
  MAC : string;
  Vendor : string;
  Latency : time.Duration;
  IsAlive : bool;
  Error : option error
}.

(** [ScanResult] represents the complete network scan results. *)
Record ScanResult : Type := mkScanResult {
  NetworkRange : string;
  TotalHosts : Z;
  AliveHosts : Z;
  Hosts : list Host;
  ScanTime : time.Duration
}.

(** Code with effects reads the environment and passes the world along. *)
Definition M (A : Type) : Type := Env -> World -> A * World.

Definition ret {A : Type} (a : A) : M A := fun _ w => (a, w).

Definition bind {A B : Type} (c : M A) (k : A -> M B) : M B :=
  fun env w => let (a, w') := c env w in k a env w'.

Notation "x <- c ;; k" := (bind c (fun x => k))
  (at level 61, c at next level, right associativity).
Notation "' p <- c ;; k" := (bind c (fun x => let 'p := x in k))
  (at level 61, p pattern, c at next level, right associativity).

(** [runtime.GOOS]. *)
Definition runtime_GOOS : M string := fun env w => (GOOS env, w).

(** [time.Now()]. *)
Definition time_Now : M Z := fun _ w => (clock w, w).

(** [time.Since(start)]. *)
Definition time_Since (start : Z) : M time.Duration :=
  now <- time_Now ;; ret (time.Sub now start).

(** The error of a finished run: nil exactly for exit status [0]. *)
Definition run_error (e : Exit) : option error :=
  match e with
  | Exited 0 => None
  | Exited status => Some (ExitError status)
  | Failed detail => Some (ExecError detail)
  end.

(** [cmd.Run()]: runs the command, waits for it, drops its output. *)
Definition cmd_Run (c : Cmd) : M (option error) :=
  fun env w =>
    let r := exec env (clock w) c in
    (run_error (exit r),
     mkWorld (clock w + took r) (trace w ++ [Executed c])%list).

(** [cmd.Output()]: runs the command and returns its standard output. *)
Definition cmd_Output (c : Cmd) : M (string * option error) :=
  fun env w =>
    let r := exec env (clock w) c in
    ((stdout r, run_error (exit r)),
     mkWorld (clock w + took r) (trace w ++ [Executed c])%list).

(** [net.LookupAddr(addr)]. *)
Definition net_LookupAddr (addr : string) : M (list string * bool) :=
  fun env w =>
    let '(names, ok, dt) := resolver env (clock w) addr in
    ((names, ok), mkWorld (clock w + dt) (trace w ++ [LookedUp addr])%list).

(** The timeout argument: [fmt.Sprintf("%.0f", timeout.Seconds()*1000)]. *)
Definition timeout_arg (timeout : time.Duration) : string :=
  fmt.Sprintf_f0 (SFmul 53 1024 (time.Seconds timeout) (time.float64 1000)).

(** The command [pingHost] builds, [None] on an unsupported platform. *)
Definition ping_command (goos ip : string) (timeout : time.Duration) : option Cmd :=
  if String.eqb goos "windows"
  then Some (mkCmd "ping" ["-n"; "1"; "-w"; timeout_arg timeout; ip])
  else if String.eqb goos "darwin" || String.eqb goos "linux"
  then Some (mkCmd "ping" ["-c"; "1"; "-W"; timeout_arg timeout; ip])
  else None.

(** [pingHost] pings a host to check if it's alive. *)
Definition pingHost (ip : string) (timeout : time.Duration) : M (bool * option error) :=
  goos <- runtime_GOOS ;;
  match ping_command goos ip timeout with
  | None => ret (false, Some (ErrUnsupportedOS goos))
  | Some cmd =>
      err <- cmd_Run cmd ;;
      ret (match err with None => true | Some _ => false end, err)
  end.

(** The scan of the ARP output in [getMACAddress]: the first field with five
    colons or five hyphens on the first line that mentions [ip] and has one. *)
Fixpoint scanARP (ip : string) (lines : list string) : string :=
  match lines with
  | [] => ""
  | line :: rest =>
      if strings.Contains line ip then
        match find (fun field => (strings.Count field ":" =? 5)%Z
                                 || (strings.Count field "-" =? 5)%Z)
                   (strings.Fields line) with
        | Some field => strings.ToUpper field
        | None => scanARP ip rest
        end
      else scanARP ip rest
  end.

Definition newline : string := String (ascii_of_byte 10) "".

(** [getMACAddress] attempts to get MAC address using ARP table. *)
Definition getMACAddress (ip : string) : M string :=
  goos <- runtime_GOOS ;;
  let cmd :=
    if String.eqb goos "windows" then Some (mkCmd "arp" ["-a"; ip])
    else if String.eqb goos "darwin" || String.eqb goos "linux"
    then Some (mkCmd "arp" ["-n"; ip])
    else None in
  match cmd with
  | None => ret ""
  | Some cmd =>
      '(output, err) <- cmd_Output cmd ;;
      match err with
      | Some _ => ret ""
      | None => ret (scanARP ip (strings.Split output newline))
      end
  end.

(** The vendor table of [getVendorFromMAC]. *)
Definition vendors : list (string * string) :=
  [ ("00:50:56", "VMware");
    ("08:00:27", "Oracle VirtualBox");
    ("52:54:00", "QEMU/KVM");
    ("B8:27:EB", "Raspberry Pi Foundation");
    ("DC:A6:32", "Raspberry Pi Foundation");
    ("E4:5F:01", "Raspberry Pi Foundation");
    ("00:16:3E", "Xen");
    ("00:1C:42", "Parallels");
    ("AC:DE:48", "Apple");
    ("F8:FF:C2", "Apple");
    ("28:CD:C1", "Apple");
    ("3C:07:54", "Apple") ].

(** [getVendorFromMAC], with the order in which [range vendors] visits the
    map's entries as a parameter (Go leaves it unspecified).  [oui] is
    computed as in the source, and as in the source it is not used. *)
Definition getVendorFromMAC_in (order : list (string * string)) (mac : string) : string :=
  if (String.length mac <? 8)%nat then "Unknown"
  else
    let oui := strings.ReplaceAll (substring 0 8 mac) ":" "" in
    let oui := strings.ReplaceAll oui "-" "" in
    let oui := strings.ToUpper oui in
    match find (fun entry => strings.HasPrefix mac (fst entry)) order with
    | Some (_, vendor) => vendor
    | None => "Unknown"
    end.

Definition getVendorFromMAC (mac : string) : string :=
  getVendorFromMAC_in vendors mac.

(** [scanHost] checks if a host is alive and gathers information. *)
Definition scanHost (ip : IP) (timeout : time.Duration) : M Host :=
  start <- time_Now ;;
  '(isAlive, err) <- pingHost (IP_String ip) timeout ;;
  latency <- time_Since start ;;
  let host := mkHost ip "" "" "" latency isAlive err in
  if isAlive then
    '(names, ok) <- net_LookupAddr (IP_String ip) ;;
    let host :=
      if ok && (0 <? List.length names)%nat
      then mkHost ip (strings.TrimSuffix (nth 0 names "") ".") "" "" latency isAlive err
      else host in
    mac <- getMACAddress (IP_String ip) ;;
    if negb (String.eqb mac "")
    then ret (mkHost ip (Hostname host) mac (getVendorFromMAC mac) latency isAlive err)
    else ret host
  else ret host.

(** *** The worker pool of [ScanNetwork]

    The goroutines of one call: the feeder, [maxWorkers] workers, the closer
    and the caller, which collects.  They share the two channels and the
    wait group.  A state of the pool says where each goroutine stands; an
    action is one goroutine's next step, and a schedule is the list of
    actions in the order they happen. *)

Inductive Worker : Type :=
| Idle                 (* at [for ip := range jobs], waiting *)
| Holding (h : Host)   (* [scanHost] returned [h]; at [results <- host] *)
| Gone.                (* returned; the deferred [wg.Done()] has run *)

Record Pool : Type := mkPool {
  cap : nat;                  (* capacity of both channels: [len(ips)] *)
  tosend : list IP;           (* what the feeder's loop has still to send *)
  jobs : list IP;             (* buffer of the [jobs] channel *)
  jobs_closed : bool;
  workers : list Worker;
  wg : Z;                     (* the wait group's counter *)
  results : list Host;        (* buffer of the [results] channel *)
  results_closed : bool;
  result : ScanResult;        (* the caller's [result] *)
  returned : bool;            (* [ScanNetwork] has returned [result] *)
  panicked : bool             (* a send on a closed channel happened *)
}.

Inductive Action : Type :=
| Feed                        (* feeder: [jobs <- ip] *)
| CloseJobs                   (* feeder: [close(jobs)] *)
| Receive (k : nat) (t : Z)   (* worker [k] takes an address and probes it,
                                 its clock reading [t] at the start *)
| Send (k : nat)              (* worker [k]: [results <- host] *)
| Leave (k : nat)             (* worker [k]: [jobs] is closed and drained *)
| CloseResults                (* closer: [wg.Wait()] is over; [close(results)] *)
| Collect                     (* caller: one turn of [for host := range results] *)
| Finish (elapsed : Z).       (* caller: the loop ends; [ScanTime]; return *)

Fixpoint set_worker (k : nat) (v : Worker) (ws : list Worker) : list Worker :=
  match ws, k with
  | [], _ => []
  | _ :: ws', O => v :: ws'
  | x :: ws', S k' => x :: set_worker k' v ws'
  end.

(** The state after [ScanNetwork] has made the channels and started the
    goroutines ([maxWorkers <= 0] starts no worker). *)
Definition start (ips : list IP) (maxWorkers : Z) : Pool :=
  {| cap := List.length ips;
     tosend := ips;
     jobs := [];
     jobs_closed := false;
     workers := repeat Idle (Z.to_nat maxWorkers);
     wg := Z.of_nat (Z.to_nat maxWorkers);
     results := [];
     results_closed := false;
     result := mkScanResult "" (Z.of_nat (List.length ips)) 0 [] 0;
     returned := false;
     panicked := false |}.

Definition with_workers (s : Pool) (ws : list Worker) : Pool :=
  mkPool (cap s) (tosend s) (jobs s) (jobs_closed s) ws (wg s) (results s)
         (results_closed s) (result s) (returned s) (panicked s).

(** One action; [None] when the goroutine cannot take it in this state (it
    is blocked, or it is not at that point of its code). *)
Definition step (env : Env) (timeout : time.Duration) (a : Action) (s : Pool)
  : option Pool :=
  if panicked s then None else
  match a with
  | Feed =>
      match tosend s with
      | ip :: rest =>
          if negb (jobs_closed s) && (List.length (jobs s) <? cap s)%nat
          then Some (mkPool (cap s) rest (jobs s ++ [ip])%list (jobs_closed s)
                            (workers s) (wg s) (results s) (results_closed s)
                            (result s) (returned s) (panicked s))
          else None
      | [] => None
      end
  | CloseJobs =>
      match tosend s with
      | [] =>
          if jobs_closed s then None
          else Some (mkPool (cap s) [] (jobs s) true (workers s) (wg s)
                            (results s) (results_closed s) (result s)
                            (returned s) (panicked s))
      | _ :: _ => None
      end
  | Receive k t =>
      match nth_error (workers s) k, jobs s with
      | Some Idle, ip :: rest =>
          let host := fst (scanHost ip timeout env (mkWorld t [])) in
          Some (mkPool (cap s) (tosend s) rest (jobs_closed s)
                       (set_worker k (Holding host) (workers s)) (wg s)
                       (results s) (results_closed s) (result s)
                       (returned s) (panicked s))
      | _, _ => None
      end
  | Send k =>
      match nth_error (workers s) k with
      | Some (Holding host) =>
          if results_closed s
          then Some (mkPool (cap s) (tosend s) (jobs s) (jobs_closed s)
                            (workers s) (wg s) (results s) (results_closed s)
                            (result s) (returned s) true)
          else if (List.length (results s) <? cap s)%nat
          then Some (mkPool (cap s) (tosend s) (jobs s) (jobs_closed s)
                            (set_worker k Idle (workers s)) (wg s)
                            (results s ++ [host])%list (results_closed s)
                            (result s) (returned s) (panicked s))
          else None
      | _ => None
      end
  | Leave k =>
      match nth_error (workers s) k, jobs s with
      | Some Idle, [] =>
          if jobs_closed s
          then Some (mkPool (cap s) (tosend s) [] (jobs_closed s)
                            (set_worker k Gone (workers s)) (wg s - 1)
                            (results s) (results_closed s) (result s)
                            (returned s) (panicked s))
          else None
      | _, _ => None
      end
  | CloseResults =>
      if (wg s =? 0)%Z && negb (results_closed s)
      then Some (mkPool (cap s) (tosend s) (jobs s) (jobs_closed s) (workers s)
                        (wg s) (results s) true (result s) (returned s)
                        (panicked s))
      else None
  | Collect =>
      if returned s then None else
      match results s with
      | host :: rest =>
          let r := result s in
          Some (mkPool (cap s) (tosend s) (jobs s) (jobs_closed s) (workers s)
                       (wg s) rest (results_closed s)
                       (mkScanResult (NetworkRange r) (TotalHosts r)
                          (if IsAlive host then AliveHosts r + 1 else AliveHosts r)
                          (Hosts r ++ [host])%list (ScanTime r))
                       (returned s) (panicked s))
      | [] => None
      end
  | Finish elapsed =>
      if returned s then None else
      match results s with
      | [] =>
          if results_closed s
          then
            let r := result s in
            Some (mkPool (cap s) (tosend s) (jobs s) (jobs_closed s) (workers s)
                         (wg s) [] (results_closed s)
                         (mkScanResult (NetworkRange r) (TotalHosts r)
                            (AliveHosts r) (Hosts r) elapsed)
                         true (panicked s))
          else None
      | _ :: _ => None
      end
  end.

(** A schedule, run from a state. *)
Fixpoint run (env : Env) (timeout : time.Duration) (sched : list Action) (s : Pool)
  : option Pool :=
  match sched with
  | [] => Some s
  | a :: sched' =>
      match step env timeout a s with
      | Some s' => run env timeout sched' s'
      | None => None
      end
  end.

(** [ScanNetwork(ips, timeout, maxWorkers)] returns [r]: under some schedule
    the caller reaches its [return] with [r]. *)
Definition ScanNetwork_returns (env : Env) (ips : list IP) (timeout : time.Duration)
  (maxWorkers : Z) (r : ScanResult) : Prop :=
  exists (sched : list Action) (s : Pool),
    run env timeout sched (start ips maxWorkers) = Some s
    /\ returned s = true /\ result s = r.

End scanner.
(** ** Package [main]: the texts of the terminal interface

    Of the interface the functions are modelled that compute what is shown:
    the progress bar, the statistics panel and the table of hosts.  The
    widgets themselves belong to the [tview] library; what a function hands
    to a widget is what the model returns.  Alignment, text colour and
    expansion of a table cell are fixed per column and are left out. *)

Module ui.
Import net scanner.
Local Open Scope string_scope.

(** The loop [for i := from; i < bound; i++ { b.WriteString(cell) }]; it
    makes at most [bound - from] turns. *)
Fixpoint WriteString_loop (fuel : nat) (i bound : Z) (cell b : string) : string :=
  match fuel with
  | O => b
  | S fuel' =>
      if (i <? bound)%Z then WriteString_loop fuel' (i + 1) bound cell (b ++ cell)
      else b
  end.

Definition barWidth : Z := 20.

(** [filled := int(float64(barWidth) * float64(progress) / 100.0)]. *)
Definition filled (progress : Z) : Z :=
  fmt.int_of_float
    (SFdiv 53 1024 (SFmul 53 1024 (time.float64 barWidth) (time.float64 progress))
           (time.float64 100)).

(** [updateProgressBar]: the text it sets on the progress view. *)
Definition updateProgressBar (message : string) (progress : Z) : string :=
  let filled := filled progress in
  let progressBar := "[#00ff88]" in
  let progressBar := WriteString_loop (Z.to_nat filled) 0 filled "█" progressBar in
  let progressBar := progressBar ++ "[#333333]" in
  let progressBar :=
    WriteString_loop (Z.to_nat (barWidth - filled)) filled barWidth "░" progressBar in
  "[#ffffff]" ++ message ++ newline ++ progressBar ++ " [#00ff88]"
  ++ fmt.Sprintf_d progress ++ "%".

(** [percentage := float64(activeHosts) / float64(totalHosts) * 100]. *)
Definition percentage (activeHosts totalHosts : Z) : spec_float :=
  SFmul 53 1024 (SFdiv 53 1024 (time.float64 activeHosts) (time.float64 totalHosts))
        (time.float64 100).

Definition statusColor (percentage : spec_float) : string :=
  let statusColor := "#ff4444" in
  let statusColor := if SFltb (time.float64 50) percentage then "#ffaa00" else statusColor in
  let statusColor := if SFltb (time.float64 80) percentage then "#00ff88" else statusColor in
  statusColor.

(** [updateInfoPanel]: the text it sets on the statistics panel.
    [scanResults] is [ui.scanResults] ([None] for nil), [now] is
    [time.Now().Format("15:04:05")]. *)
Definition updateInfoPanel (scanResults : option ScanResult) (now : string) : string :=
  match scanResults with
  | None =>
"[#888888]No scan data available

[#00ff88::b]💡 Quick Start:
[#ffffff]1. Enter IP range
[#ffffff]2. Click Start Scan
[#ffffff]3. View results

[#ffaa00::b]📝 Supported formats:
[#ffffff]• CIDR: 192.168.1.0/24
[#ffffff]• Range: 192.168.1.1-100
[#ffffff]• Single: 192.168.1.1"
  | Some r =>
      let activeHosts := AliveHosts r in
      let totalHosts := TotalHosts r in
      let scanTime := ScanTime r in
      let percentage := percentage activeHosts totalHosts in
      let statusColor := statusColor percentage in
"[#00ff88::b]📊 Scan Summary

[#ffffff::b]Total Hosts:[#ffffff] " ++ fmt.Sprintf_d totalHosts ++ "
[#00ff88::b]Active Hosts:[#ffffff] " ++ fmt.Sprintf_d activeHosts ++ "
[" ++ statusColor ++ "::b]Success Rate:[#ffffff] " ++ fmt.Sprintf_f1 percentage ++ "%

[#ffffff::b]Scan Duration:[#ffffff] "
      ++ time.Duration_String (time.Truncate scanTime time.Millisecond) ++ "

[#888888]Last updated: " ++ now
  end.

(** A row of the table of hosts. *)
Inductive Color : Type := ColorGreen | ColorRed.

Record Row : Type := mkRow {
  row_number : Z;            (* the table row the cells are set in *)
  status_cell : string;
  status_color : Color;
  ip_cell : string;
  hostname_cell : string;
  mac_cell : string;
  vendor_cell : string;
  latency_cell : string;
  shaded : bool              (* the dark background of the even rows *)
}.

(** [latencyMs := float64(host.Latency.Nanoseconds()) / 1000000]. *)
Definition latencyMs (host : Host) : spec_float :=
  SFdiv 53 1024 (time.float64 (time.Nanoseconds (Latency host))) (time.float64 1000000).

(** The cells [displayModernResults] sets for one host. *)
Definition host_row (row : Z) (host : Host) : Row :=
  let status := if IsAlive host then "🟢 Online" else "🔴 Offline" in
  let color := if IsAlive host then ColorGreen else ColorRed in
  let hostname :=
    if String.eqb (Hostname host) "" then "[#666666]Unknown" else Hostname host in
  let mac := if String.eqb (MAC host) "" then "[#666666]Unknown" else MAC host in
  let vendor := if String.eqb (Vendor host) "" then "[#666666]Unknown" else Vendor host in
  let latency := fmt.Sprintf_f1 (latencyMs host) ++ "ms" in
  let latency :=
    if negb (IsAlive host) then "[#666666]N/A"
    else
      let latencyMs := latencyMs host in
      if SFltb latencyMs (time.float64 10) then "[#00ff88]" ++ fmt.Sprintf_f1 latencyMs ++ "ms"
      else if SFltb latencyMs (time.float64 50)
      then "[#ffaa00]" ++ fmt.Sprintf_f1 latencyMs ++ "ms"
      else "[#ff4444]" ++ fmt.Sprintf_f1 latencyMs ++ "ms" in
  mkRow row status color (IP_String (Host_IP host)) hostname mac vendor latency
        (Z.rem row 2 =? 0)%Z.

(** The loop of [displayModernResults] over [result.Hosts], from table row
    [row] on. *)
Fixpoint display_rows (showInactive : bool) (hosts : list Host) (row : Z) : list Row :=
  match hosts with
  | [] => []
  | host :: rest =>
      if negb (IsAlive host) && negb showInactive
      then display_rows showInactive rest row
      else host_row row host :: display_rows showInactive rest (row + 1)
  end.

(** [displayModernResults]: the rows it sets, below the header row, and the
    title of the content area.  [showInactive] is the state of the check box;
    the function makes no use of [ipRange]. *)
Definition displayModernResults (showInactive : bool) (result : ScanResult)
  (ipRange : string) : list Row * string :=
  (display_rows showInactive (Hosts result) 1,
   " 📋 Network Devices - " ++ fmt.Sprintf_d (AliveHosts result) ++ " Active / "
   ++ fmt.Sprintf_d (TotalHosts result) ++ " Total ").

End ui.


(** ** Vocabulary of the statements *)

(** The integers [start], [start + 1], ..., [start + n - 1]. *)
Fixpoint count_up (start : Z) (n : nat) : list Z :=
  match n with
  | O => []
  | S n' => start :: count_up (start + 1) n'
  end.

(** The 32-bit value of an address, [None] when it is no IPv4 address. *)
Definition ip_value (ip : net.IP) : option Z := network.ipToUint32 ip.

(** The largest 32-bit address, 255.255.255.255. *)
Definition max_uint32 : Z := 2 ^ 32 - 1.

(** The network is stable during a scan: how the run of a command ends does
    not depend on when it is started. *)
Definition stable (env : Env) : Prop :=
  forall (t t' : Z) (c : Cmd), exit (exec env t c) = exit (exec env t' c).

(** The number of records whose [IsAlive] flag is set. *)
Fixpoint count_alive (hs : list scanner.Host) : Z :=
  match hs with
  | [] => 0
  | h :: hs' => (if scanner.IsAlive h then 1 else 0) + count_alive hs'
  end.

(** [h] is the record [scanHost] makes for its address at some clock reading. *)
Definition probed (env : Env) (timeout : time.Duration) (h : scanner.Host) : Prop :=
  exists t : Z,
    h = fst (scanner.scanHost (scanner.Host_IP h) timeout env (mkWorld t [])).

(** The records the workers hold, and the number of workers still running. *)
Fixpoint held (ws : list scanner.Worker) : list scanner.Host :=
  match ws with
  | [] => []
  | scanner.Holding h :: ws' => h :: held ws'
  | _ :: ws' => held ws'
  end.

Fixpoint active (ws : list scanner.Worker) : nat :=
  match ws with
  | [] => O
  | scanner.Gone :: ws' => active ws'
  | _ :: ws' => S (active ws')
  end.

(** Every address of the call is in exactly one place: not yet sent, in the
    [jobs] buffer, with a worker, in the [results] buffer, or collected. *)
Definition in_flight (s : scanner.Pool) : list net.IP :=
  scanner.tosend s ++ scanner.jobs s
  ++ map scanner.Host_IP (held (scanner.workers s))
  ++ map scanner.Host_IP (scanner.results s)
  ++ map scanner.Host_IP (scanner.Hosts (scanner.result s)).

(** The number of actions a state has left before [ScanNetwork] returns. *)
Definition potential (s : scanner.Pool) : nat :=
  4 * List.length (scanner.tosend s) + 3 * List.length (scanner.jobs s)
  + 2 * List.length (held (scanner.workers s)) + List.length (scanner.results s)
  + (if scanner.jobs_closed s then 0 else 1) + active (scanner.workers s)
  + (if scanner.results_closed s then 0 else 1)
  + (if scanner.returned s then 0 else 1).

(** What holds of every state the pool can reach. *)
Record pool_inv (env : Env) (timeout : time.Duration) (ips : list net.IP)
  (maxWorkers : Z) (s : scanner.Pool) : Prop := mkInv {
  inv_cap : scanner.cap s = List.length ips;
  inv_perm : Permutation (in_flight s) ips;
  inv_probed : Forall (probed env timeout)
                 (held (scanner.workers s) ++ scanner.results s
                  ++ scanner.Hosts (scanner.result s));
  inv_closed : scanner.jobs_closed s = true -> scanner.tosend s = [];
  inv_wg : scanner.wg s = Z.of_nat (active (scanner.workers s));
  inv_workers : List.length (scanner.workers s) = Z.to_nat maxWorkers;
  inv_gone : (active (scanner.workers s) < List.length (scanner.workers s))%nat ->
             scanner.jobs_closed s = true /\ scanner.jobs s = [];
  inv_rclosed : scanner.results_closed s = true -> scanner.wg s = 0;
  inv_alive : scanner.AliveHosts (scanner.result s)
              = count_alive (scanner.Hosts (scanner.result s));
  inv_total : scanner.TotalHosts (scanner.result s) = Z.of_nat (List.length ips);
  inv_returned : scanner.returned s = true ->
                 scanner.results s = [] /\ scanner.results_closed s = true;
  inv_nopanic : scanner.panicked s = false
}.

(** Whether the probe of [ip] finds it alive (asked at clock reading [0]; in
    a stable network the reading does not matter), and the number of such
    addresses in a list. *)
Definition reachable (env : Env) (timeout : time.Duration) (ip : net.IP) : bool :=
  scanner.IsAlive (fst (scanner.scanHost ip timeout env (mkWorld 0 []))).

Fixpoint count_reachable (env : Env) (timeout : time.Duration) (ips : list net.IP) : Z :=
  match ips with
  | [] => 0
  | ip :: ips' => (if reachable env timeout ip then 1 else 0)
                  + count_reachable env timeout ips'
  end.

(** The unit in which a platform's echo-request utility reads the reply
    timeout that [pingHost] passes it: [ping -w] of Windows and [ping -W] of
    macOS take milliseconds, [ping -W] of Linux (iputils) takes seconds.
    This is a fact about the utilities, taken from their manuals; the
    repository does not state it. *)
Inductive TimeUnit : Type := Milliseconds | Seconds.

Definition ping_timeout_unit (goos : string) : option TimeUnit :=
  if String.eqb goos "windows" then Some Milliseconds
  else if String.eqb goos "darwin" then Some Milliseconds
  else if String.eqb goos "linux" then Some Seconds
  else None.

(** A timeout of a whole number of units, written in that unit. *)
Definition in_unit (u : TimeUnit) (timeout : time.Duration) : string :=
  net.itoa (timeout / match u with
                      | Milliseconds => time.Millisecond
                      | Seconds => time.Second
                      end).

(** The timeout argument for [k] milliseconds is the decimal text of [k]. *)
Definition timeout_arg_is_ms (k : Z) : bool :=
  String.eqb (scanner.timeout_arg (k * time.Millisecond)) (net.itoa k).

(** A dot-decimal IPv4 address, as the specification words it: four decimal
    numbers from 0 to 255 joined by dots. *)
Definition decimal_octet (s : string) : bool :=
  (1 <=? String.length s)%nat && (String.length s <=? 3)%nat
  && forallb is_digit (list_ascii_of_string s)
  && (fold_left (fun n c => n * 10 + digit_val c) (list_ascii_of_string s) 0 <=? 255).


(** What [parseCIDR] computes on one octet [x] under the mask octet [m]:
    the low bits cleared for the network address, set for the broadcast
    address. *)
Definition octet_ok (m x : Z) : bool :=
  (Z.land x m =? x - x mod (256 - m))
  && (Z.lor (Z.land x m) (Z.lxor m 255) =? x - x mod (256 - m) + (255 - m)).

Definition octet_masks : list Z := [0; 128; 192; 224; 240; 248; 252; 254; 255].

(** ** Example environments *)

(** A Linux machine on a silent network: every command exits with status 1
    after a second, and no name resolves. *)
Definition env_silent : Env :=
  mkEnv "linux"
        (fun _ _ => mkRun (Exited 1) EmptyString 1000000000)
        (fun _ _ => ([], false, 0)).

(** A Linux machine on which the loopback address answers a ping in two
    milliseconds and resolves to [localhost]; the neighbor table knows the
    address; nothing else answers. *)
Definition env_loopback : Env :=
  mkEnv "linux"
        (fun _ c =>
           if String.eqb (last (Args c) EmptyString) "127.0.0.1"
           then if String.eqb (Path c) "ping"
                then mkRun (Exited 0) "1 packets transmitted, 1 received" 2000000
                else mkRun (Exited 0) "127.0.0.1 ether 00:50:56:c0:00:08 C lo" 1000000
           else mkRun (Exited 1) EmptyString 1000000000)
        (fun _ addr =>
           if String.eqb addr "127.0.0.1" then (["localhost."%string], true, 300000)
           else ([], false, 5000000)).

(** Two environments that differ at most in what the commands print. *)
Definition same_but_output (env env' : Env) : Prop :=
  GOOS env' = GOOS env
  /\ forall (t : Z) (c : Cmd),
      exit (exec env' t c) = exit (exec env t c)
      /\ took (exec env' t c) = took (exec env t c).

(** Two schedules of a scan of 127.0.0.1 and 10.0.0.9: one worker, which
    takes the addresses in turn; and three workers, of which the third takes
    the first address and is overtaken by the first. *)
Definition example_ips : list net.IP := [net.IPv4 127 0 0 1; net.IPv4 10 0 0 9].

Definition schedule_one_worker : list scanner.Action :=
  [ scanner.Feed; scanner.Feed; scanner.CloseJobs;
    scanner.Receive 0 0; scanner.Send 0;
    scanner.Receive 0 2000000; scanner.Send 0; scanner.Leave 0;
    scanner.CloseResults; scanner.Collect; scanner.Collect;
    scanner.Finish 1002000000 ].

Definition schedule_three_workers : list scanner.Action :=
  [ scanner.Feed; scanner.Receive 2 0; scanner.Feed; scanner.Receive 0 100;
    scanner.CloseJobs; scanner.Leave 1; scanner.Send 0; scanner.Collect;
    scanner.Send 2; scanner.Leave 0; scanner.Leave 2; scanner.CloseResults;
    scanner.Collect; scanner.Finish 1000000100 ].

(** ** Vocabulary for the text of addresses *)

(** The byte [c] occurs in [s]. *)
Fixpoint has_char (c : ascii) (s : string) : bool :=
  match s with
  | EmptyString => false
  | String x s' => Ascii.eqb x c || has_char c s'
  end.

(** None of the bytes that matter to the parsers ([.], [:], [%], [/], [-])
    occurs in [s]. *)
Definition plain (s : string) : bool :=
  negb (has_char "." s) && negb (has_char ":" s) && negb (has_char "%" s)
  && negb (has_char "/" s) && negb (has_char "-" s).

(** What the digit branch of [parseIPv4_loop] makes of its state over a run
    of digits [ds]: the value, the digit count and the last byte read;
    [None] where the loop refuses (a leading zero, a value over 255). *)
Fixpoint run_digits (ds : string) (prev : option ascii) (val digLen : Z)
  : option (option ascii * Z * Z) :=
  match ds with
  | EmptyString => Some (prev, val, digLen)
  | String c ds' =>
      if (digLen =? 1) && (val =? 0) then None
      else
        let val := val * 10 + byte_of_ascii c - 48 in
        if 255 <? val then None
        else run_digits ds' (Some c) val (digLen + 1)
  end.

(** The decimal text of the byte [b] is read back as [b]: it is a non-empty
    run of digits without any other byte, the last of them not a dot. *)
Definition octet_text_ok (b : Z) : bool :=
  let ds := net.itoa b in
  forallb is_digit (list_ascii_of_string ds)
  && plain ds
  && match ds with String c _ => is_digit c | EmptyString => false end
  && match string_rev ds with String c _ => is_digit c | EmptyString => false end
  && match run_digits ds None 0 0 with
     | Some (Some c, v, _) => (v =? b) && negb (Ascii.eqb c ".")
     | _ => false
     end
  && match net.dtoi ds with
     | (n, i, ok) => (n =? b) && (i =? Z.of_nat (String.length ds)) && ok
     end.

(** What [octet_text_ok] says, as propositions. *)
Record octet_text_spec (b : Z) : Prop := {
  ot_digits : forallb is_digit (list_ascii_of_string (net.itoa b)) = true;
  ot_plain : plain (net.itoa b) = true;
  ot_first : exists c s, net.itoa b = String c s /\ is_digit c = true;
  ot_last : exists c s, string_rev (net.itoa b) = String c s /\ is_digit c = true;
  ot_run : exists c k, run_digits (net.itoa b) None 0 0 = Some (Some c, b, k)
                       /\ Ascii.eqb c "." = false;
  ot_dtoi : net.dtoi (net.itoa b) = (b, Z.of_nat (String.length (net.itoa b)), true)
}.

(** The dotted text of the four bytes [a.b.c.d]. *)
Definition dotted (a b c d : Z) : string :=
  net.itoa a ++ "." ++ net.itoa b ++ "." ++ net.itoa c ++ "." ++ net.itoa d.

(** The prefix length [n] is written and read back, and it is the length of
    the mask [CIDRMask n 32]. *)
Definition prefix_text_ok (n : Z) : bool :=
  let ds := net.itoa n in
  negb (has_char "/" ds)
  && match net.dtoi ds with
     | (m, i, ok) => (m =? n) && (i =? Z.of_nat (String.length ds)) && ok
     end
  && (net.simpleMaskLength (net.CIDRMask n 32) =? n)
  && (List.length (net.CIDRMask n 32) =? 4)%nat.

(** An interface address [GetLocalNetworkRange] settles on: an [*net.IPNet]
    whose address is an IPv4 address other than a loopback address. *)
Definition local_candidate (a : net.InterfaceAddr) : bool :=
  match a with
  | net.AddrIPNet n =>
      negb (net.IsLoopback (net.Net_IP n))
      && match net.To4 (net.Net_IP n) with Some _ => true | None => false end
  | net.AddrOther _ _ => false
  end.

(** A run of ASCII white space. *)
Definition blank (s : string) : bool :=
  forallb strings.asciiSpace (list_ascii_of_string s).

(** The addresses of a call in the order in which they leave the pool: those
    collected, those in the [results] buffer, those with a worker, those in
    the [jobs] buffer, those not yet sent. *)
Definition in_order (s : scanner.Pool) : list net.IP :=
  map scanner.Host_IP (scanner.Hosts (scanner.result s))
  ++ map scanner.Host_IP (scanner.results s)
  ++ map scanner.Host_IP (held (scanner.workers s))
  ++ scanner.jobs s ++ scanner.tosend s.

(** The ping of [ip] exits with status 0 (asked at clock reading [0]; in a
    stable network the reading does not matter). *)
Definition answers (env : Env) (timeout : time.Duration) (ip : net.IP) : bool :=
  match scanner.ping_command (GOOS env) (net.IP_String ip) timeout with
  | Some cmd =>
      match exit (exec env 0 cmd) with
      | Exited 0 => true
      | _ => false
      end
  | None => false
  end.

(** ** Vocabulary for the interface *)

(** [n] copies of [cell]. *)
Fixpoint cells (cell : string) (n : nat) : string :=
  match n with
  | O => EmptyString
  | S n' => (cell ++ cells cell n')%string
  end.

(** The number of cells [updateProgressBar] fills for [progress] is
    [progress / 5], rounded toward zero. *)
Definition filled_ok (progress : Z) : bool := ui.filled progress =? Z.quot progress 5.

(** A Windows machine on which 10.0.0.9 answers a ping in three
    milliseconds; [arp -a] prints the hardware address with hyphens, as
    Windows does; no name resolves. *)
Definition env_windows : Env :=
  mkEnv "windows"
        (fun _ c =>
           if String.eqb (Path c) "ping"
           then mkRun (Exited 0) "Reply from 10.0.0.9: bytes=32 time=3ms TTL=64" 3000000
           else mkRun (Exited 0) "  10.0.0.9   00-50-56-c0-00-08   dynamic" 1000000)
        (fun _ _ => ([], false, 5000000)).

(** ** Address texts, as a specification words them *)

(** A decimal number written without a leading zero: [0] itself, or a text
    that does not start with [0]. *)
Definition no_leading_zero (s : string) : bool :=
  match s with
  | String c (String _ _) => negb (Ascii.eqb c "0")
  | _ => true
  end.

(** A dot-decimal IPv4 address whose four numbers have no leading zero. *)
Definition strict_octet (s : string) : bool := decimal_octet s && no_leading_zero s.

Definition strict_dot_decimal (s : string) : bool :=
  match strings.Split s "." with
  | [a; b; c; d] => strict_octet a && strict_octet b && strict_octet c && strict_octet d
  | _ => false
  end.

(** The byte [b] as a strict octet and back. *)
Definition strict_octet_ok (b : Z) : bool :=
  strict_octet (net.itoa b)
  && (fold_left (fun n c => n * 10 + digit_val c) (list_ascii_of_string (net.itoa b)) 0 =? b).

(** Appending the digit [d] to the decimal text of [v] gives the text of
    [10 v + d]. *)
Definition itoa_step_ok (v : Z) : bool :=
  forallb (fun d =>
             (255 <? v * 10 + d)
             || String.eqb (net.itoa (v * 10 + d))
                           (net.itoa v ++ String (ascii_of_byte (48 + d)) EmptyString))
          (count_up 0 10).

(** The text of the octets [fields], each followed by a dot. *)
Fixpoint dots (fields : list Z) : string :=
  match fields with
  | [] => EmptyString
  | x :: rest => (net.itoa x ++ "." ++ dots rest)%string
  end.

(** A hexadecimal digit, and a group of one to four of them. *)
Definition is_hex (c : ascii) : bool :=
  let n := byte_of_ascii c in
  ((48 <=? n) && (n <=? 57)) || ((97 <=? n) && (n <=? 102)) || ((65 <=? n) && (n <=? 70)).

Definition hexgroup (g : string) : bool :=
  (1 <=? String.length g)%nat && (String.length g <=? 4)%nat
  && forallb is_hex (list_ascii_of_string g).

(** An IPv6 address text: groups of one to four hexadecimal digits joined by
    colons; eight groups, or fewer with one double colon that stands for the
    missing groups (at least one); in place of the last two groups there may
    be a dot-decimal IPv4 address.  [pre] are the groups before the double
    colon (all the groups if there is none), [post] those after it, [tail]
    the dot-decimal part if there is one. *)
Definition ipv6_text (s : string) : Prop :=
  exists pre post tail : list string,
    forallb hexgroup pre = true /\ forallb hexgroup post = true
    /\ (tail = [] \/ exists t, tail = [t] /\ strict_dot_decimal t = true)
    /\ ((post = [] /\ s = net.join ":" (pre ++ tail)
         /\ (List.length pre + 2 * List.length tail = 8)%nat)
        \/ (s = (net.join ":" pre ++ "::" ++ net.join ":" (post ++ tail))%string
            /\ (List.length pre + List.length post + 2 * List.length tail <= 7)%nat)).

(** What [parseIPv6_loop] does after it has stored a group, with tests in
    place of the patterns on characters; [k] is the next turn. *)
Definition v6_after_group
  (k : string -> list Z -> option nat -> option (list Z * option nat * string))
  (rest : string) (ip : list Z) (ell : option nat)
  : option (list Z * option nat * string) :=
  match rest with
  | EmptyString => Some (ip, ell, EmptyString)
  | String c rest' =>
      if negb (Ascii.eqb c ":") then None
      else
        match rest' with
        | EmptyString => None
        | String c2 rest'' =>
            if Ascii.eqb c2 ":" then
              match ell with
              | Some _ => None
              | None =>
                  match rest'' with
                  | EmptyString => Some (ip, Some (List.length ip), EmptyString)
                  | _ => k rest'' ip (Some (List.length ip))
                  end
              end
            else k rest' ip ell
        end
  end.

(** The dot-decimal end of [parseIPv6_loop]'s turn. *)
Definition v6_tail (s : string) (ip : list Z) (ell : option nat)
  : option (list Z * option nat * string) :=
  if match ell with None => negb (List.length ip =? 12)%nat | Some _ => false end
  then None
  else if (16 <? List.length ip + 4)%nat then None
  else match net.parseIPv4Fields s with
       | None => None
       | Some f => Some ((ip ++ f)%list, ell, EmptyString)
       end.

(** The leading double colon [parseIPv6] looks for, with tests in place of
    the pattern. *)
Definition v6_lead (s : string) : option nat * string :=
  match s with
  | String c1 (String c2 s') =>
      if Ascii.eqb c1 ":" && Ascii.eqb c2 ":" then (Some O, s') else (None, s)
  | _ => (None, s)
  end.


(** * Facts about package [network] *)

Module NetworkFacts.
Import net network.

Ltac zdiv := Z.div_mod_to_equations.

Ltac pow2_consts :=
  change (2 ^ 24) with 16777216 in *; change (2 ^ 16) with 65536 in *;
  change (2 ^ 8) with 256 in *; change (2 ^ 32) with 4294967296 in *.

(** *** The conversions between addresses and 32-bit integers *)

Lemma pack_value (a b c d : Z) :
  is_byte a -> is_byte b -> is_byte c -> is_byte d ->
  ipToUint32 [a; b; c; d] = Some (a * 16777216 + b * 65536 + c * 256 + d).
Proof.
  unfold is_byte, ipToUint32, uint32; intros Ha Hb Hc Hd.
  cbn [To4 List.length Nat.eqb IPv4len].
  f_equal. rewrite !Z.shiftl_mul_pow2 by lia. pow2_consts.
  rewrite (Z.mod_small (a * 16777216)) by lia.
  rewrite (Z.mod_small (b * 65536)) by lia.
  rewrite (Z.mod_small (c * 256)) by lia.
  rewrite (Z.mod_small (a * 16777216 + b * 65536)) by lia.
  rewrite (Z.mod_small (a * 16777216 + b * 65536 + c * 256)) by lia.
  rewrite Z.mod_small by lia. reflexivity.
Qed.

Lemma unpack_bytes (a b c d : Z) :
  is_byte a -> is_byte b -> is_byte c -> is_byte d ->
  uint32ToIP (a * 16777216 + b * 65536 + c * 256 + d) = IPv4 a b c d.
Proof.
  unfold is_byte, uint32ToIP, byte; intros Ha Hb Hc Hd.
  rewrite !Z.shiftr_div_pow2 by lia. pow2_consts.
  f_equal; zdiv; lia.
Qed.

Lemma To4_IPv4 (a b c d : Z) : To4 (IPv4 a b c d) = Some [a; b; c; d].
Proof. reflexivity. Qed.

Lemma To4_four (a b c d : Z) : To4 [a; b; c; d] = Some [a; b; c; d].
Proof. reflexivity. Qed.

Lemma ipToUint32_IPv4 (a b c d : Z) :
  ipToUint32 (IPv4 a b c d) = ipToUint32 [a; b; c; d].
Proof. reflexivity. Qed.

Lemma uint32ToIP_value (n : Z) :
  0 <= n < 2 ^ 32 -> ipToUint32 (uint32ToIP n) = Some n.
Proof.
  intros Hn. unfold uint32ToIP, ipToUint32. rewrite To4_IPv4.
  f_equal. unfold byte, uint32.
  rewrite !Z.shiftr_div_pow2, !Z.shiftl_mul_pow2 by lia. pow2_consts.
  zdiv; lia.
Qed.

Lemma uint32_range (z : Z) : 0 <= uint32 z < 2 ^ 32.
Proof. unfold uint32. apply Z.mod_pos_bound. reflexivity. Qed.

Lemma ipToUint32_range (ip : IP) (n : Z) :
  ipToUint32 ip = Some n -> 0 <= n < 2 ^ 32.
Proof.
  unfold ipToUint32. destruct (To4 ip) as [[|a [|b [|c [|d [|? ?]]]]]|];
    try discriminate.
  intros H; injection H as <-. apply uint32_range.
Qed.

(** [To4] answers a 4-byte slice, on which [To4] is the identity. *)
Lemma To4_length (ip ip4 : IP) : To4 ip = Some ip4 -> To4 ip4 = Some ip4.
Proof.
  unfold To4.
  destruct (List.length ip =? IPv4len)%nat eqn:E4.
  - intros H; injection H as <-. rewrite E4. reflexivity.
  - destruct ((List.length ip =? IPv6len)%nat && isZeros (firstn 10 ip)
              && (nth 10 ip 0 =? 255) && (nth 11 ip 0 =? 255)) eqn:E6;
      try discriminate.
    intros H; injection H as <-.
    apply andb_prop in E6 as [E6 _]. apply andb_prop in E6 as [E6 _].
    apply andb_prop in E6 as [E6 _]. apply Nat.eqb_eq in E6.
    destruct ip as [|x0 [|x1 [|x2 [|x3 [|x4 [|x5 [|x6 [|x7 [|x8 [|x9 [|x10
      [|x11 [|x12 [|x13 [|x14 [|x15 [|x16 ip]]]]]]]]]]]]]]]]];
      cbn in E6; try discriminate.
    reflexivity.
Qed.

Lemma ipToUint32_To4 (ip ip4 : IP) :
  To4 ip = Some ip4 -> ipToUint32 ip4 = ipToUint32 ip.
Proof.
  intros H. unfold ipToUint32. rewrite (To4_length _ _ H), H. reflexivity.
Qed.



Lemma bytesEqual_refl (l : list Z) : bytesEqual l l = true.
Proof. induction l as [|x l IH]; cbn; [reflexivity|]. rewrite Z.eqb_refl. exact IH. Qed.

(** *** The expansion loop *)

Lemma count_up_length (n : nat) (start : Z) : List.length (count_up start n) = n.
Proof. revert start; induction n as [|n IH]; intros; cbn; [|rewrite IH]; reflexivity. Qed.

Lemma count_up_nth (n k : nat) (start : Z) :
  (k < n)%nat -> nth k (count_up start n) 0 = start + Z.of_nat k.
Proof.
  revert k start; induction n as [|n IH]; intros k start Hk; [lia|].
  destruct k as [|k]; cbn [count_up nth]; [lia|].
  rewrite IH by lia. lia.
Qed.

Lemma count_up_In (n : nat) (start x : Z) :
  In x (count_up start n) <-> start <= x < start + Z.of_nat n.
Proof.
  revert start; induction n as [|n IH]; intros start; cbn [count_up In].
  - lia.
  - rewrite IH. lia.
Qed.

Lemma count_up_snoc (n : nat) (start : Z) :
  count_up start (S n) = count_up start n ++ [start + Z.of_nat n].
Proof.
  revert start; induction n as [|n IH]; intros start.
  - cbn. f_equal. lia.
  - change (count_up start (S (S n))) with (start :: count_up (start + 1) (S n)).
    rewrite IH. cbn [count_up app]. do 2 f_equal. f_equal. lia.
Qed.

(** The loop exits as soon as [i] is past [end_]. *)
Lemma loop_exit (fuel : nat) (end_ i : Z) (ips : list IP) :
  end_ < i -> GenerateIPs_loop (S fuel) end_ i ips = Returns ips.
Proof.
  intros H. cbn [GenerateIPs_loop]. destruct (Z.leb_spec i end_); [lia|reflexivity].
Qed.

(** Below the largest address the loop appends [start .. end_] and exits:
    [n] turns and one more test. *)
Lemma loop_returns (end_ : Z) (n : nat) :
  end_ < max_uint32 ->
  forall (start : Z) (ips : list IP) (fuel : nat),
    0 <= start -> start + Z.of_nat n = end_ + 1 -> (n < fuel)%nat ->
    GenerateIPs_loop fuel end_ start ips
    = Returns (ips ++ map uint32ToIP (count_up start n)).
Proof.
  unfold max_uint32. intros Hend.
  induction n as [|n IH]; intros start ips fuel H0 Hn Hf.
  - destruct fuel as [|fuel]; [lia|]. rewrite loop_exit by lia.
    cbn. rewrite app_nil_r. reflexivity.
  - destruct fuel as [|fuel]; [lia|]. cbn [GenerateIPs_loop].
    destruct (Z.leb_spec start end_); [|lia].
    assert (Hw : uint32 (start + 1) = start + 1).
    { unfold uint32. apply Z.mod_small. lia. }
    rewrite Hw, IH by lia.
    cbn [count_up map]. rewrite <- app_assoc. reflexivity.
Qed.

(** With [end_] the largest 32-bit value the test [i <= end_] never fails. *)
Lemma loop_diverges (fuel : nat) :
  forall (i : Z) (ips : list IP),
    0 <= i < 2 ^ 32 -> GenerateIPs_loop fuel max_uint32 i ips = OutOfFuel.
Proof.
  unfold max_uint32.
  induction fuel as [|fuel IH]; intros i ips Hi; [reflexivity|].
  cbn [GenerateIPs_loop]. destruct (Z.leb_spec i (2 ^ 32 - 1)); [|lia].
  apply IH. apply uint32_range.
Qed.

(** [GenerateIPs] on a range with two IPv4 endpoints is the loop. *)
Lemma GenerateIPs_ipv4 (fuel : nat) (r : IPRange) (start end_ : Z) :
  ip_value (StartIP r) = Some start -> ip_value (EndIP r) = Some end_ ->
  GenerateIPs fuel r = GenerateIPs_loop fuel end_ start [].
Proof.
  unfold ip_value, GenerateIPs. intros Hs He.
  destruct (To4 (StartIP r)) as [s4|] eqn:Es.
  2:{ unfold ipToUint32 in Hs. rewrite Es in Hs. discriminate. }
  destruct (To4 (EndIP r)) as [e4|] eqn:Ee.
  2:{ unfold ipToUint32 in He. rewrite Ee in He. discriminate. }
  rewrite (ipToUint32_To4 _ _ Es), (ipToUint32_To4 _ _ Ee), Hs, He.
  reflexivity.
Qed.

End NetworkFacts.

(** * Facts about CIDR parsing *)

Module CIDRFacts.
Import net network NetworkFacts.

(** *** What the parser returns for an IPv4 CIDR text *)

Lemma mod_256_byte (z : Z) : is_byte (z mod 256).
Proof. unfold is_byte. apply Z.mod_pos_bound. reflexivity. Qed.

Lemma parseIPv4_loop_bytes (s : string) :
  forall (prev : option ascii) (val digLen : Z) (fields f : list Z),
    Forall is_byte fields -> (List.length fields <= 3)%nat ->
    parseIPv4_loop s prev val digLen fields = Some f ->
    Forall is_byte f /\ List.length f = 4%nat.
Proof.
  induction s as [|c s IH]; intros prev val digLen fields f Hb Hl H; cbn [parseIPv4_loop] in H.
  - destruct (Nat.ltb_spec (List.length fields) 3); [discriminate|].
    injection H as <-. split.
    + apply Forall_app. split; [assumption|]. constructor; [apply mod_256_byte|constructor].
    + rewrite length_app. cbn. lia.
  - destruct (is_digit c).
    + destruct ((digLen =? 1) && (val =? 0)); [discriminate|].
      destruct (255 <? val * 10 + byte_of_ascii c - 48); [discriminate|].
      eapply IH; eassumption.
    + destruct (Ascii.eqb c "."); [|discriminate].
      destruct (match prev with None => true | Some p => Ascii.eqb p "." end
                || (String.length s =? 0)%nat); [discriminate|].
      destruct (Nat.eqb_spec (List.length fields) 3); [discriminate|].
      eapply IH; [| |eassumption].
      * apply Forall_app. split; [assumption|]. constructor; [apply mod_256_byte|constructor].
      * rewrite length_app. cbn. lia.
Qed.

Lemma parseIPv4Fields_bytes (s : string) (f : list Z) :
  parseIPv4Fields s = Some f ->
  exists a b c d : Z,
    f = [a; b; c; d] /\ is_byte a /\ is_byte b /\ is_byte c /\ is_byte d.
Proof.
  unfold parseIPv4Fields. intros H.
  destruct (parseIPv4_loop_bytes s None 0 0 [] f (Forall_nil _) ltac:(cbn; lia) H)
    as [Hb Hl].
  destruct f as [|a [|b [|c [|d [|e f]]]]]; try discriminate.
  inversion Hb as [|? ? Ha Hb1]; subst. inversion Hb1 as [|? ? Hb' Hb2]; subst.
  inversion Hb2 as [|? ? Hc Hb3]; subst. inversion Hb3 as [|? ? Hd _]; subst.
  exists a, b, c, d. auto.
Qed.

Lemma parseIPv6_family (s : string) (f : list Z) : parseIPv6 s <> Some (Addr4 f).
Proof.
  unfold parseIPv6.
  repeat match goal with
         | |- context [match ?x with _ => _ end] => destruct x
         end; discriminate.
Qed.

Lemma ParseAddr_scan_v4 (s rest : string) (f : list Z) :
  ParseAddr_scan s rest = Some (Addr4 f) -> parseIPv4Fields s = Some f.
Proof.
  induction rest as [|c rest IH]; cbn [ParseAddr_scan]; [discriminate|].
  destruct (Ascii.eqb c ".").
  - unfold parseIPv4. destruct (parseIPv4Fields s); cbn; [|discriminate].
    intros H; injection H as <-. reflexivity.
  - destruct (Ascii.eqb c ":").
    + intros H. exfalso. exact (parseIPv6_family _ _ H).
    + destruct (Ascii.eqb c "%"); [discriminate|assumption].
Qed.

Lemma cutByte_Contains (c : ascii) (s a b : string) :
  cutByte c s = Some (a, b) -> strings.Contains s (String c EmptyString) = true.
Proof.
  revert a b; induction s as [|x s IH]; intros a b; cbn [cutByte]; [discriminate|].
  destruct (Ascii.eqb_spec x c) as [->|Hne].
  - intros _. cbn. destruct (ascii_dec c c); [|contradiction].
    destruct s; reflexivity.
  - destruct (cutByte c s) as [[a' b']|] eqn:E; [|discriminate].
    intros _. cbn [strings.Contains]. rewrite (IH a' b' eq_refl). apply orb_true_r.
Qed.

Lemma CIDRMask_bytes_length (l : nat) (n : Z) : List.length (CIDRMask_bytes l n) = l.
Proof.
  revert n; induction l as [|l IH]; intros n; cbn [CIDRMask_bytes]; [reflexivity|].
  destruct (8 <=? n); cbn; rewrite IH; reflexivity.
Qed.

(** An accepted CIDR text with a 4-byte mask is [a.b.c.d/n]: the address is
    the IPv4 address of four bytes and the mask has [n] leading ones,
    [0 <= n <= 32]. *)
Lemma ParseCIDR_v4 (s : string) (ip : IP) (ipn : IPNet) :
  ParseCIDR s = Some (ip, ipn) -> List.length (Net_Mask ipn) = 4%nat ->
  exists a b c d n : Z,
    is_byte a /\ is_byte b /\ is_byte c /\ is_byte d /\ 0 <= n <= 32
    /\ ip = IPv4 a b c d
    /\ Net_Mask ipn = CIDRMask n 32
    /\ strings.Contains s "/" = true.
Proof.
  unfold ParseCIDR. intros H Hlen.
  destruct (cutByte "/" s) as [[addr mask]|] eqn:Ecut; [|discriminate].
  pose proof (cutByte_Contains _ _ _ _ Ecut) as Hc.
  destruct (ParseAddr addr) as [ipAddr|] eqn:Eaddr; [|discriminate].
  destruct (negb (String.length (Zone ipAddr) =? 0)%nat); [discriminate|].
  destruct (dtoi mask) as [[n i] ok].
  destruct (negb ok || negb (i =? Z.of_nat (String.length mask)) || (n <? 0)
            || (BitLen ipAddr <? n)) eqn:Echk; [discriminate|].
  injection H as <- <-. cbn [Net_Mask] in Hlen.
  apply orb_false_iff in Echk as [Echk Hhi]. apply orb_false_iff in Echk as [_ Hlo].
  apply Z.ltb_ge in Hhi, Hlo.
  destruct ipAddr as [f|bytes zone]; cbn [BitLen As16] in *.
  - destruct (parseIPv4Fields_bytes _ _ (ParseAddr_scan_v4 _ _ _ Eaddr))
      as (a & b & c & d & -> & Ha & Hb & Hcc & Hd).
    exists a, b, c, d, n.
    repeat split; try reflexivity; try assumption; unfold is_byte in *; lia.
  - exfalso. unfold CIDRMask in Hlen. cbn in Hlen.
    destruct (n <? 0) eqn:E1; [apply Z.ltb_lt in E1; lia|].
    destruct (128 <? n) eqn:E2; [apply Z.ltb_lt in E2; lia|].
    cbn in Hlen. rewrite CIDRMask_bytes_length in Hlen. discriminate.
Qed.

(** *** Network and broadcast address, octet by octet *)

Lemma octet_all :
  forallb (fun m => forallb (octet_ok m) (count_up 0 256)) octet_masks = true.
Proof. vm_compute. reflexivity. Qed.

Lemma octet_mask (m x : Z) :
  In m octet_masks -> is_byte x ->
  Z.land x m = x - x mod (256 - m)
  /\ Z.lor (x - x mod (256 - m)) (Z.lxor m 255) = x - x mod (256 - m) + (255 - m).
Proof.
  intros Hm Hx.
  pose proof octet_all as H. rewrite forallb_forall in H. specialize (H m Hm).
  rewrite forallb_forall in H.
  assert (Hin : In x (count_up 0 256)) by (apply count_up_In; unfold is_byte in Hx; lia).
  specialize (H x Hin). unfold octet_ok in H.
  apply andb_prop in H as [H1 H2]. apply Z.eqb_eq in H1, H2.
  rewrite H1 in H2. split; assumption.
Qed.

Lemma Mask_v4 (a b c d m0 m1 m2 m3 : Z) :
  Mask (IPv4 a b c d) [m0; m1; m2; m3]
  = [Z.land a m0; Z.land b m1; Z.land c m2; Z.land d m3].
Proof. reflexivity. Qed.

Lemma broadcast_v4 (s0 s1 s2 s3 m0 m1 m2 m3 : Z) :
  broadcast [s0; s1; s2; s3] [m0; m1; m2; m3]
  = [Z.lor s0 (Z.lxor m0 255); Z.lor s1 (Z.lxor m1 255);
     Z.lor s2 (Z.lxor m2 255); Z.lor s3 (Z.lxor m3 255)].
Proof. reflexivity. Qed.

Ltac octet x m :=
  let H := fresh in
  assert (H : In m octet_masks) by (unfold octet_masks; cbn; tauto);
  match goal with
  | Hx : is_byte x |- _ =>
      destruct (octet_mask m x H Hx) as [-> ->]; clear H
  end.

Ltac cidr_case :=
  match goal with
  | |- context [CIDRMask ?k 32] =>
      let m := eval vm_compute in (CIDRMask k 32) in
      change (CIDRMask k 32) with m;
      let v := eval vm_compute in (2 ^ (32 - k)) in
      change (2 ^ (32 - k)) with v
  end;
  rewrite Mask_v4, broadcast_v4;
  match goal with
  | |- context [[Z.land ?a ?m0; Z.land ?b ?m1; Z.land ?c ?m2; Z.land ?d ?m3]] =>
      octet a m0; octet b m1; octet c m2; octet d m3
  end;
  cbn [Z.sub Z.opp Z.add Pos.sub Z.pos_sub Pos.add Pos.succ Pos.sub_mask
       Pos.double_mask Pos.succ_double_mask Pos.double_pred_mask Pos.pred_double];
  unfold is_byte in *;
  rewrite !pack_value by (unfold is_byte; Z.div_mod_to_equations; lia);
  repeat split; try reflexivity; f_equal; Z.div_mod_to_equations; lia.

(** The network address [addr - addr mod 2^(32-n)] and the broadcast address
    [network + 2^(32-n) - 1], as 32-bit values of the two slices [parseCIDR]
    builds. *)
Lemma cidr_values (a b c d n : Z) :
  is_byte a -> is_byte b -> is_byte c -> is_byte d -> 0 <= n <= 32 ->
  ipToUint32 (Mask (IPv4 a b c d) (CIDRMask n 32))
  = Some ((a * 16777216 + b * 65536 + c * 256 + d)
          - (a * 16777216 + b * 65536 + c * 256 + d) mod 2 ^ (32 - n))
  /\ ipToUint32 (broadcast (Mask (IPv4 a b c d) (CIDRMask n 32)) (CIDRMask n 32))
     = Some ((a * 16777216 + b * 65536 + c * 256 + d)
             - (a * 16777216 + b * 65536 + c * 256 + d) mod 2 ^ (32 - n)
             + 2 ^ (32 - n) - 1).
Proof.
  intros Ha Hb Hc Hd Hn.
  destruct (Z.eq_dec n 0) as [->|?]; [cidr_case|].
  destruct (Z.eq_dec n 1) as [->|?]; [cidr_case|].
  destruct (Z.eq_dec n 2) as [->|?]; [cidr_case|].
  destruct (Z.eq_dec n 3) as [->|?]; [cidr_case|].
  destruct (Z.eq_dec n 4) as [->|?]; [cidr_case|].
  destruct (Z.eq_dec n 5) as [->|?]; [cidr_case|].
  destruct (Z.eq_dec n 6) as [->|?]; [cidr_case|].
  destruct (Z.eq_dec n 7) as [->|?]; [cidr_case|].
  destruct (Z.eq_dec n 8) as [->|?]; [cidr_case|].
  destruct (Z.eq_dec n 9) as [->|?]; [cidr_case|].
  destruct (Z.eq_dec n 10) as [->|?]; [cidr_case|].
  destruct (Z.eq_dec n 11) as [->|?]; [cidr_case|].
  destruct (Z.eq_dec n 12) as [->|?]; [cidr_case|].
  destruct (Z.eq_dec n 13) as [->|?]; [cidr_case|].
  destruct (Z.eq_dec n 14) as [->|?]; [cidr_case|].
  destruct (Z.eq_dec n 15) as [->|?]; [cidr_case|].
  destruct (Z.eq_dec n 16) as [->|?]; [cidr_case|].
  destruct (Z.eq_dec n 17) as [->|?]; [cidr_case|].
  destruct (Z.eq_dec n 18) as [->|?]; [cidr_case|].
  destruct (Z.eq_dec n 19) as [->|?]; [cidr_case|].
  destruct (Z.eq_dec n 20) as [->|?]; [cidr_case|].
  destruct (Z.eq_dec n 21) as [->|?]; [cidr_case|].
  destruct (Z.eq_dec n 22) as [->|?]; [cidr_case|].
  destruct (Z.eq_dec n 23) as [->|?]; [cidr_case|].
  destruct (Z.eq_dec n 24) as [->|?]; [cidr_case|].
  destruct (Z.eq_dec n 25) as [->|?]; [cidr_case|].
  destruct (Z.eq_dec n 26) as [->|?]; [cidr_case|].
  destruct (Z.eq_dec n 27) as [->|?]; [cidr_case|].
  destruct (Z.eq_dec n 28) as [->|?]; [cidr_case|].
  destruct (Z.eq_dec n 29) as [->|?]; [cidr_case|].
  destruct (Z.eq_dec n 30) as [->|?]; [cidr_case|].
  destruct (Z.eq_dec n 31) as [->|?]; [cidr_case|].
  destruct (Z.eq_dec n 32) as [->|?]; [cidr_case|].
  lia.
Qed.

End CIDRFacts.

(** ** Facts about the text of addresses *)

Module TextFacts.
Import net network NetworkFacts CIDRFacts.

(** *** Bytes of a text *)

Lemma prefix_empty (s : string) : String.prefix EmptyString s = true.
Proof. destruct s; reflexivity. Qed.

Lemma append_empty (s : string) : (s ++ EmptyString)%string = s.
Proof. induction s as [|c s IH]; [reflexivity|]. cbn. rewrite IH. reflexivity. Qed.

Lemma Contains_char (c : ascii) (s : string) :
  strings.Contains s (String c EmptyString) = has_char c s.
Proof.
  induction s as [|x s IH]; [reflexivity|].
  cbn [strings.Contains has_char]. rewrite IH. f_equal.
  unfold strings.HasPrefix. cbn [String.prefix].
  destruct (ascii_dec c x) as [->|Hne].
  - rewrite Ascii.eqb_refl. apply prefix_empty.
  - symmetry. apply Ascii.eqb_neq. congruence.
Qed.

Lemma has_char_app (c : ascii) (s1 s2 : string) :
  has_char c (s1 ++ s2) = has_char c s1 || has_char c s2.
Proof.
  induction s1 as [|x s1 IH]; [reflexivity|].
  cbn [String.append has_char]. rewrite IH. apply orb_assoc.
Qed.

Lemma cutByte_app (c : ascii) (s m : string) :
  has_char c s = false -> cutByte c (s ++ String c m) = Some (s, m).
Proof.
  induction s as [|x s IH]; cbn [String.append cutByte has_char].
  - intros _. rewrite Ascii.eqb_refl. reflexivity.
  - intros H. apply orb_false_iff in H as [Hx Hs]. rewrite Hx, (IH Hs). reflexivity.
Qed.

Lemma ParseAddr_scan_app (s ds rest : string) :
  has_char "." ds = false -> has_char ":" ds = false -> has_char "%" ds = false ->
  ParseAddr_scan s (ds ++ rest) = ParseAddr_scan s rest.
Proof.
  induction ds as [|x ds IH]; [reflexivity|].
  cbn [String.append ParseAddr_scan has_char]. intros H1 H2 H3.
  apply orb_false_iff in H1 as [-> H1]. apply orb_false_iff in H2 as [-> H2].
  apply orb_false_iff in H3 as [-> H3]. auto.
Qed.

Lemma parseIPv4_loop_digits (ds : string) :
  forall (rest : string) (prev : option ascii) (val digLen : Z) (fields : list Z),
    forallb is_digit (list_ascii_of_string ds) = true ->
    parseIPv4_loop (ds ++ rest) prev val digLen fields
    = match run_digits ds prev val digLen with
      | Some (prev', val', digLen') => parseIPv4_loop rest prev' val' digLen' fields
      | None => None
      end.
Proof.
  induction ds as [|c ds IH]; intros rest prev val digLen fields Hd; [reflexivity|].
  cbn [list_ascii_of_string forallb] in Hd. apply andb_prop in Hd as [Hc Hd].
  cbn [String.append parseIPv4_loop run_digits]. rewrite Hc.
  destruct ((digLen =? 1) && (val =? 0)); [reflexivity|].
  destruct (255 <? val * 10 + byte_of_ascii c - 48); [reflexivity|].
  apply IH. assumption.
Qed.

(** *** The decimal text of a byte *)

Lemma octet_text_all : forallb octet_text_ok (count_up 0 256) = true.
Proof. vm_compute. reflexivity. Qed.

Lemma octet_text (b : Z) : is_byte b -> octet_text_ok b = true.
Proof.
  intros Hb. pose proof octet_text_all as H. rewrite forallb_forall in H.
  apply H. apply count_up_In. unfold is_byte in Hb. lia.
Qed.

Lemma octet_text_facts (b : Z) : is_byte b -> octet_text_spec b.
Proof.
  intros Hb. pose proof (octet_text b Hb) as H. unfold octet_text_ok in H.
  apply andb_prop in H as [H Hdtoi]. apply andb_prop in H as [H Hrun].
  apply andb_prop in H as [H Hlast]. apply andb_prop in H as [H Hfirst].
  apply andb_prop in H as [Hdig Hplain].
  split; try assumption.
  - destruct (itoa b) as [|c s]; [discriminate|]. exists c, s. split; [reflexivity|assumption].
  - destruct (string_rev (itoa b)) as [|c s]; [discriminate|].
    exists c, s. split; [reflexivity|assumption].
  - destruct (run_digits (itoa b) None 0 0) as [[[[c|] v] k]|]; try discriminate.
    apply andb_prop in Hrun as [Hv Hc]. apply Z.eqb_eq in Hv. subst v.
    apply negb_true_iff in Hc. exists c, k. split; [reflexivity|assumption].
  - destruct (dtoi (itoa b)) as [[m i] ok].
    apply andb_prop in Hdtoi as [H Hok]. apply andb_prop in H as [Hm Hi].
    apply Z.eqb_eq in Hm, Hi. subst. reflexivity.
Qed.

Lemma itoa_plain (b : Z) : is_byte b -> plain (itoa b) = true.
Proof. intros Hb. apply (ot_plain b (octet_text_facts b Hb)). Qed.

Lemma plain_chars (s : string) :
  plain s = true ->
  has_char "." s = false /\ has_char ":" s = false /\ has_char "%" s = false
  /\ has_char "/" s = false /\ has_char "-" s = false.
Proof.
  unfold plain. intros H. repeat (apply andb_prop in H as [H ?]).
  repeat split; apply negb_true_iff; assumption.
Qed.

Lemma itoa_nonempty (b : Z) (rest : string) :
  is_byte b -> (String.length (itoa b ++ rest) =? 0)%nat = false.
Proof.
  intros Hb. destruct (ot_first b (octet_text_facts b Hb)) as (c & s & -> & _).
  reflexivity.
Qed.

(** Reading the decimal text of a byte, from a fresh field. *)
Lemma parse_octet (b : Z) (rest : string) (prev : option ascii) (fields : list Z) :
  is_byte b ->
  exists (c : ascii) (k : Z),
    Ascii.eqb c "." = false
    /\ parseIPv4_loop (itoa b ++ rest) prev 0 0 fields
       = parseIPv4_loop rest (Some c) b k fields.
Proof.
  intros Hb. pose proof (octet_text_facts b Hb) as F.
  rewrite parseIPv4_loop_digits by apply (ot_digits b F).
  assert (Hp : run_digits (itoa b) prev 0 0 = run_digits (itoa b) None 0 0).
  { destruct (ot_first b F) as (c & s & -> & _). reflexivity. }
  rewrite Hp. destruct (ot_run b F) as (c & k & -> & Hc).
  exists c, k. split; [assumption|reflexivity].
Qed.

(** *** Dotted text *)

Lemma IP_String_v4 (a b c d : Z) : IP_String [a; b; c; d] = dotted a b c d.
Proof. reflexivity. Qed.

Lemma IP_String_IPv4 (a b c d : Z) : IP_String (IPv4 a b c d) = dotted a b c d.
Proof. reflexivity. Qed.

Lemma dot_step (rest : string) (c : ascii) (val digLen : Z) (fields : list Z) :
  Ascii.eqb c "." = false -> (String.length rest =? 0)%nat = false ->
  (List.length fields <? 3)%nat = true ->
  parseIPv4_loop (String "." rest) (Some c) val digLen fields
  = parseIPv4_loop rest (Some "."%char) 0 0 (fields ++ [val mod 256]).
Proof.
  intros Hc Hr Hf. cbn [parseIPv4_loop].
  change (is_digit ".") with false. cbv iota.
  change (Ascii.eqb "." ".") with true. cbv iota.
  rewrite Hc, Hr. cbn [orb].
  replace (List.length fields =? 3)%nat with false; [reflexivity|].
  symmetry. apply Nat.eqb_neq. apply Nat.ltb_lt in Hf. lia.
Qed.

Lemma parseIPv4Fields_dotted (a b c d : Z) :
  is_byte a -> is_byte b -> is_byte c -> is_byte d ->
  parseIPv4Fields (dotted a b c d) = Some [a; b; c; d].
Proof.
  intros Ha Hb Hc Hd. unfold parseIPv4Fields, dotted.
  destruct (parse_octet a ("." ++ itoa b ++ "." ++ itoa c ++ "." ++ itoa d) None [] Ha)
    as (c1 & k1 & Hc1 & ->).
  change ("." ++ ?s)%string with (String "." s).
  rewrite dot_step; [|assumption|apply itoa_nonempty; assumption|reflexivity].
  destruct (parse_octet b ("." ++ itoa c ++ "." ++ itoa d) (Some "."%char)
                        ([] ++ [a mod 256]) Hb) as (c2 & k2 & Hc2 & ->).
  change ("." ++ ?s)%string with (String "." s).
  rewrite dot_step; [|assumption|apply itoa_nonempty; assumption|reflexivity].
  destruct (parse_octet c ("." ++ itoa d) (Some "."%char)
                        (([] ++ [a mod 256]) ++ [b mod 256]) Hc) as (c3 & k3 & Hc3 & ->).
  change ("." ++ ?s)%string with (String "." s).
  rewrite dot_step; [|assumption| |reflexivity].
  2:{ rewrite <- (itoa_nonempty d EmptyString Hd). f_equal. f_equal.
      symmetry. apply append_empty. }
  pose proof (parse_octet d EmptyString (Some "."%char)
                (((([] ++ [a mod 256]) ++ [b mod 256])) ++ [c mod 256]) Hd)
    as (c4 & k4 & Hc4 & H4).
  rewrite append_empty in H4. rewrite H4.
  cbn [parseIPv4_loop app List.length Nat.ltb Nat.leb].
  unfold is_byte in *. rewrite !Z.mod_small by lia. reflexivity.
Qed.

Lemma ParseAddr_dotted (a b c d : Z) :
  is_byte a -> is_byte b -> is_byte c -> is_byte d ->
  ParseAddr (dotted a b c d) = Some (Addr4 [a; b; c; d]).
Proof.
  intros Ha Hb Hc Hd. unfold ParseAddr.
  destruct (plain_chars _ (itoa_plain a Ha)) as (H1 & H2 & H3 & _).
  unfold dotted at 2. rewrite ParseAddr_scan_app by assumption.
  change ("." ++ ?s)%string with (String "." s).
  cbn [ParseAddr_scan]. change (Ascii.eqb "." ".") with true. cbv iota.
  unfold parseIPv4. rewrite parseIPv4Fields_dotted by assumption. reflexivity.
Qed.

Lemma ParseIP_dotted (a b c d : Z) :
  is_byte a -> is_byte b -> is_byte c -> is_byte d ->
  ParseIP (dotted a b c d) = Some (IPv4 a b c d).
Proof.
  intros Ha Hb Hc Hd. unfold ParseIP. rewrite ParseAddr_dotted by assumption.
  reflexivity.
Qed.

(** Of the bytes that matter to the parsers a dotted text has the dot only. *)
Lemma dotted_chars (c : ascii) (a b c' d : Z) :
  is_byte a -> is_byte b -> is_byte c' -> is_byte d ->
  c = "/"%char \/ c = "-"%char \/ c = ":"%char \/ c = "%"%char ->
  has_char c (dotted a b c' d) = false.
Proof.
  intros Ha Hb Hc Hd Hch. unfold dotted.
  destruct (plain_chars _ (itoa_plain a Ha)) as (_ & A1 & A2 & A3 & A4).
  destruct (plain_chars _ (itoa_plain b Hb)) as (_ & B1 & B2 & B3 & B4).
  destruct (plain_chars _ (itoa_plain c' Hc)) as (_ & C1 & C2 & C3 & C4).
  destruct (plain_chars _ (itoa_plain d Hd)) as (_ & D1 & D2 & D3 & D4).
  change ("." ++ ?s)%string with (String "." s).
  destruct Hch as [-> | [-> | [-> | ->]]];
    repeat (rewrite has_char_app || cbn [has_char]);
    rewrite ?A1, ?A2, ?A3, ?A4, ?B1, ?B2, ?B3, ?B4, ?C1, ?C2, ?C3, ?C4,
            ?D1, ?D2, ?D3, ?D4; reflexivity.
Qed.

(** *** Prefix lengths *)

Lemma prefix_text_all : forallb prefix_text_ok (count_up 0 33) = true.
Proof. vm_compute. reflexivity. Qed.

Lemma prefix_text (n : Z) : 0 <= n <= 32 -> prefix_text_ok n = true.
Proof.
  intros Hn. pose proof prefix_text_all as H. rewrite forallb_forall in H.
  apply H. apply count_up_In. lia.
Qed.

Lemma simpleMaskLength_CIDRMask (n : Z) :
  0 <= n <= 32 -> simpleMaskLength (CIDRMask n 32) = n.
Proof.
  intros Hn. pose proof (prefix_text n Hn) as H. unfold prefix_text_ok in H.
  apply andb_prop in H as [H _]. apply andb_prop in H as [_ H].
  apply Z.eqb_eq. assumption.
Qed.

Lemma CIDRMask_length (n : Z) : 0 <= n <= 32 -> List.length (CIDRMask n 32) = 4%nat.
Proof.
  intros Hn. pose proof (prefix_text n Hn) as H. unfold prefix_text_ok in H.
  apply andb_prop in H as [_ H]. apply Nat.eqb_eq. assumption.
Qed.

Lemma ParseCIDR_text (a b c d n : Z) :
  is_byte a -> is_byte b -> is_byte c -> is_byte d -> 0 <= n <= 32 ->
  ParseCIDR (dotted a b c d ++ "/" ++ itoa n)
  = Some (IPv4 a b c d,
          mkIPNet (Mask (IPv4 a b c d) (CIDRMask n 32)) (CIDRMask n 32)).
Proof.
  intros Ha Hb Hc Hd Hn. unfold ParseCIDR.
  change ("/" ++ ?s)%string with (String "/" s).
  rewrite cutByte_app by (apply dotted_chars; auto).
  rewrite ParseAddr_dotted by assumption.
  cbn [Zone String.length Nat.eqb negb BitLen As16].
  pose proof (prefix_text n Hn) as H. unfold prefix_text_ok in H.
  apply andb_prop in H as [H _]. apply andb_prop in H as [H _].
  apply andb_prop in H as [_ H].
  destruct (dtoi (itoa n)) as [[m i] ok].
  apply andb_prop in H as [H Hok]. apply andb_prop in H as [Hm Hi].
  apply Z.eqb_eq in Hm. subst m. rewrite Hi, Hok. cbn [negb orb].
  replace (n <? 0) with false by (symmetry; apply Z.ltb_ge; lia).
  replace (32 <? n) with false by (symmetry; apply Z.ltb_ge; lia).
  reflexivity.
Qed.

(** *** Splitting at a byte *)

Lemma HasPrefix_char (c x : ascii) (s : string) :
  strings.HasPrefix (String x s) (String c EmptyString) = Ascii.eqb x c.
Proof.
  unfold strings.HasPrefix. cbn [String.prefix].
  destruct (ascii_dec c x) as [->|Hne].
  - rewrite Ascii.eqb_refl. apply prefix_empty.
  - symmetry. apply Ascii.eqb_neq. congruence.
Qed.

Lemma Split_from_none (c : ascii) (s : string) :
  has_char c s = false ->
  strings.Split_from (String c EmptyString) 0 s = (s, []).
Proof.
  induction s as [|x s IH]; [reflexivity|].
  cbn [has_char]. intros H. apply orb_false_iff in H as [Hx Hs].
  cbn [strings.Split_from]. rewrite HasPrefix_char, Hx, (IH Hs). reflexivity.
Qed.

Lemma Split_from_app (c : ascii) (l r : string) :
  has_char c l = false ->
  strings.Split_from (String c EmptyString) 0 (l ++ String c r)
  = (l, let (f, fs) := strings.Split_from (String c EmptyString) 0 r in f :: fs).
Proof.
  induction l as [|x l IH]; cbn [has_char String.append].
  - intros _. cbn [strings.Split_from]. rewrite HasPrefix_char, Ascii.eqb_refl.
    reflexivity.
  - intros H. apply orb_false_iff in H as [Hx Hl].
    cbn [strings.Split_from]. rewrite HasPrefix_char, Hx, (IH Hl). reflexivity.
Qed.

Lemma Split_two (c : ascii) (l r : string) :
  has_char c l = false -> has_char c r = false ->
  strings.Split (l ++ String c r) (String c EmptyString) = [l; r].
Proof.
  intros Hl Hr. unfold strings.Split.
  rewrite Split_from_app by assumption. rewrite Split_from_none by assumption.
  reflexivity.
Qed.

(** *** Reversal *)

Lemma append_assoc (s t u : string) : ((s ++ t) ++ u = s ++ (t ++ u))%string.
Proof. induction s as [|c s IH]; [reflexivity|]. cbn. rewrite IH. reflexivity. Qed.

Lemma string_rev_onto_app (s acc : string) :
  string_rev_onto s acc = (string_rev s ++ acc)%string.
Proof.
  unfold string_rev. revert acc.
  induction s as [|c s IH]; intros acc; [reflexivity|].
  cbn [string_rev_onto]. rewrite IH, (IH (String c EmptyString)).
  rewrite append_assoc. reflexivity.
Qed.

Lemma string_rev_cons (c : ascii) (s : string) :
  string_rev (String c s) = (string_rev s ++ String c EmptyString)%string.
Proof. unfold string_rev at 1. cbn [string_rev_onto]. apply string_rev_onto_app. Qed.

Lemma string_rev_app (s t : string) :
  string_rev (s ++ t) = (string_rev t ++ string_rev s)%string.
Proof.
  induction s as [|c s IH].
  - cbn [String.append]. change (string_rev EmptyString) with EmptyString.
    rewrite append_empty. reflexivity.
  - cbn [String.append]. rewrite !string_rev_cons, IH.
    rewrite append_assoc. reflexivity.
Qed.

Lemma string_rev_involutive (s : string) : string_rev (string_rev s) = s.
Proof.
  induction s as [|c s IH]; [reflexivity|].
  rewrite string_rev_cons, string_rev_app, IH. reflexivity.
Qed.

Lemma blank_rev (s : string) : blank s = true -> blank (string_rev s) = true.
Proof.
  unfold blank. induction s as [|c s IH]; [reflexivity|].
  cbn [list_ascii_of_string forallb]. intros H. apply andb_prop in H as [Hc Hs].
  rewrite string_rev_cons.
  assert (Happ : forall a b, forallb strings.asciiSpace (list_ascii_of_string (a ++ b))
                             = forallb strings.asciiSpace (list_ascii_of_string a)
                               && forallb strings.asciiSpace (list_ascii_of_string b)).
  { intros a b. induction a as [|x a IHa]; [reflexivity|].
    cbn [String.append list_ascii_of_string forallb]. rewrite IHa. apply andb_assoc. }
  rewrite Happ, (IH Hs). cbn. rewrite Hc. reflexivity.
Qed.

(** *** White space around a text that starts and ends with a digit *)

Lemma digit_cases (c : ascii) :
  is_digit c = true ->
  In c ["0"; "1"; "2"; "3"; "4"; "5"; "6"; "7"; "8"; "9"]%char.
Proof.
  destruct c as [[] [] [] [] [] [] [] []]; vm_compute; intros H;
    try discriminate; tauto.
Qed.

Lemma spaceWidth_digit (encs : list (list Z)) (f : list Z -> string) (c : ascii) (s : string) :
  is_digit c = true ->
  forallb (fun e => match f e with
                    | String x _ => (127 <? byte_of_ascii x)
                    | EmptyString => false
                    end) encs = true ->
  strings.spaceWidth (map f encs) (String c s) = O.
Proof.
  intros Hc He. unfold strings.spaceWidth.
  assert (Hs : strings.asciiSpace c = false).
  { apply digit_cases in Hc. cbn [In] in Hc.
    repeat (destruct Hc as [<-|Hc]; [reflexivity|]). contradiction. }
  rewrite Hs.
  assert (Hf : find (strings.HasPrefix (String c s)) (map f encs) = None).
  { induction encs as [|e encs IH]; [reflexivity|].
    cbn [forallb] in He. apply andb_prop in He as [He1 He2].
    cbn [map find]. destruct (f e) as [|x t]; [discriminate|].
    unfold strings.HasPrefix at 1. cbn [String.prefix].
    destruct (ascii_dec x c) as [->|Hne].
    - apply digit_cases in Hc. cbn [In] in Hc.
      repeat (destruct Hc as [<-|Hc]; [discriminate|]). contradiction.
    - apply IH. assumption. }
  rewrite Hf. reflexivity.
Qed.

Lemma trimLeading_blank (encs : list string) (ws s : string) :
  blank ws = true ->
  strings.trimLeading encs 0 (ws ++ s) = strings.trimLeading encs 0 s.
Proof.
  unfold blank. induction ws as [|c ws IH]; [reflexivity|].
  cbn [list_ascii_of_string forallb]. intros H. apply andb_prop in H as [Hc Hs].
  cbn [String.append strings.trimLeading strings.spaceWidth]. rewrite Hc.
  apply IH. assumption.
Qed.

Lemma trimLeading_stop (encs : list string) (c : ascii) (s : string) :
  strings.spaceWidth encs (String c s) = O ->
  strings.trimLeading encs 0 (String c s) = String c s.
Proof. intros H. cbn [strings.trimLeading]. rewrite H. reflexivity. Qed.

(** [TrimSpace] takes the ASCII white space off a text that starts and ends
    with a digit, and nothing else. *)
Lemma TrimSpace_padded (ws1 ws2 t : string) :
  blank ws1 = true -> blank ws2 = true ->
  (exists c s, t = String c s /\ is_digit c = true) ->
  (exists c s, string_rev t = String c s /\ is_digit c = true) ->
  strings.TrimSpace (ws1 ++ t ++ ws2) = t.
Proof.
  intros H1 H2 (c & s & Ht & Hc) (c' & s' & Hr & Hc').
  unfold strings.TrimSpace, strings.TrimLeftSpace, strings.TrimRightSpace.
  rewrite trimLeading_blank by assumption.
  rewrite Ht at 1. cbn [String.append].
  rewrite trimLeading_stop.
  2:{ apply (spaceWidth_digit strings.unicodeSpace strings.encoded); [assumption|].
      vm_compute. reflexivity. }
  change (String c (s ++ ws2))%string with (String c s ++ ws2)%string.
  rewrite <- Ht. rewrite string_rev_app.
  rewrite trimLeading_blank by (apply blank_rev; assumption).
  rewrite Hr. rewrite trimLeading_stop.
  2:{ apply (spaceWidth_digit strings.unicodeSpace
               (fun e => string_rev (strings.encoded e))); [assumption|].
      vm_compute. reflexivity. }
  rewrite <- Hr. apply string_rev_involutive.
Qed.

Lemma dotted_first (a b c d : Z) :
  is_byte a -> exists x s, dotted a b c d = String x s /\ is_digit x = true.
Proof.
  intros Ha. destruct (ot_first a (octet_text_facts a Ha)) as (x & s & E & Hx).
  unfold dotted. rewrite E. cbn [String.append]. eauto.
Qed.

Lemma dotted_last (a b c d : Z) :
  is_byte d -> exists x s, string_rev (dotted a b c d) = String x s /\ is_digit x = true.
Proof.
  intros Hd. destruct (ot_last d (octet_text_facts d Hd)) as (x & s & E & Hx).
  unfold dotted. rewrite !string_rev_app. rewrite E. cbn [String.append]. eauto.
Qed.

Lemma TrimSpace_dotted (ws1 ws2 : string) (a b c d : Z) :
  blank ws1 = true -> blank ws2 = true -> is_byte a -> is_byte d ->
  strings.TrimSpace (ws1 ++ dotted a b c d ++ ws2) = dotted a b c d.
Proof.
  intros. apply TrimSpace_padded; auto using dotted_first, dotted_last.
Qed.

Lemma blank_chars (c : ascii) (ws : string) :
  blank ws = true -> strings.asciiSpace c = false -> has_char c ws = false.
Proof.
  unfold blank. induction ws as [|x ws IH]; [reflexivity|].
  cbn [list_ascii_of_string forallb has_char]. intros H Hc.
  apply andb_prop in H as [Hx Hs]. rewrite (IH Hs Hc), orb_false_r.
  apply Ascii.eqb_neq. intros ->. congruence.
Qed.

Lemma ParseAddr_scan_none (s t : string) :
  has_char "." t = false -> has_char ":" t = false -> ParseAddr_scan s t = None.
Proof.
  induction t as [|x t IH]; [reflexivity|].
  cbn [has_char ParseAddr_scan]. intros H1 H2.
  apply orb_false_iff in H1 as [-> H1]. apply orb_false_iff in H2 as [-> H2].
  destruct (Ascii.eqb x "%"); [reflexivity|auto].
Qed.

End TextFacts.

(** * Which texts the address parser takes: IPv4 *)

Module IPv4Text.
Import net network NetworkFacts CIDRFacts TextFacts.

(** *** Decimal digits *)

Lemma digit_char (c : ascii) :
  is_digit c = true ->
  0 <= byte_of_ascii c - 48 <= 9 /\ c = ascii_of_byte (48 + (byte_of_ascii c - 48)).
Proof.
  intros H. apply digit_cases in H. cbn [In] in H.
  repeat (destruct H as [<-|H]; [vm_compute; split; [split; discriminate|reflexivity]|]).
  contradiction.
Qed.

Lemma itoa_step_all : forallb itoa_step_ok (count_up 1 (Z.to_nat 255)) = true.
Proof. vm_compute. reflexivity. Qed.

Lemma itoa_step (v d : Z) :
  1 <= v -> 0 <= d <= 9 -> v * 10 + d <= 255 ->
  itoa (v * 10 + d) = (itoa v ++ String (ascii_of_byte (48 + d)) EmptyString)%string.
Proof.
  intros Hv Hd Hb. pose proof itoa_step_all as A. rewrite forallb_forall in A.
  assert (Hin : In v (count_up 1 (Z.to_nat 255))) by (apply count_up_In; lia).
  specialize (A v Hin). unfold itoa_step_ok in A. rewrite forallb_forall in A.
  assert (Hd' : In d (count_up 0 10)) by (apply count_up_In; lia).
  specialize (A d Hd'). apply orb_prop in A as [A|A].
  - apply Z.ltb_lt in A. lia.
  - apply String.eqb_eq. exact A.
Qed.

Lemma itoa_digit (d : Z) :
  0 <= d <= 9 -> itoa d = String (ascii_of_byte (48 + d)) EmptyString.
Proof.
  intros Hd. assert (H : In d (count_up 0 10)) by (apply count_up_In; lia).
  cbn [count_up In] in H.
  repeat (destruct H as [<-|H]; [reflexivity|]). contradiction.
Qed.

(** *** The parser accepts the canonical texts only *)

Lemma dots_snoc (fields : list Z) (v : Z) :
  dots (fields ++ [v]) = (dots fields ++ itoa v ++ ".")%string.
Proof.
  induction fields as [|x fields IH]; cbn [dots app].
  - rewrite append_empty. reflexivity.
  - rewrite IH, !append_assoc. reflexivity.
Qed.

Lemma join_snoc (fields : list Z) (v : Z) :
  join "." (map itoa (fields ++ [v])) = (dots fields ++ itoa v)%string.
Proof.
  induction fields as [|x fields IH]; [reflexivity|].
  cbn [app map dots]. rewrite !append_assoc. rewrite <- IH.
  cbn [join]. destruct (map itoa (fields ++ [v])) eqn:E; [|reflexivity].
  destruct fields; discriminate.
Qed.

(** The text read so far of the field the parser is in. *)
Definition cur_ok (prev : option ascii) (val digLen : Z) (cur : string) : Prop :=
  (digLen = 0 /\ val = 0 /\ cur = EmptyString
   /\ (prev = None \/ prev = Some "."%char))
  \/ (1 <= digLen /\ 0 <= val <= 255 /\ cur = itoa val /\ (val = 0 -> digLen = 1)
      /\ exists c, prev = Some c /\ Ascii.eqb c "." = false).

Lemma parseIPv4_loop_text (s : string) :
  forall (prev : option ascii) (val digLen : Z) (fields f : list Z) (cur : string),
    cur_ok prev val digLen cur ->
    (digLen = 0 -> s <> EmptyString) ->
    parseIPv4_loop s prev val digLen fields = Some f ->
    (dots fields ++ cur ++ s)%string = join "." (map itoa f).
Proof.
  induction s as [|c s IH]; intros prev val digLen fields f cur Hc Hne.
  - cbn [parseIPv4_loop]. destruct (List.length fields <? 3)%nat; [discriminate|].
    intros H. injection H as <-.
    destruct Hc as [(Hd & _)|(Hd & Hv & -> & _)]; [exfalso; apply (Hne Hd); reflexivity|].
    rewrite Z.mod_small by lia. rewrite join_snoc, append_empty. reflexivity.
  - cbn [parseIPv4_loop]. destruct (is_digit c) eqn:Ed.
    + destruct (digit_char c Ed) as [Hr Hch].
      destruct ((digLen =? 1) && (val =? 0)) eqn:Ez; [discriminate|].
      destruct (255 <? val * 10 + byte_of_ascii c - 48) eqn:Eb; [discriminate|].
      apply Z.ltb_ge in Eb. intros H.
      assert (Hc' : cur_ok (Some c) (val * 10 + byte_of_ascii c - 48) (digLen + 1)
                           (cur ++ String c EmptyString)).
      { right. destruct Hc as [(Hd & Hv & -> & _)|(Hd & Hv & -> & Hz & _)].
        - subst. split; [lia|]. split; [lia|]. split.
          + replace (0 * 10 + byte_of_ascii c - 48) with (byte_of_ascii c - 48) by lia.
            rewrite itoa_digit by lia. rewrite <- Hch. reflexivity.
          + split; [lia|]. exists c. split; [reflexivity|].
            apply digit_cases in Ed. cbn [In] in Ed.
            repeat (destruct Ed as [<-|Ed]; [reflexivity|]). contradiction.
        - assert (Hv0 : val <> 0).
          { intros E. specialize (Hz E). subst.
            rewrite Z.eqb_refl in Ez. discriminate. }
          split; [lia|]. split; [lia|]. split.
          + replace (val * 10 + byte_of_ascii c - 48)
              with (val * 10 + (byte_of_ascii c - 48)) by lia.
            rewrite itoa_step by lia. rewrite <- Hch. reflexivity.
          + split; [lia|]. exists c. split; [reflexivity|].
            apply digit_cases in Ed. cbn [In] in Ed.
            repeat (destruct Ed as [<-|Ed]; [reflexivity|]). contradiction. }
      rewrite <- (IH _ _ _ _ _ _ Hc' ltac:(destruct Hc as [(? & _)|(? & _)]; lia) H).
      rewrite !append_assoc. reflexivity.
    + destruct (Ascii.eqb c ".") eqn:Edot; [|discriminate].
      apply Ascii.eqb_eq in Edot. subst c.
      destruct Hc as [(Hd & Hv & -> & Hp)|(Hd & Hv & -> & Hz & (p & -> & Hp))].
      * destruct Hp as [-> | ->]; discriminate.
      * rewrite Hp. cbn [orb].
        destruct (String.length s =? 0)%nat eqn:El; [discriminate|].
        destruct (List.length fields =? 3)%nat; [discriminate|].
        intros H.
        assert (Hc' : cur_ok (Some "."%char) 0 0 EmptyString).
        { left. auto. }
        assert (Hs : s <> EmptyString) by (intros ->; discriminate).
        rewrite <- (IH _ _ _ _ _ _ Hc' (fun _ => Hs) H).
        rewrite Z.mod_small by lia. rewrite dots_snoc, !append_assoc. reflexivity.
Qed.

Lemma parseIPv4Fields_text (s : string) (f : list Z) :
  parseIPv4Fields s = Some f ->
  exists a b c d : Z,
    is_byte a /\ is_byte b /\ is_byte c /\ is_byte d
    /\ f = [a; b; c; d] /\ s = dotted a b c d.
Proof.
  intros H. destruct (parseIPv4Fields_bytes s f H) as (a & b & c & d & -> & Ha & Hb & Hc & Hd).
  exists a, b, c, d. repeat (split; [assumption|]). split; [reflexivity|].
  unfold parseIPv4Fields in H.
  assert (Hs : s <> EmptyString) by (intros ->; discriminate).
  pose proof (parseIPv4_loop_text s None 0 0 [] _ EmptyString
                ltac:(left; auto) (fun _ => Hs) H) as E.
  cbn [dots String.append] in E. rewrite E. reflexivity.
Qed.

(** *** Dot-decimal texts without leading zeros *)

Lemma strict_octet_all : forallb strict_octet_ok (count_up 0 256) = true.
Proof. vm_compute. reflexivity. Qed.

Lemma strict_octet_itoa (b : Z) : is_byte b -> strict_octet (itoa b) = true.
Proof.
  intros Hb. pose proof strict_octet_all as A. rewrite forallb_forall in A.
  assert (Hin : In b (count_up 0 256)) by (apply count_up_In; unfold is_byte in Hb; lia).
  specialize (A b Hin). unfold strict_octet_ok in A. apply andb_prop in A as [A _].
  exact A.
Qed.

Ltac digit_split c H :=
  let D := fresh in
  assert (D := digit_cases c H); cbn [In] in D;
  repeat (destruct D as [<-|D]; [|]); [..|contradiction].

Ltac octet_case Hv Hz :=
  vm_compute in Hv; vm_compute in Hz; try discriminate;
  match goal with
  | |- exists b, _ /\ ?t = _ =>
      let v := eval vm_compute in
                 (fold_left (fun n c => n * 10 + digit_val c) (list_ascii_of_string t) 0) in
      exists v; split; [unfold is_byte; lia|vm_compute; reflexivity]
  end.

Lemma strict_octet_text (t : string) :
  strict_octet t = true -> exists b : Z, is_byte b /\ t = itoa b.
Proof.
  unfold strict_octet, decimal_octet. intros H.
  apply andb_prop in H as [H Hz]. apply andb_prop in H as [H Hv].
  apply andb_prop in H as [H Hd]. apply andb_prop in H as [Hl1 Hl3].
  destruct t as [|c1 [|c2 [|c3 [|c4 t]]]]; try discriminate.
  - cbn [list_ascii_of_string forallb] in Hd. apply andb_prop in Hd as [D1 _].
    exists (byte_of_ascii c1 - 48). destruct (digit_char c1 D1) as [Hr Hc].
    split; [unfold is_byte; lia|]. rewrite itoa_digit by lia. rewrite <- Hc. reflexivity.
  - cbn [list_ascii_of_string forallb] in Hd.
    apply andb_prop in Hd as [D1 Hd]. apply andb_prop in Hd as [D2 _].
    digit_split c1 D1; digit_split c2 D2; octet_case Hv Hz.
  - cbn [list_ascii_of_string forallb] in Hd.
    apply andb_prop in Hd as [D1 Hd]. apply andb_prop in Hd as [D2 Hd].
    apply andb_prop in Hd as [D3 _].
    digit_split c1 D1; digit_split c2 D2; digit_split c3 D3; octet_case Hv Hz.
Qed.

Lemma Split_from_join (c : ascii) (s : string) :
  (let (f, fs) := strings.Split_from (String c EmptyString) 0 s in
   join (String c EmptyString) (f :: fs)) = s.
Proof.
  induction s as [|x s IH]; [reflexivity|].
  cbn [strings.Split_from]. rewrite HasPrefix_char. cbn [String.length Nat.sub].
  destruct (strings.Split_from (String c EmptyString) 0 s) as [f fs].
  destruct (Ascii.eqb x c) eqn:E.
  - apply Ascii.eqb_eq in E. subst x.
    change (join (String c EmptyString) (EmptyString :: f :: fs))
      with (String c (join (String c EmptyString) (f :: fs))).
    rewrite IH. reflexivity.
  - destruct fs as [|g fs].
    + cbn [join] in *. rewrite IH. reflexivity.
    + change (join (String c EmptyString) (String x f :: g :: fs))
        with (String x (f ++ String c EmptyString ++ join (String c EmptyString) (g :: fs))).
      change (join (String c EmptyString) (f :: g :: fs))
        with (f ++ String c EmptyString ++ join (String c EmptyString) (g :: fs))%string in IH.
      rewrite IH. reflexivity.
Qed.

Lemma Split_join (c : ascii) (s : string) :
  join (String c EmptyString) (strings.Split s (String c EmptyString)) = s.
Proof.
  unfold strings.Split. pose proof (Split_from_join c s) as H.
  destruct (strings.Split_from (String c EmptyString) 0 s) as [f fs]. exact H.
Qed.

Lemma Split_dotted (a b c d : Z) :
  is_byte a -> is_byte b -> is_byte c -> is_byte d ->
  strings.Split (dotted a b c d) "." = [itoa a; itoa b; itoa c; itoa d].
Proof.
  intros Ha Hb Hc Hd.
  destruct (plain_chars _ (itoa_plain a Ha)) as (A & _).
  destruct (plain_chars _ (itoa_plain b Hb)) as (B & _).
  destruct (plain_chars _ (itoa_plain c Hc)) as (C & _).
  destruct (plain_chars _ (itoa_plain d Hd)) as (D & _).
  unfold strings.Split, dotted.
  assert (Hdot : forall t, ("." ++ t)%string = String "." t) by reflexivity.
  rewrite !Hdot.
  rewrite !Split_from_app by assumption.
  rewrite Split_from_none by assumption. reflexivity.
Qed.

(** The dot-decimal texts without leading zeros are the texts [a.b.c.d] of
    four bytes in Go's decimal notation. *)
Lemma strict_dot_decimal_dotted (s : string) :
  strict_dot_decimal s = true
  <-> exists a b c d : Z,
       is_byte a /\ is_byte b /\ is_byte c /\ is_byte d /\ s = dotted a b c d.
Proof.
  split.
  - unfold strict_dot_decimal. intros H.
    pose proof (Split_join "." s) as J.
    destruct (strings.Split s ".") as [|a [|b [|c [|d [|e l]]]]]; try discriminate.
    apply andb_prop in H as [H Hd]. apply andb_prop in H as [H Hc].
    apply andb_prop in H as [Ha Hb].
    destruct (strict_octet_text a Ha) as (a' & Ba & ->).
    destruct (strict_octet_text b Hb) as (b' & Bb & ->).
    destruct (strict_octet_text c Hc) as (c' & Bc & ->).
    destruct (strict_octet_text d Hd) as (d' & Bd & ->).
    exists a', b', c', d'. repeat (split; [assumption|]). rewrite <- J. reflexivity.
  - intros (a & b & c & d & Ha & Hb & Hc & Hd & ->).
    unfold strict_dot_decimal. rewrite Split_dotted by assumption.
    rewrite !strict_octet_itoa by assumption. reflexivity.
Qed.

(** *** What [net.ParseIP] makes of a text without a colon *)

Lemma ParseAddr_scan_no_colon (s rest : string) (a : Addr) :
  has_char ":" rest = false -> ParseAddr_scan s rest = Some a ->
  exists f, a = Addr4 f /\ parseIPv4Fields s = Some f.
Proof.
  induction rest as [|c rest IH]; cbn [ParseAddr_scan has_char]; [discriminate|].
  intros Hc. apply orb_false_iff in Hc as [Hc Hr].
  destruct (Ascii.eqb c ".").
  - unfold parseIPv4. destruct (parseIPv4Fields s) as [f|]; [|discriminate].
    intros H. injection H as <-. exists f. auto.
  - rewrite Hc. destruct (Ascii.eqb c "%"); [discriminate|]. auto.
Qed.

Lemma ParseIP_no_colon (s : string) :
  has_char ":" s = false ->
  (ParseIP s <> None <-> strict_dot_decimal s = true).
Proof.
  intros Hc. rewrite strict_dot_decimal_dotted. split.
  - unfold ParseIP, ParseAddr. intros H.
    destruct (ParseAddr_scan s s) as [a|] eqn:E; [|congruence].
    destruct (ParseAddr_scan_no_colon s s a Hc E) as (f & -> & Hf).
    destruct (parseIPv4Fields_text s f Hf) as (x & y & z & w & Hx & Hy & Hz & Hw & _ & ->).
    exists x, y, z, w. auto.
  - intros (a & b & c & d & Ha & Hb & Hc' & Hd & ->).
    rewrite ParseIP_dotted by assumption. discriminate.
Qed.

End IPv4Text.


(** * Facts about the probe *)

Module ProbeFacts.
Import net scanner.

(** [pingHost], case by case. *)
Lemma pingHost_unsupported (env : Env) (ip : string) (timeout : time.Duration) (w : World) :
  ping_command (GOOS env) ip timeout = None ->
  pingHost ip timeout env w = ((false, Some (ErrUnsupportedOS (GOOS env))), w).
Proof.
  intros H. unfold pingHost, bind, runtime_GOOS. rewrite H. reflexivity.
Qed.

Lemma pingHost_run (env : Env) (ip : string) (timeout : time.Duration) (w : World)
  (cmd : Cmd) :
  ping_command (GOOS env) ip timeout = Some cmd ->
  pingHost ip timeout env w =
  let r := exec env (clock w) cmd in
  ((match run_error (exit r) with None => true | Some _ => false end,
    run_error (exit r)),
   mkWorld (clock w + took r) (trace w ++ [Executed cmd])).
Proof.
  intros H. unfold pingHost, bind, runtime_GOOS. rewrite H.
  unfold cmd_Run, ret. reflexivity.
Qed.

(** The error of a run is nil exactly for exit status 0. *)
Lemma run_error_None (e : Exit) : run_error e = None <-> e = Exited 0.
Proof.
  destruct e as [[|p|p]|d]; cbn; split; intros H; try reflexivity; discriminate.
Qed.

(** The probe part of the record [scanHost] makes. *)
Lemma scanHost_probe_fields (env : Env) (ip : IP) (timeout : time.Duration) (w : World) :
  let p := pingHost (IP_String ip) timeout env w in
  let h := fst (scanHost ip timeout env w) in
  Host_IP h = ip /\ IsAlive h = fst (fst p) /\ Error h = snd (fst p)
  /\ Latency h = time.Sub (clock (snd p)) (clock w).
Proof.
  unfold scanHost, time_Since, bind, time_Now, ret. cbv beta iota zeta.
  destruct (pingHost (IP_String ip) timeout env w) as [[isAlive err] w1].
  cbv beta iota zeta. destruct isAlive; [|cbn; auto].
  destruct (net_LookupAddr (IP_String ip) env w1) as [[names ok] w2].
  cbv beta iota zeta.
  destruct (getMACAddress (IP_String ip) env w2) as [mac w3].
  destruct (negb (mac =? "")%string); [cbn; auto|].
  destruct (ok && (0 <? List.length names)%nat); cbn; auto.
Qed.

(** A probe that fails ends [scanHost]: nothing else is asked of the world. *)
Lemma scanHost_dead (env : Env) (ip : IP) (timeout : time.Duration) (w : World) :
  let p := pingHost (IP_String ip) timeout env w in
  fst (fst p) = false ->
  scanHost ip timeout env w =
  (mkHost ip "" "" "" (time.Sub (clock (snd p)) (clock w)) false (snd (fst p)), snd p).
Proof.
  unfold scanHost, time_Since, bind, time_Now, ret. cbv beta iota zeta.
  destruct (pingHost (IP_String ip) timeout env w) as [[isAlive err] w1].
  cbn [fst snd]. intros ->. reflexivity.
Qed.

Lemma scanHost_IsAlive (env : Env) (ip : IP) (timeout : time.Duration) (w : World) :
  IsAlive (fst (scanHost ip timeout env w)) =
  match ping_command (GOOS env) (IP_String ip) timeout with
  | Some cmd =>
      match exit (exec env (clock w) cmd) with
      | Exited 0 => true
      | _ => false
      end
  | None => false
  end.
Proof.
  destruct (scanHost_probe_fields env ip timeout w) as (_ & -> & _).
  destruct (ping_command (GOOS env) (IP_String ip) timeout) as [cmd|] eqn:E.
  - rewrite (pingHost_run _ _ _ _ _ E). cbn [fst].
    destruct (exit (exec env (clock w) cmd)) as [[|p|p]|d]; reflexivity.
  - rewrite (pingHost_unsupported _ _ _ _ E). reflexivity.
Qed.

(** In a stable network the clock reading does not change what a probe finds. *)
Lemma stable_IsAlive (env : Env) (ip : IP) (timeout : time.Duration) (w w' : World) :
  stable env ->
  IsAlive (fst (scanHost ip timeout env w)) = IsAlive (fst (scanHost ip timeout env w')).
Proof.
  intros Hs. rewrite !scanHost_IsAlive.
  destruct (ping_command (GOOS env) (IP_String ip) timeout) as [cmd|]; [|reflexivity].
  rewrite (Hs (clock w) (clock w') cmd). reflexivity.
Qed.

Lemma probed_reachable (env : Env) (timeout : time.Duration) (h : Host) :
  stable env -> probed env timeout h ->
  IsAlive h = reachable env timeout (Host_IP h).
Proof.
  intros Hs [t Ht]. unfold reachable. rewrite Ht at 1.
  apply stable_IsAlive. assumption.
Qed.

Lemma count_alive_reachable (env : Env) (timeout : time.Duration) (hs : list Host) :
  stable env -> Forall (probed env timeout) hs ->
  count_alive hs = count_reachable env timeout (map Host_IP hs).
Proof.
  intros Hs H. induction H as [|h hs Hh _ IH]; cbn; [reflexivity|].
  rewrite IH, (probed_reachable _ _ _ Hs Hh). reflexivity.
Qed.

Lemma count_reachable_perm (env : Env) (timeout : time.Duration) (l l' : list IP) :
  Permutation l l' -> count_reachable env timeout l = count_reachable env timeout l'.
Proof.
  induction 1; cbn; lia.
Qed.

End ProbeFacts.

(** * Facts about the vendor table *)

Module VendorFacts.
Import scanner.

Lemma find_none_perm {A : Type} (p : A -> bool) (l l' : list A) :
  Permutation l l' -> find p l = None -> find p l' = None.
Proof.
  intros HP H. destruct (find p l') as [x|] eqn:E; [|reflexivity].
  apply find_some in E as [Hin Hp].
  apply (Permutation_in _ (Permutation_sym HP)) in Hin.
  rewrite (find_none _ _ H _ Hin) in Hp. discriminate.
Qed.

(** When at most one element passes the test, the order of the search does
    not matter. *)
Lemma find_unique_perm {A : Type} (p : A -> bool) (l l' : list A) (x : A) :
  Permutation l l' ->
  (forall y, In y l -> p y = true -> y = x) ->
  find p l = Some x -> find p l' = Some x.
Proof.
  intros HP Hu H. apply find_some in H as [Hin Hp].
  destruct (find p l') as [y|] eqn:E.
  - apply find_some in E as [Hin' Hp']. f_equal. apply Hu; [|assumption].
    apply (Permutation_in _ (Permutation_sym HP)). assumption.
  - apply (Permutation_in _ HP) in Hin.
    rewrite (find_none _ _ E _ Hin) in Hp. discriminate.
Qed.

Lemma vendors_keys_length (k v : string) :
  In (k, v) vendors -> String.length k = 8%nat.
Proof.
  unfold vendors. intros H.
  repeat (destruct H as [H|H]; [injection H as <- <-; reflexivity|]).
  destruct H.
Qed.

Lemma vendors_key_unique (k v v' : string) :
  In (k, v) vendors -> In (k, v') vendors -> v = v'.
Proof.
  unfold vendors. intros H H'.
  repeat (destruct H as [H|H];
          [injection H as <- <-;
           repeat (destruct H' as [H'|H']; [try discriminate H'; try (injection H' as <-; reflexivity)|]);
           destruct H'|]).
  destruct H.
Qed.

(** Two table keys that are both prefixes of [mac] are the same key. *)
Lemma prefix_same_length (k k' mac : string) :
  String.length k = String.length k' ->
  strings.HasPrefix mac k = true -> strings.HasPrefix mac k' = true -> k = k'.
Proof.
  unfold strings.HasPrefix. intros Hl H H'.
  apply prefix_correct in H, H'. rewrite <- H, <- H', Hl. reflexivity.
Qed.

Lemma HasPrefix_length (mac k : string) :
  strings.HasPrefix mac k = true -> (String.length k <= String.length mac)%nat.
Proof.
  unfold strings.HasPrefix. revert mac; induction k as [|c k IH]; intros mac H; cbn.
  - lia.
  - destruct mac as [|c' mac]; cbn in H; [discriminate|].
    destruct (ascii_dec c c'); [|discriminate]. apply IH in H. cbn. lia.
Qed.

(** Whatever the order in which the table is visited: an address that starts
    with a key of the table, written as in the table, gets that key's vendor. *)
Lemma getVendorFromMAC_exact (order : list (string * string)) (mac k v : string) :
  Permutation vendors order -> In (k, v) vendors ->
  strings.HasPrefix mac k = true ->
  getVendorFromMAC_in order mac = v.
Proof.
  intros HP Hin Hpre. unfold getVendorFromMAC_in.
  pose proof (vendors_keys_length _ _ Hin) as Hk.
  pose proof (HasPrefix_length _ _ Hpre) as Hl. rewrite Hk in Hl.
  destruct (Nat.ltb_spec (String.length mac) 8); [lia|].
  assert (Hu : forall y, In y vendors ->
                         strings.HasPrefix mac (fst y) = true -> y = (k, v)).
  { intros [k' v'] Hin' Hp'. cbn [fst] in Hp'.
    assert (k' = k).
    { apply (prefix_same_length _ _ mac); [|assumption|assumption].
      rewrite (vendors_keys_length _ _ Hin'). symmetry. assumption. }
    subst k'. f_equal. eapply vendors_key_unique; eassumption. }
  assert (Hf : find (fun entry => strings.HasPrefix mac (fst entry)) vendors = Some (k, v)).
  { destruct (find (fun entry => strings.HasPrefix mac (fst entry)) vendors) as [y|] eqn:E.
    - apply find_some in E as [Hy Hp]. f_equal. apply Hu; assumption.
    - pose proof (find_none _ _ E _ Hin) as Hn. cbn [fst] in Hn.
      rewrite Hn in Hpre. discriminate. }
  rewrite (find_unique_perm _ _ _ _ HP Hu Hf). reflexivity.
Qed.

(** Whatever the order: an address that starts with no key of the table, as
    the keys are written there, is [Unknown]. *)
Lemma getVendorFromMAC_unknown (order : list (string * string)) (mac : string) :
  Permutation vendors order ->
  find (fun entry => strings.HasPrefix mac (fst entry)) vendors = None ->
  getVendorFromMAC_in order mac = "Unknown"%string.
Proof.
  intros HP H. unfold getVendorFromMAC_in.
  destruct (String.length mac <? 8)%nat; [reflexivity|].
  rewrite (find_none_perm _ _ _ HP H). reflexivity.
Qed.

Lemma getVendorFromMAC_short (order : list (string * string)) (mac : string) :
  (String.length mac < 8)%nat -> getVendorFromMAC_in order mac = "Unknown"%string.
Proof.
  intros H. unfold getVendorFromMAC_in.
  destruct (Nat.ltb_spec (String.length mac) 8); [reflexivity|lia].
Qed.

End VendorFacts.
(** * Facts about the enrichment of a record *)

Module EnrichFacts.
Import net scanner ProbeFacts VendorFacts TextFacts.

(** *** Upper case *)

Lemma upper_ascii_idem (c : ascii) : strings.upper_ascii (strings.upper_ascii c) = strings.upper_ascii c.
Proof. destruct c as [[] [] [] [] [] [] [] []]; vm_compute; reflexivity. Qed.

Lemma ToUpper_idem (s : string) : strings.ToUpper (strings.ToUpper s) = strings.ToUpper s.
Proof.
  induction s as [|c s IH]; [reflexivity|].
  cbn [strings.ToUpper]. rewrite upper_ascii_idem, IH. reflexivity.
Qed.

Lemma upper_ascii_colon (c : ascii) :
  Ascii.eqb (strings.upper_ascii c) ":" = Ascii.eqb c ":".
Proof. destruct c as [[] [] [] [] [] [] [] []]; vm_compute; reflexivity. Qed.

Lemma upper_ascii_hyphen (c : ascii) :
  Ascii.eqb (strings.upper_ascii c) "-" = Ascii.eqb c "-".
Proof. destruct c as [[] [] [] [] [] [] [] []]; vm_compute; reflexivity. Qed.

Lemma Count_ToUpper (c : ascii) (s : string) :
  (forall x, Ascii.eqb (strings.upper_ascii x) c = Ascii.eqb x c) ->
  strings.Count (strings.ToUpper s) (String c EmptyString)
  = strings.Count s (String c EmptyString).
Proof.
  intros Hc. unfold strings.Count.
  induction s as [|x s IH]; [reflexivity|].
  cbn [strings.ToUpper strings.Count_from String.length Nat.sub].
  rewrite !HasPrefix_char, Hc, IH. reflexivity.
Qed.

Lemma ToUpper_empty (s : string) : strings.ToUpper s = EmptyString -> s = EmptyString.
Proof. destruct s; [reflexivity|discriminate]. Qed.

(** *** The scan of the neighbor table *)

Lemma scanARP_found (ip : string) (lines : list string) :
  scanARP ip lines <> EmptyString ->
  exists line field : string,
    In line lines /\ strings.Contains line ip = true
    /\ In field (strings.Fields line)
    /\ (strings.Count field ":" = 5 \/ strings.Count field "-" = 5)
    /\ scanARP ip lines = strings.ToUpper field.
Proof.
  induction lines as [|line lines IH]; cbn [scanARP]; [congruence|].
  destruct (strings.Contains line ip) eqn:Ec.
  - destruct (find _ (strings.Fields line)) as [field|] eqn:Ef.
    + intros _. apply find_some in Ef as [Hin Hp].
      exists line, field. repeat split; auto; try (left; reflexivity).
      apply orb_prop in Hp as [Hp|Hp]; apply Z.eqb_eq in Hp; auto.
    + intros H. destruct (IH H) as (l & f & Hl & rest).
      exists l, f. split; [right; assumption|assumption].
  - intros H. destruct (IH H) as (l & f & Hl & rest).
    exists l, f. split; [right; assumption|assumption].
Qed.

Lemma getMACAddress_cases (env : Env) (ip : string) (w : World) :
  (exists cmd : Cmd,
      (GOOS env = "windows"%string /\ cmd = mkCmd "arp" ["-a"%string; ip]
       \/ (GOOS env = "darwin"%string \/ GOOS env = "linux"%string)
          /\ cmd = mkCmd "arp" ["-n"%string; ip])
      /\ snd (getMACAddress ip env w)
         = mkWorld (clock w + took (exec env (clock w) cmd)) (trace w ++ [Executed cmd])
      /\ fst (getMACAddress ip env w)
         = match exit (exec env (clock w) cmd) with
           | Exited 0 =>
               scanARP ip (strings.Split (stdout (exec env (clock w) cmd)) newline)
           | _ => EmptyString
           end)
  \/ (GOOS env <> "windows"%string /\ GOOS env <> "darwin"%string
      /\ GOOS env <> "linux"%string
      /\ getMACAddress ip env w = (EmptyString, w)).
Proof.
  unfold getMACAddress, bind, runtime_GOOS.
  destruct (String.eqb (GOOS env) "windows") eqn:Ew.
  - left. exists (mkCmd "arp" ["-a"%string; ip]). apply String.eqb_eq in Ew.
    split; [left; auto|]. unfold cmd_Output, ret. cbv beta iota zeta.
    destruct (exit (exec env (clock w) _)) as [[|p|p]|d]; cbn; auto.
  - destruct (String.eqb (GOOS env) "darwin") eqn:Ed; cbn [orb].
    + left. exists (mkCmd "arp" ["-n"%string; ip]). apply String.eqb_eq in Ed.
      split; [right; auto|]. unfold cmd_Output, ret. cbv beta iota zeta.
      destruct (exit (exec env (clock w) _)) as [[|p|p]|d]; cbn; auto.
    + destruct (String.eqb (GOOS env) "linux") eqn:El.
      * left. exists (mkCmd "arp" ["-n"%string; ip]). apply String.eqb_eq in El.
        split; [right; auto|]. unfold cmd_Output, ret. cbv beta iota zeta.
        destruct (exit (exec env (clock w) _)) as [[|p|p]|d]; cbn; auto.
      * right. apply String.eqb_neq in Ew, Ed, El. auto.
Qed.

Lemma getMACAddress_shape (env : Env) (ip : string) (w : World) :
  let mac := fst (getMACAddress ip env w) in
  mac <> EmptyString ->
  (strings.Count mac ":" = 5 \/ strings.Count mac "-" = 5)
  /\ strings.ToUpper mac = mac.
Proof.
  intros mac Hm. subst mac.
  destruct (getMACAddress_cases env ip w) as [(cmd & _ & _ & E)|(_ & _ & _ & E)].
  2:{ rewrite E in Hm. cbn in Hm. congruence. }
  rewrite E in *.
  destruct (exit (exec env (clock w) cmd)) as [[|p|p]|d]; try congruence.
  destruct (scanARP_found _ _ Hm) as (line & field & _ & _ & _ & Hc & ->).
  split; [|apply ToUpper_idem].
  rewrite (Count_ToUpper ":" field upper_ascii_colon).
  rewrite (Count_ToUpper "-" field upper_ascii_hyphen). assumption.
Qed.

Lemma getVendorFromMAC_nonempty (mac : string) : getVendorFromMAC mac <> EmptyString.
Proof.
  unfold getVendorFromMAC, getVendorFromMAC_in.
  destruct (String.length mac <? 8)%nat; [discriminate|].
  destruct (find _ vendors) as [[k v]|] eqn:E; [|discriminate].
  apply find_some in E as [Hin _]. unfold vendors in Hin. cbn [In] in Hin.
  repeat (destruct Hin as [Hin|Hin]; [injection Hin as <- <-; discriminate|]).
  contradiction.
Qed.

(** What [scanHost] makes of the answers of the resolver and of the
    neighbor table, for an address whose probe succeeded. *)
Lemma scanHost_alive (env : Env) (ip : IP) (timeout : time.Duration) (w : World) :
  let p := pingHost (IP_String ip) timeout env w in
  fst (fst p) = true ->
  let l := net_LookupAddr (IP_String ip) env (snd p) in
  let m := getMACAddress (IP_String ip) env (snd l) in
  let names := fst (fst l) in
  scanHost ip timeout env w
  = (mkHost ip
       (if snd (fst l) && (0 <? List.length names)%nat
        then strings.TrimSuffix (nth 0 names EmptyString) "." else EmptyString)
       (fst m)
       (if String.eqb (fst m) EmptyString then EmptyString else getVendorFromMAC (fst m))
       (time.Sub (clock (snd p)) (clock w)) true (snd (fst p)),
     snd m).
Proof.
  unfold scanHost, time_Since, bind, time_Now, ret. cbv beta iota zeta.
  destruct (pingHost (IP_String ip) timeout env w) as [[isAlive err] w1].
  cbn [fst snd]. intros ->.
  destruct (net_LookupAddr (IP_String ip) env w1) as [[names ok] w2].
  cbn [fst snd].
  destruct (getMACAddress (IP_String ip) env w2) as [mac w3]. cbn [fst snd].
  destruct (String.eqb mac EmptyString) eqn:Em; cbn [negb].
  - apply String.eqb_eq in Em. subst mac.
    destruct (ok && (0 <? List.length names)%nat); reflexivity.
  - destruct (ok && (0 <? List.length names)%nat); reflexivity.
Qed.

End EnrichFacts.


(** * Facts about the worker pool *)

Module PoolFacts.
Import net scanner.

Ltac proj :=
  cbn [cap tosend jobs jobs_closed workers wg results results_closed result
       returned panicked NetworkRange TotalHosts AliveHosts Hosts ScanTime] in *.


Lemma set_worker_length (k : nat) (v : Worker) (ws : list Worker) :
  List.length (set_worker k v ws) = List.length ws.
Proof.
  revert k; induction ws as [|x ws IH]; intros [|k]; cbn; auto.
Qed.

Lemma held_take (k : nat) (h : Host) (ws : list Worker) :
  nth_error ws k = Some Idle ->
  Permutation (held (set_worker k (Holding h) ws)) (h :: held ws).
Proof.
  revert k; induction ws as [|x ws IH]; intros [|k] Hk; cbn in *; try discriminate.
  - injection Hk as ->. reflexivity.
  - destruct x; cbn; auto.
    rewrite IH by assumption. apply perm_swap.
Qed.

Lemma held_give (k : nat) (h : Host) (ws : list Worker) :
  nth_error ws k = Some (Holding h) ->
  Permutation (held ws) (h :: held (set_worker k Idle ws)).
Proof.
  revert k; induction ws as [|x ws IH]; intros [|k] Hk; cbn in *; try discriminate.
  - injection Hk as ->. reflexivity.
  - destruct x; cbn; auto.
    rewrite (IH _ Hk). apply perm_swap.
Qed.

Lemma held_leave (k : nat) (ws : list Worker) :
  nth_error ws k = Some Idle -> held (set_worker k Gone ws) = held ws.
Proof.
  revert k; induction ws as [|x ws IH]; intros [|k] Hk; cbn in *; try discriminate.
  - injection Hk as ->. reflexivity.
  - destruct x; cbn; auto. f_equal; auto.
Qed.

Lemma active_take (k : nat) (h : Host) (ws : list Worker) :
  nth_error ws k = Some Idle -> active (set_worker k (Holding h) ws) = active ws.
Proof.
  revert k; induction ws as [|x ws IH]; intros [|k] Hk; cbn in *; try discriminate.
  - injection Hk as ->. reflexivity.
  - destruct x; cbn; auto.
Qed.

Lemma active_give (k : nat) (h : Host) (ws : list Worker) :
  nth_error ws k = Some (Holding h) -> active (set_worker k Idle ws) = active ws.
Proof.
  revert k; induction ws as [|x ws IH]; intros [|k] Hk; cbn in *; try discriminate.
  - injection Hk as ->. reflexivity.
  - destruct x; cbn; auto.
Qed.

Lemma active_leave (k : nat) (ws : list Worker) :
  nth_error ws k = Some Idle -> S (active (set_worker k Gone ws)) = active ws.
Proof.
  revert k; induction ws as [|x ws IH]; intros [|k] Hk; cbn in *; try discriminate.
  - injection Hk as ->. reflexivity.
  - destruct x; cbn; auto.
Qed.

Lemma active_le_length (ws : list Worker) : (active ws <= List.length ws)%nat.
Proof. induction ws as [|[]]; cbn; lia. Qed.

Lemma held_le_active (ws : list Worker) : (List.length (held ws) <= active ws)%nat.
Proof. induction ws as [|[]]; cbn; lia. Qed.

Lemma active_zero_held (ws : list Worker) : active ws = O -> held ws = [].
Proof.
  intros H. pose proof (held_le_active ws) as L. rewrite H in L.
  destruct (held ws); [reflexivity | cbn in L; lia].
Qed.

Lemma count_alive_app (l1 l2 : list Host) :
  count_alive (l1 ++ l2) = count_alive l1 + count_alive l2.
Proof. induction l1 as [|h l1 IH]; cbn; [reflexivity | rewrite IH; lia]. Qed.

Lemma scanHost_IP (env : Env) (timeout : time.Duration) (ip : IP) (w : World) :
  Host_IP (fst (scanHost ip timeout env w)) = ip.
Proof.
  unfold scanHost, time_Since, bind, time_Now, ret. cbv beta iota zeta.
  destruct (pingHost (IP_String ip) timeout env w) as [[isAlive err] w1].
  cbv beta iota zeta. destruct isAlive; [|reflexivity].
  destruct (net_LookupAddr (IP_String ip) env w1) as [[names ok] w2].
  cbv beta iota zeta.
  destruct (getMACAddress (IP_String ip) env w2) as [mac w3].
  destruct (negb (mac =? "")%string); [reflexivity|].
  destruct (ok && (0 <? List.length names)%nat); reflexivity.
Qed.

Lemma scanHost_probed (env : Env) (timeout : time.Duration) (ip : IP) (t : Z) :
  probed env timeout (fst (scanHost ip timeout env (mkWorld t []))).
Proof. exists t. rewrite scanHost_IP. reflexivity. Qed.

(** The state [ScanNetwork] starts from satisfies the invariant. *)
Lemma active_repeat_Idle (n : nat) : active (repeat Idle n) = n.
Proof. induction n; cbn; auto. Qed.

Lemma held_repeat_Idle (n : nat) : held (repeat Idle n) = [].
Proof. induction n; cbn; auto. Qed.

Lemma start_inv (env : Env) (timeout : time.Duration) (ips : list IP) (w : Z) :
  pool_inv env timeout ips w (start ips w).
Proof.
  constructor; cbn; try reflexivity; try discriminate.
  - unfold in_flight; cbn. rewrite held_repeat_Idle. cbn. rewrite app_nil_r. reflexivity.
  - rewrite held_repeat_Idle. constructor.
  - rewrite active_repeat_Idle. reflexivity.
  - apply repeat_length.
  - rewrite active_repeat_Idle, repeat_length. lia.
Qed.

Ltac perm :=
  cbn [map app]; rewrite ?map_app; cbn [map app]; rewrite <- ?app_assoc;
  cbn [app]; repeat rewrite <- Permutation_middle; rewrite ?app_nil_r;
  reflexivity.

(** Every action keeps the invariant. *)
Lemma step_inv (env : Env) (timeout : time.Duration) (ips : list IP) (w : Z)
  (a : Action) (s s' : Pool) :
  pool_inv env timeout ips w s -> step env timeout a s = Some s' ->
  pool_inv env timeout ips w s'.
Proof.
  intros [Hcap Hperm Hpr Hcl Hwg Hws Hgone Hrc Hal Htot Hret Hnp] Hstep.
  destruct s as [cp ts js jc ws wgv rs rc res ret pan].
  unfold in_flight in Hperm. proj. subst pan.
  unfold step in Hstep; proj.
  destruct a as [| |k t|k|k| | |elapsed].
  - (* Feed *)
    destruct ts as [|ip rest]; [discriminate|].
    destruct (negb jc && (List.length js <? cp)%nat) eqn:E; [|discriminate].
    injection Hstep as <-.
    apply andb_prop in E as [Ejc _]. apply negb_true_iff in Ejc. subst jc.
    constructor; proj; auto; try discriminate.
    + unfold in_flight; proj. rewrite <- Hperm. perm.
    + intros H. specialize (Hgone H). destruct Hgone; congruence.
  - (* CloseJobs *)
    destruct ts as [|ip rest]; [|discriminate].
    destruct jc; [discriminate|]. injection Hstep as <-.
    constructor; proj; auto.
    intros H. specialize (Hgone H). destruct Hgone; congruence.
  - (* Receive *)
    destruct (nth_error ws k) as [[|h|]|] eqn:Ek; try discriminate.
    destruct js as [|ip rest]; [discriminate|]. injection Hstep as <-.
    constructor; proj; auto.
    + unfold in_flight; proj. rewrite <- Hperm.
      rewrite (held_take _ _ _ Ek). cbn [map]. rewrite scanHost_IP. perm.
    + rewrite (held_take _ _ _ Ek). cbn [app].
      constructor; [apply scanHost_probed | assumption].
    + rewrite active_take by assumption. assumption.
    + rewrite set_worker_length. assumption.
    + rewrite set_worker_length, active_take by assumption.
      intros H. specialize (Hgone H). destruct Hgone; congruence.
  - (* Send *)
    destruct (nth_error ws k) as [[|h|]|] eqn:Ek; try discriminate.
    destruct rc.
    { (* the channel cannot be closed while a worker holds a record *)
      exfalso. specialize (Hrc eq_refl). subst wgv.
      assert (active ws = O) as Hz by lia.
      pose proof (active_zero_held _ Hz) as Hh.
      pose proof (held_give _ _ _ Ek) as Hp. rewrite Hh in Hp.
      apply Permutation_nil in Hp. discriminate. }
    destruct (List.length rs <? cp)%nat; [|discriminate]. injection Hstep as <-.
    constructor; proj; auto; try discriminate.
    + unfold in_flight; proj. rewrite <- Hperm.
      rewrite (held_give _ _ _ Ek). perm.
    + rewrite (held_give _ _ _ Ek) in Hpr. revert Hpr.
      apply Permutation_Forall. perm.
    + rewrite (active_give _ _ _ Ek). assumption.
    + rewrite set_worker_length. assumption.
    + rewrite set_worker_length, (active_give _ _ _ Ek). assumption.
    + intros H. specialize (Hret H). destruct Hret; congruence.
  - (* Leave *)
    destruct (nth_error ws k) as [[|h|]|] eqn:Ek; try discriminate.
    destruct js as [|ip rest]; [|discriminate].
    destruct jc; [|discriminate]. injection Hstep as <-.
    pose proof (active_leave _ _ Ek) as Ha.
    constructor; proj; auto.
    + unfold in_flight; proj. rewrite held_leave by assumption. assumption.
    + rewrite held_leave by assumption. assumption.
    + lia.
    + rewrite set_worker_length. assumption.
    + intros H. specialize (Hrc H). lia.
  - (* CloseResults *)
    destruct ((wgv =? 0) && negb rc) eqn:E; [|discriminate]. injection Hstep as <-.
    apply andb_prop in E as [E1 E2]. apply Z.eqb_eq in E1.
    constructor; proj; auto.
    intros H. specialize (Hret H). destruct Hret as [? ->]. auto.
  - (* Collect *)
    destruct ret; [discriminate|].
    destruct rs as [|h rest]; [discriminate|]. injection Hstep as <-.
    constructor; proj; auto; try discriminate.
    + unfold in_flight; proj. rewrite <- Hperm. perm.
    + revert Hpr. apply Permutation_Forall. perm.
    + rewrite count_alive_app. cbn [count_alive]. destruct (IsAlive h); lia.
  - (* Finish *)
    destruct ret; [discriminate|].
    destruct rs as [|h rest]; [|discriminate].
    destruct rc; [|discriminate]. injection Hstep as <-.
    constructor; proj; auto.
Qed.

Lemma run_inv (env : Env) (timeout : time.Duration) (ips : list IP) (w : Z)
  (sched : list Action) :
  forall s s' : Pool,
    pool_inv env timeout ips w s -> run env timeout sched s = Some s' ->
    pool_inv env timeout ips w s'.
Proof.
  induction sched as [|a sched IH]; intros s s' Hinv Hrun; cbn in Hrun.
  - injection Hrun as <-. assumption.
  - destruct (step env timeout a s) as [s1|] eqn:E; [|discriminate].
    eapply IH; [|eassumption]. eapply step_inv; eassumption.
Qed.

Lemma run_app (env : Env) (timeout : time.Duration) (l1 l2 : list Action) :
  forall s s1 s2 : Pool,
    run env timeout l1 s = Some s1 -> run env timeout l2 s1 = Some s2 ->
    run env timeout (l1 ++ l2) s = Some s2.
Proof.
  induction l1 as [|a l1 IH]; intros s s1 s2 H1 H2; cbn in *.
  - injection H1 as ->. assumption.
  - destruct (step env timeout a s) as [s'|]; [|discriminate]. eauto.
Qed.

(** Every action uses up one unit of the potential. *)
Lemma step_potential (env : Env) (timeout : time.Duration) (ips : list IP) (w : Z)
  (a : Action) (s s' : Pool) :
  pool_inv env timeout ips w s -> step env timeout a s = Some s' ->
  S (potential s') = potential s.
Proof.
  intros Hinv Hstep.
  pose proof (step_inv _ _ _ _ _ _ _ Hinv Hstep) as Hinv'.
  destruct Hinv' as [_ _ _ _ _ _ _ _ _ _ _ Hnp'].
  destruct Hinv as [Hcap Hperm Hpr Hcl Hwg Hws Hgone Hrc Hal Htot Hret Hnp].
  destruct s as [cp ts js jc ws wgv rs rc res ret pan]. proj. subst pan.
  unfold step in Hstep; proj. unfold potential.
  destruct a as [| |k t|k|k| | |elapsed].
  - destruct ts as [|ip rest]; [discriminate|].
    destruct (negb jc && (List.length js <? cp)%nat); [|discriminate].
    injection Hstep as <-. proj. rewrite length_app. cbn [List.length]. lia.
  - destruct ts as [|ip rest]; [|discriminate].
    destruct jc; [discriminate|]. injection Hstep as <-. proj. lia.
  - destruct (nth_error ws k) as [[|h|]|] eqn:Ek; try discriminate.
    destruct js as [|ip rest]; [discriminate|]. injection Hstep as <-. proj.
    rewrite (Permutation_length (held_take _ _ _ Ek)), (active_take _ _ _ Ek).
    cbn [List.length]. lia.
  - destruct (nth_error ws k) as [[|h|]|] eqn:Ek; try discriminate.
    destruct rc.
    { injection Hstep as <-. discriminate. }
    destruct (List.length rs <? cp)%nat; [|discriminate]. injection Hstep as <-.
    proj. rewrite (Permutation_length (held_give _ _ _ Ek)), (active_give _ _ _ Ek).
    rewrite length_app. cbn [List.length]. lia.
  - destruct (nth_error ws k) as [[|h|]|] eqn:Ek; try discriminate.
    destruct js as [|ip rest]; [|discriminate].
    destruct jc; [|discriminate]. injection Hstep as <-. proj.
    rewrite (held_leave _ _ Ek). pose proof (active_leave _ _ Ek). lia.
  - destruct ((wgv =? 0) && negb rc) eqn:E; [|discriminate]. injection Hstep as <-.
    apply andb_prop in E as [_ E]. apply negb_true_iff in E. subst rc. proj. lia.
  - destruct ret; [discriminate|].
    destruct rs as [|h rest]; [discriminate|]. injection Hstep as <-. proj.
    cbn [List.length]. lia.
  - destruct ret; [discriminate|].
    destruct rs as [|h rest]; [|discriminate].
    destruct rc; [|discriminate]. injection Hstep as <-. proj. lia.
Qed.

Lemma run_potential (env : Env) (timeout : time.Duration) (ips : list IP) (w : Z)
  (sched : list Action) :
  forall s s' : Pool,
    pool_inv env timeout ips w s -> run env timeout sched s = Some s' ->
    (List.length sched + potential s' = potential s)%nat.
Proof.
  induction sched as [|a sched IH]; intros s s' Hinv Hrun; cbn in Hrun.
  - injection Hrun as <-. reflexivity.
  - destruct (step env timeout a s) as [s1|] eqn:E; [|discriminate].
    pose proof (step_potential _ _ _ _ _ _ _ Hinv E).
    pose proof (IH _ _ (step_inv _ _ _ _ _ _ _ Hinv E) Hrun).
    cbn [List.length]. lia.
Qed.

(** A worker that has not returned is at index [k] for some [k]. *)
Lemma active_pos_nth (ws : list Worker) :
  (0 < active ws)%nat ->
  exists k, nth_error ws k = Some Idle \/ exists h, nth_error ws k = Some (Holding h).
Proof.
  induction ws as [|x ws IH]; cbn; [lia|].
  destruct x as [|h|].
  - intros _. exists O. left. reflexivity.
  - intros _. exists O. right. exists h. reflexivity.
  - intros H. destruct (IH H) as [k Hk]. exists (S k). exact Hk.
Qed.

Lemma held_nth (ws : list Worker) (k : nat) (h : Host) :
  nth_error ws k = Some (Holding h) -> (0 < List.length (held ws))%nat.
Proof.
  intros H. rewrite (Permutation_length (held_give _ _ _ H)). cbn. lia.
Qed.

(** No deadlock: while [ScanNetwork] has not returned, some goroutine can
    take a step. *)
Lemma progress (env : Env) (timeout : time.Duration) (ips : list IP) (w : Z) (s : Pool) :
  pool_inv env timeout ips w s -> returned s = false ->
  exists (a : Action) (s' : Pool), step env timeout a s = Some s'.
Proof.
  intros [Hcap Hperm Hpr Hcl Hwg Hws Hgone Hrc Hal Htot Hret Hnp] Hnr.
  destruct s as [cp ts js jc ws wgv rs rc res ret pan].
  unfold in_flight in Hperm. proj. subst pan ret.
  apply Permutation_length in Hperm. rewrite !length_app, !length_map in Hperm.
  destruct rs as [|h rest].
  2:{ exists Collect. eexists. unfold step; proj. reflexivity. }
  destruct rc.
  { exists (Finish 0). eexists. unfold step; proj. reflexivity. }
  destruct (active ws) as [|n] eqn:Ea.
  { exists CloseResults. eexists. unfold step; proj. subst wgv. reflexivity. }
  destruct (active_pos_nth ws ltac:(lia)) as [k [Hk|[h Hk]]].
  - destruct js as [|ip rest].
    + destruct jc.
      * exists (Leave k). eexists. unfold step; proj. rewrite Hk. reflexivity.
      * destruct ts as [|ip rest].
        -- exists CloseJobs. eexists. unfold step; proj. reflexivity.
        -- exists Feed. eexists. unfold step; proj.
           assert (E : (List.length (@nil IP) <? cp)%nat = true).
           { apply Nat.ltb_lt. cbn [List.length] in *. lia. }
           rewrite E. reflexivity.
    + exists (Receive k 0). eexists. unfold step; proj. rewrite Hk. reflexivity.
  - exists (Send k). eexists. unfold step; proj. rewrite Hk.
    pose proof (held_nth _ _ _ Hk).
    assert (E : (List.length (@nil Host) <? cp)%nat = true).
    { apply Nat.ltb_lt. cbn [List.length] in *. lia. }
    rewrite E. reflexivity.
Qed.

(** No livelock either: from every state the pool can reach, the call can be
    brought to its return. *)
Lemma completion (env : Env) (timeout : time.Duration) (ips : list IP) (w : Z) :
  forall (n : nat) (s : Pool),
    potential s = n -> pool_inv env timeout ips w s ->
    exists (sched : list Action) (s' : Pool),
      run env timeout sched s = Some s' /\ returned s' = true.
Proof.
  induction n as [n IH] using lt_wf_ind. intros s Hn Hinv.
  destruct (returned s) eqn:Er.
  - exists [], s. split; [reflexivity | assumption].
  - destruct (progress _ _ _ _ _ Hinv Er) as (a & s1 & Hstep).
    pose proof (step_potential _ _ _ _ _ _ _ Hinv Hstep) as Hp.
    destruct (IH (potential s1) ltac:(lia) s1 eq_refl
                 (step_inv _ _ _ _ _ _ _ Hinv Hstep)) as (sched & s' & Hrun & Hret).
    exists (a :: sched), s'. split; [|assumption].
    cbn. rewrite Hstep. assumption.
Qed.

(** With at least one worker, a returned call has collected a record for
    every address. *)
Lemma returned_all (env : Env) (timeout : time.Duration) (ips : list IP) (w : Z) (s : Pool) :
  1 <= w -> pool_inv env timeout ips w s -> returned s = true ->
  Permutation (map Host_IP (Hosts (result s))) ips
  /\ Forall (probed env timeout) (Hosts (result s)).
Proof.
  intros Hw [Hcap Hperm Hpr Hcl Hwg Hws Hgone Hrc Hal Htot Hret Hnp] Hr.
  destruct (Hret Hr) as [Hrs Hrc'].
  specialize (Hrc Hrc'). rewrite Hrc in Hwg.
  assert (Ha : active (workers s) = O) by lia.
  destruct Hgone as [Hjc Hjs]; [rewrite Ha, Hws; lia|].
  specialize (Hcl Hjc).
  unfold in_flight in Hperm.
  rewrite Hcl, Hjs, Hrs, (active_zero_held _ Ha) in Hperm. cbn in Hperm.
  rewrite (active_zero_held _ Ha), Hrs in Hpr. cbn in Hpr.
  split; assumption.
Qed.

End PoolFacts.
(** * Facts about the texts of the interface *)

Module UIFacts.
Import net scanner ui NetworkFacts ProbeFacts PoolFacts TextFacts.

Lemma cells_snoc (cell : string) (n : nat) :
  cells cell (S n) = (cells cell n ++ cell)%string.
Proof.
  induction n as [|n IH]; cbn [cells].
  - rewrite append_empty. reflexivity.
  - cbn [cells] in IH. rewrite IH at 1. rewrite append_assoc. reflexivity.
Qed.

(** The writing loop appends one cell per turn, [bound - i] of them. *)
Lemma WriteString_loop_cells (cell : string) (n : nat) :
  forall (fuel : nat) (i bound : Z) (b : string),
    Z.to_nat (bound - i) = n -> (n <= fuel)%nat ->
    WriteString_loop fuel i bound cell b = (b ++ cells cell n)%string.
Proof.
  induction n as [|n IH]; intros fuel i bound b Hn Hf.
  - cbn [cells]. rewrite append_empty.
    destruct fuel as [|fuel]; [reflexivity|]. cbn [WriteString_loop].
    replace (i <? bound) with false by (symmetry; apply Z.ltb_ge; lia). reflexivity.
  - destruct fuel as [|fuel]; [lia|]. cbn [WriteString_loop].
    replace (i <? bound) with true by (symmetry; apply Z.ltb_lt; lia).
    rewrite (IH fuel (i + 1) bound (b ++ cell)%string) by lia.
    cbn [cells]. rewrite append_assoc. reflexivity.
Qed.

Lemma filled_all : forallb filled_ok (count_up (-1000) (Z.to_nat 2001)) = true.
Proof. vm_compute. reflexivity. Qed.

Lemma filled_quot (progress : Z) :
  -1000 <= progress <= 1000 -> filled progress = Z.quot progress 5.
Proof.
  intros H. pose proof filled_all as A. rewrite forallb_forall in A.
  apply Z.eqb_eq. apply A. apply count_up_In. lia.
Qed.

(** *** The table of hosts *)

Lemma display_rows_numbers (showInactive : bool) (hosts : list Host) :
  forall row : Z,
    map row_number (display_rows showInactive hosts row)
    = count_up row (List.length (display_rows showInactive hosts row)).
Proof.
  induction hosts as [|h hosts IH]; intros row; [reflexivity|].
  cbn [display_rows].
  destruct (negb (IsAlive h) && negb showInactive); [apply IH|].
  cbn [map List.length count_up]. rewrite IH. reflexivity.
Qed.

Lemma display_rows_hidden (hosts : list Host) (row : Z) :
  map ip_cell (display_rows false hosts row)
  = map (fun h => IP_String (Host_IP h)) (filter IsAlive hosts)
  /\ Z.of_nat (List.length (display_rows false hosts row)) = count_alive hosts
  /\ Forall (fun r => status_color r = ColorGreen) (display_rows false hosts row).
Proof.
  revert row. induction hosts as [|h hosts IH]; intros row.
  - cbn. auto.
  - cbn [display_rows filter count_alive].
    destruct (IH row) as (I1 & I2 & I3). destruct (IH (row + 1)) as (J1 & J2 & J3).
    destruct (IsAlive h) eqn:Ea; cbn [negb andb].
    + cbn [map List.length]. rewrite J1. split; [reflexivity|]. split; [lia|].
      constructor; [|assumption]. unfold host_row. cbn [status_color]. rewrite Ea.
      reflexivity.
    + rewrite I1. split; [reflexivity|]. split; [lia|assumption].
Qed.

Lemma display_rows_shown (hosts : list Host) (row : Z) :
  map ip_cell (display_rows true hosts row)
  = map (fun h => IP_String (Host_IP h)) hosts.
Proof.
  revert row. induction hosts as [|h hosts IH]; intros row; [reflexivity|].
  cbn [display_rows]. rewrite andb_false_r. cbn [map]. rewrite IH. reflexivity.
Qed.

Lemma display_rows_In (showInactive : bool) (hosts : list Host) (r : Row) :
  forall row : Z,
    In r (display_rows showInactive hosts row) ->
    exists (h : Host) (k : Z), In h hosts /\ r = host_row k h.
Proof.
  induction hosts as [|h hosts IH]; intros row; cbn [display_rows]; [contradiction|].
  destruct (negb (IsAlive h) && negb showInactive).
  - intros H. destruct (IH _ H) as (h' & k & Hin & E). exists h', k. split; [right|]; auto.
  - intros [<-|H].
    + exists h, row. split; [left|]; reflexivity.
    + destruct (IH _ H) as (h' & k & Hin & E). exists h', k. split; [right|]; auto.
Qed.

(** The record of an address whose probe failed carries nothing but the
    probe's outcome. *)
Lemma probed_offline (env : Env) (timeout : time.Duration) (h : Host) :
  probed env timeout h -> IsAlive h = false ->
  Hostname h = EmptyString /\ MAC h = EmptyString /\ Vendor h = EmptyString.
Proof.
  intros [t Ht] Ha.
  destruct (scanHost_probe_fields env (Host_IP h) timeout (mkWorld t [])) as (_ & Hal & _).
  cbv zeta in Hal. rewrite <- Ht in Hal. rewrite Ha in Hal. symmetry in Hal.
  pose proof (scanHost_dead env (Host_IP h) timeout (mkWorld t []) Hal) as Hd.
  rewrite Hd in Ht. cbn [fst] in Ht. rewrite Ht. cbn. auto.
Qed.

End UIFacts.


(** * The claims about package [network] *)

Section NetworkClaims.
Import net network NetworkFacts.

(** C10. The conversions between an IPv4 address and its 32-bit integer are
    inverse to each other: for a 4-byte address [ip], [ipToUint32] yields a
    32-bit value [v] and [uint32ToIP v] is the same address in the 16-byte
    form [net.IPv4] builds (equal to [ip] for [IP.Equal], and [To4] of it is
    [ip] byte for byte); for a 32-bit [n], [ipToUint32 (uint32ToIP n)] is [n]. *)
Theorem ip_uint32_roundtrip (ip : IP) (n : Z) :
  List.length ip = 4%nat -> Forall is_byte ip -> 0 <= n < 2 ^ 32 ->
  (exists v : Z,
      ipToUint32 ip = Some v /\ 0 <= v < 2 ^ 32
      /\ uint32ToIP v = v4InV6Prefix ++ ip
      /\ To4 (uint32ToIP v) = Some ip
      /\ Equal (uint32ToIP v) ip = true)
  /\ ipToUint32 (uint32ToIP n) = Some n.
Proof.
  intros Hlen Hb Hn. split; [|apply uint32ToIP_value; assumption].
  destruct ip as [|a [|b [|c [|d [|e ip]]]]]; try discriminate.
  inversion Hb as [|? ? Ha Hb1]; subst. inversion Hb1 as [|? ? Hb' Hb2]; subst.
  inversion Hb2 as [|? ? Hc Hb3]; subst. inversion Hb3 as [|? ? Hd _]; subst.
  exists (a * 16777216 + b * 65536 + c * 256 + d).
  rewrite pack_value, unpack_bytes by assumption.
  split; [reflexivity|]. split; [unfold is_byte in *; lia|].
  split; [reflexivity|]. split; [reflexivity|].
  unfold Equal, IPv4. cbn. rewrite !Z.eqb_refl. reflexivity.
Qed.

Lemma ip_uint32_roundtrip_witness :
  (exists v : Z,
      ipToUint32 [192; 168; 1; 1] = Some v /\ 0 <= v < 2 ^ 32
      /\ uint32ToIP v = v4InV6Prefix ++ [192; 168; 1; 1]
      /\ To4 (uint32ToIP v) = Some [192; 168; 1; 1]
      /\ Equal (uint32ToIP v) [192; 168; 1; 1] = true)
  /\ ipToUint32 (uint32ToIP 3232235777) = Some 3232235777.
Proof.
  apply (ip_uint32_roundtrip [192; 168; 1; 1] 3232235777).
  - reflexivity.
  - repeat constructor; unfold is_byte; lia.
  - lia.
Defined.

(** C4 (the code departs from the claim). With the end of the range at
    255.255.255.255 the expansion never returns, whatever the start: the test
    [i <= end] holds for every [uint32] [i], and [i++] wraps around to 0. *)
Theorem GenerateIPs_never_returns_at_max (r : IPRange) (start : Z) (fuel : nat) :
  ip_value (StartIP r) = Some start -> ip_value (EndIP r) = Some max_uint32 ->
  GenerateIPs fuel r = OutOfFuel.
Proof.
  intros Hs He. rewrite (GenerateIPs_ipv4 fuel r start max_uint32 Hs He).
  apply loop_diverges. unfold ip_value in Hs. eapply ipToUint32_range; eassumption.
Qed.

Lemma GenerateIPs_never_returns_at_max_witness :
  GenerateIPs 1000 (mkIPRange (IPv4 0 0 0 0) (IPv4 255 255 255 255)) = OutOfFuel.
Proof.
  apply (GenerateIPs_never_returns_at_max
           (mkIPRange (IPv4 0 0 0 0) (IPv4 255 255 255 255)) 0 1000);
    reflexivity.
Defined.

(** C2 (the code departs from the claim). [0.0.0.0/0] is a valid CIDR text:
    it parses to the range from 0.0.0.0 to 255.255.255.255, and the expansion
    of that range never returns its [2^32] addresses. *)
Theorem expand_cidr_whole_space_never_returns :
  ParseIPRange "0.0.0.0/0"
  = (Some (mkIPRange [0; 0; 0; 0] [255; 255; 255; 255]), None)
  /\ forall fuel : nat,
      GenerateIPs fuel (mkIPRange [0; 0; 0; 0] [255; 255; 255; 255]) = OutOfFuel.
Proof.
  split; [reflexivity|]. intros fuel.
  rewrite (GenerateIPs_ipv4 fuel _ 0 max_uint32); [| reflexivity | reflexivity].
  apply loop_diverges. lia.
Qed.

(** C8 (the code departs from the claim). The single address
    255.255.255.255 parses to a range with both ends at that address, and
    its expansion yields no sequence: it never returns. *)
Theorem expand_single_top_address_never_returns :
  ParseIPRange "255.255.255.255"
  = (Some (mkIPRange (IPv4 255 255 255 255) (IPv4 255 255 255 255)), None)
  /\ forall fuel : nat,
      GenerateIPs fuel (mkIPRange (IPv4 255 255 255 255) (IPv4 255 255 255 255))
      = OutOfFuel.
Proof.
  split; [reflexivity|]. intros fuel.
  rewrite (GenerateIPs_ipv4 fuel _ max_uint32 max_uint32); [| reflexivity | reflexivity].
  apply loop_diverges. unfold max_uint32. lia.
Qed.

End NetworkClaims.

Section ParseClaims.
Import net network.




End ParseClaims.


Section ExpansionFacts.
Import net network NetworkFacts.






End ExpansionFacts.


Section CIDRExpansion.
Import net network NetworkFacts CIDRFacts.

Lemma pow2_pos (k : Z) : 0 <= k -> 0 < 2 ^ k.
Proof. intros. apply Z.pow_pos_nonneg; lia. Qed.

(** For every accepted IPv4 CIDR text [a.b.c.d/n], [ParseIPRange] returns
    the range from the network address (the address with its low [32 - n]
    bits cleared) to the broadcast address (those bits set).  When the
    broadcast address is below 255.255.255.255 the expansion returns exactly
    [2^(32-n)] addresses, the first the network address, the last the
    broadcast address, the [k]-th of value [network + k]: strictly ascending,
    without repetition.  When the broadcast address is 255.255.255.255 the
    expansion never returns. *)
Theorem cidr_expansion (s : string) (a b c d n : Z) (nw : IP) :
  ParseCIDR s = Some (IPv4 a b c d, mkIPNet nw (CIDRMask n 32)) -> 0 <= n <= 32 ->
  let addr := a * 16777216 + b * 65536 + c * 256 + d in
  let size := 2 ^ (32 - n) in
  let network := addr - addr mod size in
  let bcast := network + size - 1 in
  let r := mkIPRange (Mask (IPv4 a b c d) (CIDRMask n 32))
                     (broadcast (Mask (IPv4 a b c d) (CIDRMask n 32)) (CIDRMask n 32)) in
  let ips := map uint32ToIP (count_up network (Z.to_nat size)) in
  ParseIPRange s = (Some r, None)
  /\ ip_value (StartIP r) = Some network
  /\ ip_value (EndIP r) = Some bcast
  /\ (bcast < max_uint32 ->
      (forall fuel : nat, (Z.to_nat size < fuel)%nat -> GenerateIPs fuel r = Returns ips)
      /\ Z.of_nat (List.length ips) = size
      /\ ip_value (nth 0 ips []) = Some network
      /\ ip_value (nth (Z.to_nat size - 1) ips []) = Some bcast
      /\ forall k : nat, (k < Z.to_nat size)%nat ->
                         ip_value (nth k ips []) = Some (network + Z.of_nat k))
  /\ (bcast = max_uint32 -> forall fuel : nat, GenerateIPs fuel r = OutOfFuel).
Proof.
  intros Hparse Hn.
  assert (Hlen : List.length (Net_Mask (mkIPNet nw (CIDRMask n 32))) = 4%nat).
  { cbn [Net_Mask]. unfold CIDRMask. cbn [Z.eqb negb andb].
    destruct (Z.ltb_spec n 0); [lia|]. destruct (Z.ltb_spec 32 n); [lia|].
    cbn [orb]. apply CIDRMask_bytes_length. }
  destruct (ParseCIDR_v4 _ _ _ Hparse Hlen)
    as (a' & b' & c' & d' & n' & Ha & Hb & Hc & Hd & _ & Hip & _ & Hslash).
  injection Hip as <- <- <- <-.
  cbv zeta.
  destruct (cidr_values a b c d n Ha Hb Hc Hd Hn) as [Hstart Hend].
  set (addr := a * 16777216 + b * 65536 + c * 256 + d) in *.
  set (size := 2 ^ (32 - n)) in *.
  assert (Hsize : 0 < size) by (apply pow2_pos; lia).
  set (r := mkIPRange _ _).
  assert (Hs : ip_value (StartIP r) = Some (addr - addr mod size)) by exact Hstart.
  assert (He : ip_value (EndIP r) = Some (addr - addr mod size + size - 1)) by exact Hend.
  assert (Hk : forall k : nat, (k < Z.to_nat size)%nat ->
             ip_value (nth k (map uint32ToIP (count_up (addr - addr mod size) (Z.to_nat size))) [])
             = Some (addr - addr mod size + Z.of_nat k)).
  { intros k Hk. pose proof (ipToUint32_range _ _ Hs) as Rs.
    pose proof (ipToUint32_range _ _ He) as Re.
    rewrite (nth_indep _ [] (uint32ToIP 0)) by (rewrite length_map, count_up_length; assumption).
    rewrite map_nth, count_up_nth by assumption.
    unfold ip_value. apply uint32ToIP_value. lia. }
  split.
  { unfold ParseIPRange. rewrite Hslash. unfold parseCIDR. rewrite Hparse.
    reflexivity. }
  split; [exact Hs|]. split; [exact He|]. split.
  - intros Hmax. split.
    + intros fuel Hfuel.
      rewrite (GenerateIPs_ipv4 fuel r _ _ Hs He).
      rewrite (loop_returns _ (Z.to_nat size) Hmax _ [] fuel); [reflexivity| | |assumption].
      * pose proof (ipToUint32_range _ _ Hs). lia.
      * lia.
    + split; [rewrite length_map, count_up_length; lia|].
      split; [rewrite (Hk O) by lia; f_equal; lia|].
      split; [rewrite (Hk (Z.to_nat size - 1)%nat) by lia; f_equal; lia|].
      exact Hk.
  - intros Hmax fuel. fold size in He. rewrite Hmax in He.
    rewrite (GenerateIPs_ipv4 fuel r _ _ Hs He).
    apply loop_diverges. eapply ipToUint32_range. exact Hs.
Qed.

Lemma cidr_expansion_witness :
  let r := mkIPRange [192; 168; 1; 0] [192; 168; 1; 255] in
  let ips := map uint32ToIP (count_up 3232235776 256) in
  ParseIPRange "192.168.1.0/24" = (Some r, None)
  /\ GenerateIPs 300 r = Returns ips
  /\ List.length ips = 256%nat
  /\ ip_value (nth 0 ips []) = Some 3232235776
  /\ ip_value (nth 255 ips []) = Some 3232236031
  /\ nth 0 ips [] = IPv4 192 168 1 0
  /\ nth 255 ips [] = IPv4 192 168 1 255.
Proof.
  cbv zeta.
  destruct (cidr_expansion "192.168.1.0/24" 192 168 1 0 24 [192; 168; 1; 0]
              eq_refl ltac:(lia)) as (Hp & _ & _ & Hret & _).
  destruct (Hret eq_refl) as (Hg & _ & H0 & H255 & _).
  split; [exact Hp|].
  split; [apply (Hg 300%nat); apply Nat.ltb_lt; vm_compute; reflexivity|].
  split; [reflexivity|]. split; [exact H0|]. split; [exact H255|].
  split; reflexivity.
Defined.

End CIDRExpansion.
(** * The package [network]: detection, text and capacity *)

Section LocalNetwork.
Import net network NetworkFacts CIDRFacts TextFacts.

Lemma firstLocalNetwork_skip (skipped rest : list InterfaceAddr) :
  existsb local_candidate skipped = false ->
  firstLocalNetwork (skipped ++ rest) = firstLocalNetwork rest.
Proof.
  induction skipped as [|x skipped IH]; [reflexivity|].
  cbn [existsb app firstLocalNetwork]. intros H.
  apply orb_false_iff in H as [Hx Hs]. specialize (IH Hs).
  destruct x as [n|nw tx]; [|exact IH].
  cbn [local_candidate] in Hx.
  destruct (IsLoopback (Net_IP n)); cbn [negb andb] in *; [exact IH|].
  destruct (To4 (Net_IP n)); [discriminate|exact IH].
Qed.

Lemma firstLocalNetwork_candidate (n : IPNet) (rest : list InterfaceAddr) :
  local_candidate (AddrIPNet n) = true ->
  firstLocalNetwork (AddrIPNet n :: rest) = Some (IPNet_String n).
Proof.
  cbn [local_candidate firstLocalNetwork]. intros H.
  apply andb_prop in H as [H1 H2]. rewrite H1.
  destruct (To4 (Net_IP n)); [reflexivity|discriminate].
Qed.

Lemma IPNet_String_nonempty (n : IPNet) : IPNet_String n <> EmptyString.
Proof.
  assert (H : forall s t : string, (s ++ "/" ++ t)%string <> EmptyString).
  { intros s t. destruct s; discriminate. }
  unfold IPNet_String. destruct (networkNumberAndMask n) as [[nn m]|]; [|discriminate].
  destruct (simpleMaskLength m =? -1); apply H.
Qed.

Lemma firstLocalNetwork_text (addrs : list InterfaceAddr) (cidr : string) :
  firstLocalNetwork addrs = Some cidr -> exists n : IPNet, cidr = IPNet_String n.
Proof.
  induction addrs as [|x addrs IH]; cbn [firstLocalNetwork]; [discriminate|].
  destruct x as [n|nw tx]; [|exact IH].
  destruct (negb (IsLoopback (Net_IP n))); [|exact IH].
  destruct (To4 (Net_IP n)); [|exact IH].
  intros H. injection H as <-. exists n. reflexivity.
Qed.

(** [GetLocalNetworkRange] returns the text of the first interface address
    that is an [*net.IPNet] with an IPv4 address other than a loopback
    address, whatever comes before and after it; it returns
    [ErrNoLocalNetwork] exactly when the interfaces were read and none of
    their addresses is one; it returns either an error and the empty text,
    or no error and a text that is not empty. *)
Theorem GetLocalNetworkRange_first_candidate (addrs : list InterfaceAddr)
  (err : option string) :
  (forall (skipped rest : list InterfaceAddr) (n : IPNet),
      err = None -> addrs = skipped ++ AddrIPNet n :: rest ->
      existsb local_candidate skipped = false ->
      local_candidate (AddrIPNet n) = true ->
      GetLocalNetworkRange addrs err = (IPNet_String n, None))
  /\ (snd (GetLocalNetworkRange addrs err) = Some (Bare ErrNoLocalNetwork)
      <-> err = None /\ existsb local_candidate addrs = false)
  /\ (snd (GetLocalNetworkRange addrs err) = None
      <-> err = None /\ existsb local_candidate addrs = true)
  /\ (snd (GetLocalNetworkRange addrs err) <> None ->
      fst (GetLocalNetworkRange addrs err) = EmptyString)
  /\ (snd (GetLocalNetworkRange addrs err) = None ->
      fst (GetLocalNetworkRange addrs err) <> EmptyString).
Proof.
  assert (Hnone : forall l, firstLocalNetwork l = None <-> existsb local_candidate l = false).
  { induction l as [|x l IH]; [cbn; tauto|].
    cbn [existsb firstLocalNetwork]. destruct x as [n|nw tx].
    - cbn [local_candidate].
      destruct (IsLoopback (Net_IP n)); cbn [negb andb orb]; [exact IH|].
      destruct (To4 (Net_IP n)); cbn [orb]; [split; discriminate|exact IH].
    - cbn [local_candidate orb]. exact IH. }
  split; [|split; [|split; [|split]]].
  - intros skipped rest n -> -> Hs Hn. unfold GetLocalNetworkRange.
    rewrite firstLocalNetwork_skip by assumption.
    rewrite firstLocalNetwork_candidate by assumption. reflexivity.
  - unfold GetLocalNetworkRange. destruct err as [e|]; cbn [snd].
    + split; [discriminate|]. intros [H _]. discriminate.
    + destruct (firstLocalNetwork addrs) eqn:E; cbn [snd].
      * split; [discriminate|]. intros [_ H]. apply Hnone in H. congruence.
      * split; [|reflexivity]. intros _. split; [reflexivity|]. apply Hnone. assumption.
  - unfold GetLocalNetworkRange. destruct err as [e|]; cbn [snd].
    + split; [discriminate|]. intros [H _]. discriminate.
    + destruct (firstLocalNetwork addrs) eqn:E; cbn [snd].
      * split; [|reflexivity]. intros _. split; [reflexivity|].
        destruct (existsb local_candidate addrs) eqn:X; [reflexivity|].
        apply Hnone in X. congruence.
      * split; [discriminate|]. intros [_ H].
        apply Hnone in E. congruence.
  - unfold GetLocalNetworkRange. destruct err as [e|]; cbn [snd fst]; [reflexivity|].
    destruct (firstLocalNetwork addrs); cbn [snd fst]; [congruence|reflexivity].
  - unfold GetLocalNetworkRange. destruct err as [e|]; cbn [snd fst]; [discriminate|].
    destruct (firstLocalNetwork addrs) as [cidr|] eqn:E; cbn [snd fst]; [|discriminate].
    intros _. apply firstLocalNetwork_text in E as [n ->]. apply IPNet_String_nonempty.
Qed.

Lemma IPNet_String_v4 (ip : IP) (a b c d n : Z) :
  To4 ip = Some [a; b; c; d] -> 0 <= n <= 32 ->
  IPNet_String (mkIPNet ip (CIDRMask n 32)) = (dotted a b c d ++ "/" ++ itoa n)%string.
Proof.
  intros Hip Hn. unfold IPNet_String, networkNumberAndMask.
  cbn [Net_IP Net_Mask]. rewrite Hip. rewrite (CIDRMask_length n Hn).
  cbn [List.length Nat.eqb negb IPv4len]. cbv iota.
  rewrite (simpleMaskLength_CIDRMask n Hn).
  replace (n =? -1) with false by (symmetry; apply Z.eqb_neq; lia).
  rewrite IP_String_v4. reflexivity.
Qed.

Lemma Contains_slash (s m : string) :
  strings.Contains (s ++ "/" ++ m) "/" = true.
Proof.
  rewrite Contains_char, has_char_app. cbn. apply orb_true_r.
Qed.

(** The text [GetLocalNetworkRange] returns for an interface address
    [a.b.c.d] with a prefix mask of [n] bits is [a.b.c.d/n], the host's own
    address and not the network's; [ParseIPRange] accepts that text and
    makes of it the range from the network address to the broadcast address
    of the interface's network. *)
Theorem GetLocalNetworkRange_parses (skipped rest : list InterfaceAddr) (ip : IP)
  (a b c d n : Z) :
  existsb local_candidate skipped = false ->
  To4 ip = Some [a; b; c; d] ->
  is_byte a -> is_byte b -> is_byte c -> is_byte d -> a <> 127 -> 0 <= n <= 32 ->
  let addr := a * 16777216 + b * 65536 + c * 256 + d in
  let size := 2 ^ (32 - n) in
  let cidr := (dotted a b c d ++ "/" ++ itoa n)%string in
  GetLocalNetworkRange (skipped ++ AddrIPNet (mkIPNet ip (CIDRMask n 32)) :: rest) None
  = (cidr, None)
  /\ exists r : IPRange,
      ParseIPRange cidr = (Some r, None)
      /\ ip_value (StartIP r) = Some (addr - addr mod size)
      /\ ip_value (EndIP r) = Some (addr - addr mod size + size - 1).
Proof.
  intros Hs Hip Ha Hb Hc Hd Hlo Hn addr size cidr. split.
  - unfold GetLocalNetworkRange. rewrite firstLocalNetwork_skip by assumption.
    rewrite firstLocalNetwork_candidate.
    + rewrite (IPNet_String_v4 ip a b c d n Hip Hn). reflexivity.
    + cbn [local_candidate Net_IP]. unfold IsLoopback. rewrite Hip.
      cbn [nth]. replace (a =? 127) with false by (symmetry; apply Z.eqb_neq; lia).
      reflexivity.
  - exists (mkIPRange (Mask (IPv4 a b c d) (CIDRMask n 32))
                      (broadcast (Mask (IPv4 a b c d) (CIDRMask n 32)) (CIDRMask n 32))).
    destruct (cidr_values a b c d n Ha Hb Hc Hd Hn) as [Hv1 Hv2].
    split; [|split; [exact Hv1|]].
    + unfold ParseIPRange, cidr. rewrite Contains_slash.
      unfold parseCIDR. rewrite ParseCIDR_text by assumption. reflexivity.
    + unfold ip_value. cbn [EndIP]. rewrite Hv2. reflexivity.
Qed.

Lemma GetLocalNetworkRange_parses_witness :
  GetLocalNetworkRange
    [AddrIPNet (mkIPNet (IPv4 127 0 0 1) (CIDRMask 8 32));
     AddrIPNet (mkIPNet IPv6loopback (CIDRMask 128 128));
     AddrIPNet (mkIPNet (IPv4 192 168 1 57) (CIDRMask 24 32));
     AddrIPNet (mkIPNet (IPv4 10 8 0 2) (CIDRMask 16 32))] None
  = ("192.168.1.57/24"%string, None)
  /\ exists r : IPRange,
      ParseIPRange "192.168.1.57/24" = (Some r, None)
      /\ ip_value (StartIP r) = Some 3232235776
      /\ ip_value (EndIP r) = Some 3232236031.
Proof.
  apply (GetLocalNetworkRange_parses
           [AddrIPNet (mkIPNet (IPv4 127 0 0 1) (CIDRMask 8 32));
            AddrIPNet (mkIPNet IPv6loopback (CIDRMask 128 128))]
           [AddrIPNet (mkIPNet (IPv4 10 8 0 2) (CIDRMask 16 32))]
           (IPv4 192 168 1 57) 192 168 1 57 24);
    try reflexivity; unfold is_byte; lia.
Defined.

(** The text of an address, as [IP.String] writes it for the addresses
    [GenerateIPs] makes, is accepted by [ParseIPRange] as a single address:
    the range is that address alone, and unless it is 255.255.255.255 its
    expansion is the one address. *)
Theorem address_text_roundtrip (v : Z) :
  let ip := uint32ToIP v in
  ParseIPRange (IP_String ip) = (Some (mkIPRange ip ip), None)
  /\ (0 <= v < max_uint32 ->
      forall fuel : nat, (1 < fuel)%nat ->
                         GenerateIPs fuel (mkIPRange ip ip) = Returns [ip]).
Proof.
  intros ip. split.
  - unfold ip, uint32ToIP.
    set (a := byte (Z.shiftr v 24)). set (b := byte (Z.shiftr v 16)).
    set (c := byte (Z.shiftr v 8)). set (d := byte v).
    assert (Ha : is_byte a) by apply mod_256_byte.
    assert (Hb : is_byte b) by apply mod_256_byte.
    assert (Hc : is_byte c) by apply mod_256_byte.
    assert (Hd : is_byte d) by apply mod_256_byte.
    rewrite IP_String_IPv4. unfold ParseIPRange.
    rewrite !Contains_char.
    rewrite !dotted_chars by (auto; tauto).
    rewrite ParseIP_dotted by assumption. reflexivity.
  - intros Hv fuel Hf.
    assert (Hval : ip_value ip = Some v).
    { apply uint32ToIP_value. unfold max_uint32 in Hv. lia. }
    rewrite (GenerateIPs_ipv4 fuel (mkIPRange ip ip) v v Hval Hval).
    rewrite (loop_returns v 1) by (unfold max_uint32 in *; lia).
    reflexivity.
Qed.

End LocalNetwork.

Section RangeText.
Import net network NetworkFacts CIDRFacts TextFacts.

Lemma padded_chars (c : ascii) (ws1 ws2 : string) (a b c' d : Z) :
  blank ws1 = true -> blank ws2 = true ->
  is_byte a -> is_byte b -> is_byte c' -> is_byte d ->
  c = "/"%char \/ c = "-"%char ->
  has_char c (ws1 ++ dotted a b c' d ++ ws2) = false.
Proof.
  intros H1 H2 Ha Hb Hc Hd Hch.
  rewrite !has_char_app.
  rewrite (blank_chars c ws1 H1), (blank_chars c ws2 H2)
    by (destruct Hch as [-> | ->]; reflexivity).
  rewrite dotted_chars by (auto; tauto). reflexivity.
Qed.

(** A range text [A-B] of two dotted addresses, with or without white
    space around them, is accepted by [ParseIPRange] with [A] and [B] as the
    ends.  If [A <= B] and [B] is not 255.255.255.255 the expansion is the
    [B - A + 1] addresses from [A] to [B] in ascending order; if [B < A] the
    range is accepted all the same and expands to nothing (memory taken as
    unbounded). *)
Theorem range_text_expansion (ws1 ws2 ws3 ws4 : string)
  (a1 a2 a3 a4 b1 b2 b3 b4 : Z) :
  blank ws1 = true -> blank ws2 = true -> blank ws3 = true -> blank ws4 = true ->
  is_byte a1 -> is_byte a2 -> is_byte a3 -> is_byte a4 ->
  is_byte b1 -> is_byte b2 -> is_byte b3 -> is_byte b4 ->
  let s := ((ws1 ++ dotted a1 a2 a3 a4 ++ ws2) ++ "-"
            ++ (ws3 ++ dotted b1 b2 b3 b4 ++ ws4))%string in
  let r := mkIPRange (IPv4 a1 a2 a3 a4) (IPv4 b1 b2 b3 b4) in
  let start := a1 * 16777216 + a2 * 65536 + a3 * 256 + a4 in
  let end_ := b1 * 16777216 + b2 * 65536 + b3 * 256 + b4 in
  ParseIPRange s = (Some r, None)
  /\ (start <= end_ < max_uint32 ->
      forall fuel : nat,
        (Z.to_nat (end_ - start + 1) < fuel)%nat ->
        GenerateIPs fuel r
        = Returns (map uint32ToIP (count_up start (Z.to_nat (end_ - start + 1)))))
  /\ (end_ < start ->
      forall fuel : nat, (0 < fuel)%nat -> GenerateIPs fuel r = Returns []).
Proof.
  intros W1 W2 W3 W4 A1 A2 A3 A4 B1 B2 B3 B4 s r start end_.
  assert (Hs : ip_value (StartIP r) = Some start).
  { unfold ip_value, r. cbn [StartIP]. rewrite ipToUint32_IPv4.
    apply pack_value; assumption. }
  assert (He : ip_value (EndIP r) = Some end_).
  { unfold ip_value, r. cbn [EndIP]. rewrite ipToUint32_IPv4.
    apply pack_value; assumption. }
  split; [|split].
  - unfold ParseIPRange, s.
    change ("-" ++ ?t)%string with (String "-" t).
    rewrite !Contains_char.
    rewrite (has_char_app "/"), (has_char_app "-"). cbn [has_char].
    rewrite !padded_chars by (auto; tauto).
    cbn [orb Ascii.eqb Bool.eqb]. cbv iota.
    unfold parseRange. rewrite Split_two by (apply padded_chars; auto; tauto).
    cbn [List.length Nat.eqb negb nth].
    rewrite !TrimSpace_dotted by assumption.
    rewrite !ParseIP_dotted by assumption. reflexivity.
  - intros Hr fuel Hf. rewrite (GenerateIPs_ipv4 fuel r start end_ Hs He).
    rewrite (loop_returns end_ (Z.to_nat (end_ - start + 1))); try lia.
    + reflexivity.
    + unfold start, is_byte in *. lia.
  - intros Hr fuel Hf. rewrite (GenerateIPs_ipv4 fuel r start end_ Hs He).
    destruct fuel as [|fuel]; [lia|]. apply loop_exit. assumption.
Qed.

Lemma range_text_expansion_witness :
  let r := mkIPRange (IPv4 10 0 0 254) (IPv4 10 0 1 1) in
  ParseIPRange "10.0.0.254 - 10.0.1.1" = (Some r, None)
  /\ (167772414 <= 167772417 < max_uint32 ->
      forall fuel : nat,
        (Z.to_nat (167772417 - 167772414 + 1) < fuel)%nat ->
        GenerateIPs fuel r
        = Returns (map uint32ToIP
                     (count_up 167772414 (Z.to_nat (167772417 - 167772414 + 1)))))
  /\ (167772417 < 167772414 ->
      forall fuel : nat, (0 < fuel)%nat -> GenerateIPs fuel r = Returns []).
Proof.
  assert (B : forall b : Z, (0 <=? b) && (b <? 256) = true -> is_byte b).
  { intros b H. apply andb_prop in H as [H1 H2]. unfold is_byte. lia. }
  exact (range_text_expansion "" " " " " "" 10 0 0 254 10 0 1 1
           eq_refl eq_refl eq_refl eq_refl
           (B 10 eq_refl) (B 0 eq_refl) (B 0 eq_refl) (B 254 eq_refl)
           (B 10 eq_refl) (B 0 eq_refl) (B 1 eq_refl) (B 1 eq_refl)).
Defined.

(** A range text whose right-hand side is not a whole address is
    refused: when what stands after the hyphen has neither a dot nor a
    colon, as in the short form 192.168.1.1-100 that the statistics panel
    lists among the supported formats, [ParseIPRange] returns no range and
    an error that wraps [ErrInvalidRange], whatever stands before the
    hyphen. *)
Theorem short_range_refused (l r : string) :
  has_char "/" l = false -> has_char "-" l = false ->
  has_char "/" r = false -> has_char "-" r = false ->
  has_char "." (strings.TrimSpace r) = false ->
  has_char ":" (strings.TrimSpace r) = false ->
  ParseIPRange (l ++ "-" ++ r)
  = (None, Some (Errorf_w ErrInvalidRange
                   ("invalid IP addresses in range " ++ (l ++ "-" ++ r)))).
Proof.
  intros L1 L2 R1 R2 Hd Hc. unfold ParseIPRange.
  change ("-" ++ ?t)%string with (String "-" t).
  rewrite !Contains_char, !has_char_app. cbn [has_char].
  rewrite L1, L2, R1, R2. cbn [orb Ascii.eqb Bool.eqb]. cbv iota.
  unfold parseRange. rewrite Split_two by assumption.
  cbn [List.length Nat.eqb negb nth].
  assert (Hn : ParseIP (strings.TrimSpace r) = None).
  { unfold ParseIP, ParseAddr. rewrite ParseAddr_scan_none by assumption. reflexivity. }
  rewrite Hn. destruct (ParseIP (strings.TrimSpace l)); reflexivity.
Qed.

Lemma short_range_refused_witness :
  strings.Contains (ui.updateInfoPanel None EmptyString) "Range: 192.168.1.1-100" = true
  /\ ParseIPRange "192.168.1.1-100"
     = (None, Some (Errorf_w ErrInvalidRange
                      "invalid IP addresses in range 192.168.1.1-100")).
Proof.
  split; [vm_compute; reflexivity|].
  apply (short_range_refused "192.168.1.1" "100"); reflexivity.
Defined.

End RangeText.

Section Capacity.
Import net network NetworkFacts.

(** The capacity [GenerateIPs] asks for in [make([]net.IP, 0, capacity)].
    For a range in ascending order, other than the whole address space, it
    is the number of addresses of the range.  For the whole address space it
    is zero.  For a range in descending order whose ends are more than one
    apart it is [2^32 - (start - end - 1)] entries, at least two and up to
    [2^32 - 1], although the expansion (memory permitting) has no entry at
    all. *)
Theorem capacity_of_range (r : IPRange) (start end_ : Z) :
  ip_value (StartIP r) = Some start -> ip_value (EndIP r) = Some end_ ->
  (start <= end_ -> end_ - start < max_uint32 ->
   capacity start end_ = end_ - start + 1
   /\ (end_ < max_uint32 ->
       forall (fuel : nat) (ips : list IP),
         GenerateIPs fuel r = Returns ips ->
         Z.of_nat (List.length ips) = capacity start end_))
  /\ (start = 0 -> end_ = max_uint32 -> capacity start end_ = 0)
  /\ (end_ + 1 < start ->
      capacity start end_ = 2 ^ 32 - (start - end_ - 1)
      /\ 2 <= capacity start end_ < 2 ^ 32
      /\ forall fuel : nat, (0 < fuel)%nat -> GenerateIPs fuel r = Returns []).
Proof.
  intros Hs He.
  pose proof (ipToUint32_range _ _ Hs) as Rs.
  pose proof (ipToUint32_range _ _ He) as Re.
  assert (P : 2 ^ 32 = 4294967296) by reflexivity.
  unfold capacity, uint32, max_uint32. rewrite !P.
  split; [|split].
  - intros Hle Hlt. split.
    + rewrite (Z.mod_small (end_ - start)) by lia. rewrite Z.mod_small by lia. reflexivity.
    + intros Hm fuel ips Hr.
      rewrite (GenerateIPs_ipv4 fuel r start end_ Hs He) in Hr.
      destruct (Nat.le_gt_cases fuel (Z.to_nat (end_ - start + 1))) as [Hf|Hf].
      * exfalso. revert Hr. clear - Hf Hle Rs Re Hm.
        assert (G : forall (n : nat) (i : Z) (acc : list IP),
                   0 <= i -> i + Z.of_nat n <= end_ + 1 ->
                   GenerateIPs_loop n end_ i acc = OutOfFuel).
        { induction n as [|n IH]; intros i acc Hi Hn; [reflexivity|].
          cbn [GenerateIPs_loop].
          replace (i <=? end_) with true by (symmetry; apply Z.leb_le; lia).
          apply IH; unfold uint32; rewrite Z.mod_small; lia. }
        rewrite (G fuel start []) by lia. discriminate.
      * rewrite (loop_returns end_ (Z.to_nat (end_ - start + 1))) in Hr;
          try (unfold max_uint32; lia).
        injection Hr as <-. cbn [app]. rewrite length_map, count_up_length.
        rewrite (Z.mod_small (end_ - start)) by lia. rewrite Z.mod_small by lia. lia.
  - intros -> ->. reflexivity.
  - intros Hlt.
    assert (E : (end_ - start) mod 4294967296 = end_ - start + 4294967296).
    { symmetry. apply (Z.mod_unique _ _ (-1)); lia. }
    rewrite E. rewrite Z.mod_small by lia.
    split; [lia|split; [lia|]].
    intros fuel Hf. rewrite (GenerateIPs_ipv4 fuel r start end_ Hs He).
    destruct fuel as [|fuel]; [lia|]. apply loop_exit. lia.
Qed.

Lemma capacity_of_range_witness :
  (167772165 <= 167772161 -> 167772161 - 167772165 < max_uint32 ->
   capacity 167772165 167772161 = 167772161 - 167772165 + 1
   /\ (167772161 < max_uint32 ->
       forall (fuel : nat) (ips : list IP),
         GenerateIPs fuel (mkIPRange (IPv4 10 0 0 5) (IPv4 10 0 0 1)) = Returns ips ->
         Z.of_nat (List.length ips) = capacity 167772165 167772161))
  /\ (167772165 = 0 -> 167772161 = max_uint32 -> capacity 167772165 167772161 = 0)
  /\ (167772161 + 1 < 167772165 ->
      capacity 167772165 167772161 = 2 ^ 32 - (167772165 - 167772161 - 1)
      /\ 2 <= capacity 167772165 167772161 < 2 ^ 32
      /\ forall fuel : nat,
          (0 < fuel)%nat ->
          GenerateIPs fuel (mkIPRange (IPv4 10 0 0 5) (IPv4 10 0 0 1)) = Returns []).
Proof.
  apply (capacity_of_range (mkIPRange (IPv4 10 0 0 5) (IPv4 10 0 0 1))
           167772165 167772161); reflexivity.
Defined.

End Capacity.


(** * The claims about package [scanner] *)

Section ScannerClaims.
Import net scanner ProbeFacts PoolFacts.

Lemma Sub_self (t : Z) : time.Sub t t = 0.
Proof. unfold time.Sub. rewrite Z.sub_diag. reflexivity. Qed.

(** C6. The probe reports an address alive exactly when the echo-request
    command it ran exited with status 0.  Any other end of the run (a
    non-zero status, a failure to start) gives [IsAlive = false] with the
    run's error stored in the record; on a platform without a known command
    the record is not alive and carries [ErrUnsupportedOS].  [scanHost] is a
    total function: it always yields a record.  The latency is the
    difference of the two clock readings around the run; it does not depend
    on what the utility printed. *)
Theorem scanHost_probe_outcome (env : Env) (ip : IP) (timeout : time.Duration) (w : World) :
  let h := fst (scanHost ip timeout env w) in
  let target := IP_String ip in
  (IsAlive h = true <->
   exists cmd, ping_command (GOOS env) target timeout = Some cmd
               /\ exit (exec env (clock w) cmd) = Exited 0)
  /\ (forall cmd, ping_command (GOOS env) target timeout = Some cmd ->
        let r := exec env (clock w) cmd in
        Latency h = time.Sub (clock w + took r) (clock w)
        /\ (exit r = Exited 0 -> Error h = None)
        /\ (exit r <> Exited 0 ->
            IsAlive h = false /\ Error h = run_error (exit r) /\ Error h <> None))
  /\ (ping_command (GOOS env) target timeout = None ->
        IsAlive h = false /\ Error h = Some (ErrUnsupportedOS (GOOS env))
        /\ Latency h = 0)
  /\ (forall env', same_but_output env env' ->
        Latency (fst (scanHost ip timeout env' w)) = Latency h).
Proof.
  cbv zeta.
  destruct (scanHost_probe_fields env ip timeout w) as (_ & Ha & He & Hl).
  cbv zeta in Ha, He, Hl.
  split; [|split; [|split]].
  - rewrite scanHost_IsAlive.
    destruct (ping_command (GOOS env) (IP_String ip) timeout) as [cmd|].
    + split.
      * intros H. exists cmd. split; [reflexivity|].
        destruct (exit (exec env (clock w) cmd)) as [[|p|p]|d]; try discriminate.
        reflexivity.
      * intros (c & Hc & Hx). injection Hc as <-. rewrite Hx. reflexivity.
    + split; [discriminate|]. intros (c & Hc & _). discriminate.
  - intros cmd Hcmd. rewrite Ha, He, Hl, (pingHost_run _ _ _ _ _ Hcmd).
    cbn [fst snd clock]. split; [reflexivity|]. split.
    + intros ->. reflexivity.
    + intros Hx. destruct (run_error (exit (exec env (clock w) cmd))) eqn:E.
      * repeat split; discriminate.
      * apply run_error_None in E. contradiction.
  - intros Hnone. rewrite Ha, He, Hl, (pingHost_unsupported _ _ _ _ Hnone).
    cbn [fst snd]. rewrite Sub_self. repeat split.
  - intros env' (Hgoos & Hsame).
    destruct (scanHost_probe_fields env' ip timeout w) as (_ & _ & _ & Hl').
    cbv zeta in Hl'. rewrite Hl, Hl'.
    destruct (ping_command (GOOS env) (IP_String ip) timeout) as [cmd|] eqn:E.
    + rewrite (pingHost_run _ _ _ _ _ E).
      rewrite <- Hgoos in E. rewrite (pingHost_run _ _ _ _ _ E).
      cbn [snd clock]. destruct (Hsame (clock w) cmd) as [_ ->]. reflexivity.
    + rewrite (pingHost_unsupported _ _ _ _ E).
      rewrite <- Hgoos in E. rewrite (pingHost_unsupported _ _ _ _ E).
      reflexivity.
Qed.

(** C9. When the probe reports the address unreachable, the record's
    hostname, hardware address and vendor are empty, and apart from the
    echo-request command (if the platform has one) nothing was asked of the
    outside world: no reverse lookup, no neighbor-table query. *)
Theorem scanHost_no_enrichment (env : Env) (ip : IP) (timeout : time.Duration) (w : World) :
  IsAlive (fst (scanHost ip timeout env w)) = false ->
  Hostname (fst (scanHost ip timeout env w)) = EmptyString
  /\ MAC (fst (scanHost ip timeout env w)) = EmptyString
  /\ Vendor (fst (scanHost ip timeout env w)) = EmptyString
  /\ trace (snd (scanHost ip timeout env w))
     = trace w ++ match ping_command (GOOS env) (IP_String ip) timeout with
                  | Some cmd => [Executed cmd]
                  | None => []
                  end.
Proof.
  intros Hdead.
  destruct (scanHost_probe_fields env ip timeout w) as (_ & Ha & _).
  cbv zeta in Ha. rewrite Hdead in Ha. symmetry in Ha.
  rewrite (scanHost_dead env ip timeout w Ha). cbn [fst snd Hostname MAC Vendor].
  repeat split.
  destruct (ping_command (GOOS env) (IP_String ip) timeout) as [cmd|] eqn:E.
  - rewrite (pingHost_run _ _ _ _ _ E). reflexivity.
  - rewrite (pingHost_unsupported _ _ _ _ E). cbn. rewrite app_nil_r. reflexivity.
Qed.

Lemma scanHost_no_enrichment_witness :
  let sh := scanHost (IPv4 10 0 0 1) time.Second env_silent (mkWorld 0 []) in
  IsAlive (fst sh) = false
  /\ Hostname (fst sh) = EmptyString /\ MAC (fst sh) = EmptyString
  /\ Vendor (fst sh) = EmptyString
  /\ trace (snd sh)
     = [Executed (mkCmd "ping" ["-c"; "1"; "-W"; "1000"; "10.0.0.1"]%string)].
Proof.
  split; [reflexivity|].
  exact (scanHost_no_enrichment env_silent (IPv4 10 0 0 1) time.Second
           (mkWorld 0 []) eq_refl).
Defined.

(** C7 (the code departs from the claim). On Linux, for the timeout of one
    second that the interface passes, the command is [ping -c 1 -W 1000]:
    one packet, and the timeout in milliseconds, where the utility reads its
    [-W] in seconds and the claim asks for [1]. *)
Theorem ping_command_linux_milliseconds (ip : string) :
  ping_command "linux" ip time.Second
  = Some (mkCmd "ping" ["-c"; "1"; "-W"; "1000"; ip]%string)
  /\ ping_timeout_unit "linux" = Some Seconds
  /\ in_unit Seconds time.Second = "1"%string
  /\ in_unit Milliseconds time.Second = "1000"%string.
Proof. repeat split; reflexivity. Qed.



Lemma timeout_arg_is_ms_all : forallb timeout_arg_is_ms (count_up 0 (Z.to_nat 5001)) = true.
Proof. vm_compute. reflexivity. Qed.

(** For every timeout of a whole number of milliseconds up to five seconds,
    the timeout argument is that number of milliseconds, in decimal: the
    unit Windows and macOS read, a thousand times what Linux reads. *)
Theorem timeout_arg_milliseconds (k : Z) :
  0 <= k <= 5000 -> timeout_arg (k * time.Millisecond) = itoa k.
Proof.
  intros Hk. pose proof timeout_arg_is_ms_all as H.
  rewrite forallb_forall in H.
  assert (Hin : In k (count_up 0 (Z.to_nat 5001))) by (apply NetworkFacts.count_up_In; lia).
  specialize (H k Hin). unfold timeout_arg_is_ms in H.
  apply String.eqb_eq in H. exact H.
Qed.

Lemma timeout_arg_milliseconds_witness :
  timeout_arg (1500 * time.Millisecond) = itoa 1500.
Proof. apply (timeout_arg_milliseconds 1500). lia. Defined.

End ScannerClaims.


Section VendorClaim.
Import scanner VendorFacts.
Local Open Scope string_scope.

(** C3 (the code departs from the claim). In whatever order the table is
    visited, a hardware address gets its vendor only when its prefix is
    written exactly as the table's key: upper case, joined by colons.  The
    same prefix joined by hyphens (as the neighbor table of Windows prints
    it) or in lower case is [Unknown]: the normalized [oui] is computed and
    then not used, the lookup compares [mac] itself. *)
Theorem getVendorFromMAC_needs_exact_prefix (order : list (string * string)) :
  Permutation vendors order ->
  getVendorFromMAC_in order "00:50:56:C0:00:08" = "VMware"
  /\ getVendorFromMAC_in order "00-50-56-C0-00-08" = "Unknown"
  /\ getVendorFromMAC_in order "B8:27:EB:12:34:56" = "Raspberry Pi Foundation"
  /\ getVendorFromMAC_in order "b8:27:eb:12:34:56" = "Unknown"
  /\ getVendorFromMAC_in order "" = "Unknown".
Proof.
  intros HP. split; [|split; [|split; [|split]]].
  - apply (getVendorFromMAC_exact order _ "00:50:56"); [assumption| |reflexivity].
    cbn. auto.
  - apply getVendorFromMAC_unknown; [assumption|reflexivity].
  - apply (getVendorFromMAC_exact order _ "B8:27:EB"); [assumption| |reflexivity].
    cbn. auto 10.
  - apply getVendorFromMAC_unknown; [assumption|reflexivity].
  - apply getVendorFromMAC_short. cbn. lia.
Qed.

Lemma getVendorFromMAC_needs_exact_prefix_witness :
  getVendorFromMAC_in (rev vendors) "00:50:56:C0:00:08" = "VMware"
  /\ getVendorFromMAC_in (rev vendors) "00-50-56-C0-00-08" = "Unknown"
  /\ getVendorFromMAC_in (rev vendors) "B8:27:EB:12:34:56" = "Raspberry Pi Foundation"
  /\ getVendorFromMAC_in (rev vendors) "b8:27:eb:12:34:56" = "Unknown"
  /\ getVendorFromMAC_in (rev vendors) "" = "Unknown".
Proof.
  apply (getVendorFromMAC_needs_exact_prefix (rev vendors)).
  apply Permutation_rev.
Defined.

(** The lookup, whatever the order in which the table is visited: an
    address that starts with a key exactly as the table writes it gets the
    key's vendor; an address that starts with none of the keys is
    [Unknown]; and the order makes no difference to the result. *)
Theorem getVendorFromMAC_lookup (order : list (string * string)) (mac : string) :
  Permutation vendors order ->
  (forall k v, In (k, v) vendors -> strings.HasPrefix mac k = true ->
               getVendorFromMAC_in order mac = v)
  /\ ((forall k v, In (k, v) vendors -> strings.HasPrefix mac k = false) ->
      getVendorFromMAC_in order mac = "Unknown")
  /\ getVendorFromMAC_in order mac = getVendorFromMAC mac.
Proof.
  intros HP. split; [|split].
  - intros k v Hin Hpre. eapply getVendorFromMAC_exact; eassumption.
  - intros Hnone. apply getVendorFromMAC_unknown; [assumption|].
    destruct (find (fun entry => strings.HasPrefix mac (fst entry)) vendors)
      as [[k v]|] eqn:E; [|reflexivity].
    apply find_some in E as [Hin Hp]. cbn [fst] in Hp.
    rewrite (Hnone k v Hin) in Hp. discriminate.
  - unfold getVendorFromMAC.
    destruct (find (fun entry => strings.HasPrefix mac (fst entry)) vendors)
      as [[k v]|] eqn:E.
    + apply find_some in E as [Hin Hp]. cbn [fst] in Hp.
      rewrite (getVendorFromMAC_exact order mac k v HP Hin Hp).
      rewrite (getVendorFromMAC_exact vendors mac k v (Permutation_refl _) Hin Hp).
      reflexivity.
    + rewrite (getVendorFromMAC_unknown order mac HP E).
      rewrite (getVendorFromMAC_unknown vendors mac (Permutation_refl _) E).
      reflexivity.
Qed.

Lemma getVendorFromMAC_lookup_witness :
  (forall k v, In (k, v) vendors -> strings.HasPrefix "3C:07:54:AA:BB:CC" k = true ->
               getVendorFromMAC_in (rev vendors) "3C:07:54:AA:BB:CC" = v)
  /\ ((forall k v, In (k, v) vendors -> strings.HasPrefix "3C:07:54:AA:BB:CC" k = false) ->
      getVendorFromMAC_in (rev vendors) "3C:07:54:AA:BB:CC" = "Unknown")
  /\ getVendorFromMAC_in (rev vendors) "3C:07:54:AA:BB:CC"
     = getVendorFromMAC "3C:07:54:AA:BB:CC".
Proof.
  apply (getVendorFromMAC_lookup (rev vendors) "3C:07:54:AA:BB:CC").
  apply Permutation_rev.
Defined.

End VendorClaim.

Section PoolClaim.
Import net scanner ProbeFacts PoolFacts.

(** What a returned call's result looks like, with at least one worker. *)
Lemma returns_summary (env : Env) (ips : list IP) (timeout : time.Duration) (w : Z)
  (r : ScanResult) :
  1 <= w -> ScanNetwork_returns env ips timeout w r ->
  Permutation (map Host_IP (Hosts r)) ips
  /\ Forall (probed env timeout) (Hosts r)
  /\ TotalHosts r = Z.of_nat (List.length ips)
  /\ AliveHosts r = count_alive (Hosts r).
Proof.
  intros Hw (sched & s & Hrun & Hret & <-).
  pose proof (run_inv _ _ _ _ _ _ _ (start_inv env timeout ips w) Hrun) as Hinv.
  destruct (returned_all _ _ _ _ _ Hw Hinv Hret) as [HP HF].
  repeat split; try assumption.
  - apply (inv_total _ _ _ _ _ Hinv).
  - apply (inv_alive _ _ _ _ _ Hinv).
Qed.

Lemma returns_reachable (env : Env) (ips : list IP) (timeout : time.Duration) (w : Z)
  (r : ScanResult) :
  1 <= w -> stable env -> ScanNetwork_returns env ips timeout w r ->
  AliveHosts r = count_reachable env timeout ips.
Proof.
  intros Hw Hs Hr. destruct (returns_summary _ _ _ _ _ Hw Hr) as (HP & HF & _ & Ha).
  rewrite Ha, (count_alive_reachable _ _ _ Hs HF).
  apply count_reachable_perm. assumption.
Qed.

(** C1. With at least one worker, [ScanNetwork] returns (from every state a
    run can reach, the call can be brought to its return, and no run is
    longer than the potential of the start state), and every result [r1] it
    can return, under every interleaving of the goroutines, holds exactly one
    record per address: [len(Hosts)] is the number of addresses,
    [TotalHosts] equals [len(Hosts)], and [AliveHosts] is the number of
    records with [IsAlive] set.  In a stable network the record count and
    [AliveHosts] are the same for any other worker count [w2 >= 1]. *)
Theorem ScanNetwork_summary (env : Env) (ips : list IP) (timeout : time.Duration)
  (w1 w2 : Z) :
  1 <= w1 -> 1 <= w2 ->
  (forall (sched : list Action) (s : Pool),
      run env timeout sched (start ips w1) = Some s ->
      (List.length sched <= potential (start ips w1))%nat
      /\ exists (more : list Action) (r : ScanResult),
           ScanNetwork_returns env ips timeout w1 r
           /\ option_map result (run env timeout (sched ++ more) (start ips w1)) = Some r)
  /\ forall r1 : ScanResult,
      ScanNetwork_returns env ips timeout w1 r1 ->
      List.length (Hosts r1) = List.length ips
      /\ Permutation (map Host_IP (Hosts r1)) ips
      /\ TotalHosts r1 = Z.of_nat (List.length (Hosts r1))
      /\ AliveHosts r1 = count_alive (Hosts r1)
      /\ (stable env ->
          forall r2 : ScanResult,
            ScanNetwork_returns env ips timeout w2 r2 ->
            List.length (Hosts r2) = List.length (Hosts r1)
            /\ AliveHosts r2 = AliveHosts r1).
Proof.
  intros Hw1 Hw2. split.
  - intros sched s Hrun.
    pose proof (start_inv env timeout ips w1) as H0.
    pose proof (run_inv _ _ _ _ _ _ _ H0 Hrun) as Hinv.
    split.
    + pose proof (run_potential _ _ _ _ _ _ _ H0 Hrun). lia.
    + destruct (completion env timeout ips w1 _ s eq_refl Hinv) as (more & s' & Hmore & Hret).
      exists more, (result s').
      pose proof (run_app _ _ _ _ _ _ _ Hrun Hmore) as Hall.
      split.
      * exists (sched ++ more), s'. auto.
      * rewrite Hall. reflexivity.
  - intros r1 Hr1.
    destruct (returns_summary _ _ _ _ _ Hw1 Hr1) as (HP & HF & Ht & Ha).
    assert (Hlen : List.length (Hosts r1) = List.length ips).
    { rewrite <- (Permutation_length HP), length_map. reflexivity. }
    split; [assumption|]. split; [assumption|].
    split; [rewrite Hlen; assumption|]. split; [assumption|].
    intros Hs r2 Hr2. split.
    + destruct (returns_summary _ _ _ _ _ Hw2 Hr2) as (HP2 & _).
      rewrite Hlen, <- (Permutation_length HP2), length_map. reflexivity.
    + rewrite (returns_reachable _ _ _ _ _ Hw1 Hs Hr1).
      apply (returns_reachable env ips timeout w2); assumption.
Qed.

Lemma env_loopback_stable : stable env_loopback.
Proof. intros t t' c. reflexivity. Qed.

Lemma ScanNetwork_summary_witness :
  stable env_loopback
  /\ exists r1 r2 : ScanResult,
      ScanNetwork_returns env_loopback example_ips time.Second 1 r1
      /\ ScanNetwork_returns env_loopback example_ips time.Second 3 r2
      /\ List.length (Hosts r1) = 2%nat
      /\ Permutation (map Host_IP (Hosts r1)) example_ips
      /\ TotalHosts r1 = 2
      /\ AliveHosts r1 = count_alive (Hosts r1)
      /\ List.length (Hosts r2) = List.length (Hosts r1)
      /\ AliveHosts r2 = AliveHosts r1
      /\ map IsAlive (Hosts r1) = [true; false]
      /\ map IsAlive (Hosts r2) = [false; true].
Proof.
  split; [exact env_loopback_stable|].
  assert (H1 : exists s, run env_loopback time.Second schedule_one_worker
                           (start example_ips 1) = Some s
                         /\ returned s = true
                         /\ map IsAlive (Hosts (result s)) = [true; false]).
  { eexists. split; [vm_compute; reflexivity|]. split; reflexivity. }
  assert (H2 : exists s, run env_loopback time.Second schedule_three_workers
                           (start example_ips 3) = Some s
                         /\ returned s = true
                         /\ map IsAlive (Hosts (result s)) = [false; true]).
  { eexists. split; [vm_compute; reflexivity|]. split; reflexivity. }
  destruct H1 as (s1 & Hrun1 & Hret1 & Hal1).
  destruct H2 as (s2 & Hrun2 & Hret2 & Hal2).
  assert (Hr1 : ScanNetwork_returns env_loopback example_ips time.Second 1 (result s1)).
  { exists schedule_one_worker, s1. auto. }
  assert (Hr2 : ScanNetwork_returns env_loopback example_ips time.Second 3 (result s2)).
  { exists schedule_three_workers, s2. auto. }
  destruct (ScanNetwork_summary env_loopback example_ips time.Second 1 3
              ltac:(lia) ltac:(lia)) as [_ H].
  destruct (H (result s1) Hr1) as (Hlen & HP & Ht & Ha & Hx).
  destruct (Hx env_loopback_stable (result s2) Hr2) as (Hl2 & Ha2).
  exists (result s1), (result s2).
  repeat (split; [assumption|]); try assumption.
  split; [rewrite Ht, Hlen; reflexivity|].
  repeat (split; [assumption|]); assumption.
Defined.

End PoolClaim.


Section Examples.
Import net network scanner PoolFacts.
Local Open Scope string_scope.

(** The cases of the repository's tests for [ParseIPRange] and
    [GenerateIPs]: a CIDR block, a range, a single address, two refused
    texts. *)
Example network_test_cases :
  (exists r ips,
      ParseIPRange "192.168.1.0/24" = (Some r, None)
      /\ GenerateIPs 300 r = Returns ips
      /\ List.length ips = 256%nat
      /\ IP_String (nth 0 ips []) = "192.168.1.0"
      /\ IP_String (nth 255 ips []) = "192.168.1.255")
  /\ (exists r ips,
         ParseIPRange "192.168.1.1-192.168.1.5" = (Some r, None)
         /\ GenerateIPs 10 r = Returns ips
         /\ map IP_String ips
            = ["192.168.1.1"; "192.168.1.2"; "192.168.1.3"; "192.168.1.4"; "192.168.1.5"])
  /\ (exists r ips,
         ParseIPRange "192.168.1.1" = (Some r, None)
         /\ GenerateIPs 10 r = Returns ips
         /\ map IP_String ips = ["192.168.1.1"])
  /\ (exists e, ParseIPRange "invalid.ip.address" = (None, Some e)
                /\ wraps e = ErrInvalidIPAddress)
  /\ (exists e, ParseIPRange "192.168.1.0/40" = (None, Some e)
                /\ wraps e = ErrInvalidCIDR).
Proof.
  split; [|split; [|split; [|split]]].
  - eexists. eexists. split; [reflexivity|]. split; [vm_compute; reflexivity|].
    repeat split; reflexivity.
  - eexists. eexists. split; [reflexivity|]. split; [vm_compute; reflexivity|].
    reflexivity.
  - eexists. eexists. split; [reflexivity|]. split; [vm_compute; reflexivity|].
    reflexivity.
  - eexists. split; reflexivity.
  - eexists. split; reflexivity.
Qed.

(** No goroutine ever sends on a closed channel: whatever the worker count
    and the schedule, the pool does not panic. *)
Theorem ScanNetwork_never_panics (env : Env) (ips : list IP) (timeout : time.Duration)
  (w : Z) (sched : list Action) (s : Pool) :
  run env timeout sched (start ips w) = Some s -> panicked s = false.
Proof.
  intros Hrun.
  exact (inv_nopanic _ _ _ _ _
           (run_inv _ _ _ _ _ _ _ (start_inv env timeout ips w) Hrun)).
Qed.

(** Without a worker ([maxWorkers <= 0]) the call can return at once: no
    record at all, while [TotalHosts] still counts the addresses.  The bound
    [maxWorkers >= 1] is needed for the record count. *)
Theorem ScanNetwork_without_workers (env : Env) (ips : list IP)
  (timeout : time.Duration) (w : Z) :
  w <= 0 ->
  ScanNetwork_returns env ips timeout w
    (mkScanResult "" (Z.of_nat (List.length ips)) 0 [] 0).
Proof.
  intros Hw. exists [CloseResults; Finish 0].
  unfold start. replace (Z.to_nat w) with O by lia.
  eexists. split; [reflexivity|]. split; reflexivity.
Qed.

Lemma ScanNetwork_without_workers_witness :
  ScanNetwork_returns env_loopback example_ips time.Second 0
    (mkScanResult "" 2 0 [] 0).
Proof.
  apply (ScanNetwork_without_workers env_loopback example_ips time.Second 0).
  lia.
Defined.

Lemma ScanNetwork_never_panics_witness :
  exists s, run env_loopback time.Second schedule_three_workers (start example_ips 3) = Some s
            /\ panicked s = false.
Proof.
  assert (H : exists s, run env_loopback time.Second schedule_three_workers
                          (start example_ips 3) = Some s).
  { eexists. vm_compute. reflexivity. }
  destruct H as [s Hs]. exists s. split; [exact Hs|].
  exact (ScanNetwork_never_panics env_loopback example_ips time.Second 3
           schedule_three_workers s Hs).
Defined.

End Examples.
(** * The package [scanner]: enrichment, cost and order *)

Section Enrichment.
Import net scanner ProbeFacts VendorFacts TextFacts EnrichFacts.


(** The record [scanHost] returns is well formed.  It carries the
    address it was asked about; it is alive exactly if it has no error; its
    vendor is empty exactly if its hardware address is; a record with a
    hardware address is alive, its vendor is what [getVendorFromMAC] answers
    for that address, and the address has exactly five colons or five
    hyphens and is its own upper-case form; a record with a host name is
    alive. *)
Theorem scanHost_record (env : Env) (ip : IP) (timeout : time.Duration) (w : World) :
  let h := fst (scanHost ip timeout env w) in
  Host_IP h = ip
  /\ (IsAlive h = true <-> Error h = None)
  /\ (MAC h = EmptyString <-> Vendor h = EmptyString)
  /\ (MAC h <> EmptyString ->
      IsAlive h = true
      /\ Vendor h = getVendorFromMAC (MAC h)
      /\ (strings.Count (MAC h) ":" = 5 \/ strings.Count (MAC h) "-" = 5)
      /\ strings.ToUpper (MAC h) = MAC h)
  /\ (Hostname h <> EmptyString -> IsAlive h = true).
Proof.
  intros h. subst h.
  assert (Hp : forall e, (match run_error e with None => true | Some _ => false end = true
                          <-> run_error e = None)).
  { intros e. destruct (run_error e); split; congruence. }
  assert (Hping : fst (fst (pingHost (IP_String ip) timeout env w)) = true
                  <-> snd (fst (pingHost (IP_String ip) timeout env w)) = None).
  { destruct (ping_command (GOOS env) (IP_String ip) timeout) as [cmd|] eqn:E.
    - rewrite (pingHost_run _ _ _ _ _ E). cbn [fst snd]. apply Hp.
    - rewrite (pingHost_unsupported _ _ _ _ E). cbn [fst snd]. split; discriminate. }
  destruct (fst (fst (pingHost (IP_String ip) timeout env w))) eqn:Ea.
  - rewrite (scanHost_alive env ip timeout w Ea). cbn [fst Host_IP IsAlive Error MAC Vendor Hostname].
    set (m := getMACAddress (IP_String ip) env _).
    split; [reflexivity|]. split; [tauto|]. split; [|split; [|auto]].
    + destruct (String.eqb (fst m) EmptyString) eqn:Em.
      * apply String.eqb_eq in Em. tauto.
      * apply String.eqb_neq in Em. split; [tauto|].
        intros Hv. exfalso. exact (getVendorFromMAC_nonempty _ Hv).
    + intros Hm. split; [reflexivity|].
      destruct (String.eqb (fst m) EmptyString) eqn:Em.
      * apply String.eqb_eq in Em. congruence.
      * split; [reflexivity|]. apply getMACAddress_shape. assumption.
  - rewrite (scanHost_dead env ip timeout w Ea).
    cbn [fst Host_IP IsAlive Error MAC Vendor Hostname].
    split; [reflexivity|]. split; [|split; [tauto|split; congruence]].
    split; [discriminate|]. intros He. apply Hping in He. discriminate.
Qed.

(** What probing a reachable address costs.  When the ping of [ip]
    exits with status 0, [scanHost] asks the world three things, in this
    order: the ping, one reverse lookup of the address, and one [arp] run;
    the clock moves by the sum of the three durations, whereas the latency
    of the record is the duration of the ping alone.  The timeout is passed
    to the ping only: the lookup and the [arp] run take whatever they take. *)
Theorem scanHost_reachable_cost (env : Env) (ip : IP) (timeout : time.Duration)
  (w : World) (cmd : Cmd) :
  ping_command (GOOS env) (IP_String ip) timeout = Some cmd ->
  exit (exec env (clock w) cmd) = Exited 0 ->
  let out := scanHost ip timeout env w in
  let t1 := clock w + took (exec env (clock w) cmd) in
  let t2 := t1 + snd (resolver env t1 (IP_String ip)) in
  exists arp : Cmd,
    Path arp = "arp"%string
    /\ trace (snd out)
       = trace w ++ [Executed cmd; LookedUp (IP_String ip); Executed arp]
    /\ clock (snd out) = t2 + took (exec env t2 arp)
    /\ Latency (fst out) = time.Sub t1 (clock w).
Proof.
  intros Hc Hx out t1 t2. subst out.
  assert (Ea : fst (fst (pingHost (IP_String ip) timeout env w)) = true).
  { rewrite (pingHost_run _ _ _ _ _ Hc). cbn [fst]. rewrite Hx. reflexivity. }
  rewrite (scanHost_alive env ip timeout w Ea). cbn [fst snd Latency].
  rewrite (pingHost_run _ _ _ _ _ Hc). cbn [fst snd clock].
  fold t1.
  set (w1 := mkWorld t1 (trace w ++ [Executed cmd])).
  assert (Hl : snd (net_LookupAddr (IP_String ip) env w1)
               = mkWorld t2 (trace w ++ [Executed cmd; LookedUp (IP_String ip)])).
  { unfold net_LookupAddr, t2, w1. cbn [clock trace].
    destruct (resolver env t1 (IP_String ip)) as [[names ok] dt]. cbn [snd].
    rewrite <- app_assoc. reflexivity. }
  rewrite Hl.
  set (w2 := mkWorld t2 _).
  destruct (getMACAddress_cases env (IP_String ip) w2) as [(arp & Hp & Ew & _)|(Hw & Hd & Hlx & _)].
  - exists arp. rewrite Ew. cbn [trace clock]. unfold w2. cbn [trace clock].
    split; [|split; [|split]]; try reflexivity.
    + destruct Hp as [[_ ->]|[_ ->]]; reflexivity.
    + rewrite <- app_assoc. reflexivity.
  - exfalso. unfold ping_command in Hc.
    destruct (String.eqb (GOOS env) "windows") eqn:E1.
    { apply String.eqb_eq in E1. congruence. }
    destruct (String.eqb (GOOS env) "darwin") eqn:E2.
    { apply String.eqb_eq in E2. congruence. }
    destruct (String.eqb (GOOS env) "linux") eqn:E3.
    { apply String.eqb_eq in E3. congruence. }
    discriminate.
Qed.

Lemma scanHost_reachable_cost_witness :
  let ip := IPv4 127 0 0 1 in
  let cmd := mkCmd "ping" ["-c"; "1"; "-W"; "1000"; "127.0.0.1"]%string in
  let out := scanHost ip time.Second env_loopback (mkWorld 0 []) in
  exists arp : Cmd,
    Path arp = "arp"%string
    /\ trace (snd out) = [Executed cmd; LookedUp "127.0.0.1"; Executed arp]
    /\ clock (snd out) = 2300000 + took (exec env_loopback 2300000 arp)
    /\ Latency (fst out) = time.Sub 2000000 0.
Proof.
  exact (scanHost_reachable_cost env_loopback (IPv4 127 0 0 1) time.Second (mkWorld 0 [])
           (mkCmd "ping" ["-c"; "1"; "-W"; "1000"; "127.0.0.1"]%string)
           eq_refl eq_refl).
Defined.

End Enrichment.

Section PoolOrder.
Import net scanner ProbeFacts PoolFacts.

Lemma one_worker (ws : list Worker) (k : nat) (x : Worker) :
  List.length ws = 1%nat -> nth_error ws k = Some x ->
  ws = [x] /\ k = O.
Proof.
  destruct ws as [|y [|z ws]]; try discriminate. intros _.
  destruct k as [|k]; cbn.
  - intros H. injection H as ->. auto.
  - destruct k; discriminate.
Qed.

Lemma step_order (env : Env) (timeout : time.Duration) (a : Action) (s s' : Pool) :
  List.length (workers s) = 1%nat ->
  step env timeout a s = Some s' ->
  List.length (workers s') = 1%nat /\ in_order s' = in_order s.
Proof.
  intros Hw Hstep. unfold step in Hstep.
  destruct (panicked s); [discriminate|].
  destruct a as [| |k t|k|k| | |elapsed].
  - destruct (tosend s) as [|ip rest] eqn:Et; [discriminate|].
    destruct (negb (jobs_closed s) && (List.length (jobs s) <? cap s)%nat);
      [|discriminate].
    injection Hstep as <-. unfold in_order. proj. rewrite Et.
    split; [assumption|]. rewrite <- !app_assoc. reflexivity.
  - destruct (tosend s) eqn:Et; [|discriminate].
    destruct (jobs_closed s); [discriminate|].
    injection Hstep as <-. unfold in_order. proj. rewrite Et. auto.
  - destruct (nth_error (workers s) k) as [[|h|]|] eqn:En; try discriminate.
    destruct (jobs s) as [|ip rest] eqn:Ej; [discriminate|].
    injection Hstep as <-. unfold in_order. proj.
    destruct (one_worker _ _ _ Hw En) as [Hws ->]. rewrite Hws, Ej.
    cbn [set_worker held map app List.length]. split; [reflexivity|].
    rewrite scanHost_IP. reflexivity.
  - destruct (nth_error (workers s) k) as [[|h|]|] eqn:En; try discriminate.
    destruct (results_closed s).
    + injection Hstep as <-. unfold in_order. proj. auto.
    + destruct (List.length (results s) <? cap s)%nat; [|discriminate].
      injection Hstep as <-. unfold in_order. proj.
      destruct (one_worker _ _ _ Hw En) as [Hws ->]. rewrite Hws.
      cbn [set_worker held map app List.length]. split; [reflexivity|].
      rewrite map_app. cbn [map]. rewrite <- !app_assoc. reflexivity.
  - destruct (nth_error (workers s) k) as [[|h|]|] eqn:En; try discriminate.
    destruct (jobs s) eqn:Ej; [|discriminate].
    destruct (jobs_closed s); [|discriminate].
    injection Hstep as <-. unfold in_order. proj.
    destruct (one_worker _ _ _ Hw En) as [Hws ->]. rewrite Hws, Ej.
    cbn [set_worker held map app List.length]. auto.
  - destruct ((wg s =? 0) && negb (results_closed s)); [|discriminate].
    injection Hstep as <-. unfold in_order. proj. auto.
  - destruct (returned s); [discriminate|].
    destruct (results s) as [|h rest] eqn:Er; [discriminate|].
    injection Hstep as <-. unfold in_order. proj. rewrite Er.
    split; [assumption|]. rewrite map_app. cbn [map]. rewrite <- !app_assoc.
    reflexivity.
  - destruct (returned s); [discriminate|].
    destruct (results s) eqn:Er; [|discriminate].
    destruct (results_closed s); [|discriminate].
    injection Hstep as <-. unfold in_order. proj. rewrite Er. auto.
Qed.

Lemma run_order (env : Env) (timeout : time.Duration) (sched : list Action) :
  forall s s' : Pool,
    List.length (workers s) = 1%nat ->
    run env timeout sched s = Some s' ->
    List.length (workers s') = 1%nat /\ in_order s' = in_order s.
Proof.
  induction sched as [|a sched IH]; intros s s' Hw Hrun; cbn [run] in Hrun.
  - injection Hrun as <-. auto.
  - destruct (step env timeout a s) as [s1|] eqn:E; [|discriminate].
    destruct (step_order _ _ _ _ _ Hw E) as [Hw1 Ho1].
    destruct (IH _ _ Hw1 Hrun) as [Hw' Ho']. split; [assumption|congruence].
Qed.

(** When the call has returned, nothing is left in the pool. *)
Lemma returned_drained (env : Env) (timeout : time.Duration) (ips : list IP) (w : Z)
  (s : Pool) :
  1 <= w -> pool_inv env timeout ips w s -> returned s = true ->
  tosend s = [] /\ jobs s = [] /\ held (workers s) = [] /\ results s = [].
Proof.
  intros Hw [Hcap Hperm Hpr Hcl Hwg Hws Hgone Hrc Hal Htot Hret Hnp] Hr.
  destruct (Hret Hr) as [Hrs Hrc'].
  specialize (Hrc Hrc'). rewrite Hrc in Hwg.
  assert (Ha : active (workers s) = O) by lia.
  destruct Hgone as [Hjc Hjs]; [rewrite Ha, Hws; lia|].
  specialize (Hcl Hjc). auto using active_zero_held.
Qed.

(** With one worker the records come in the order of the addresses:
    whatever the schedule, the [k]-th record of the result is the record of
    the [k]-th address. *)
Theorem ScanNetwork_one_worker_order (env : Env) (ips : list IP)
  (timeout : time.Duration) (r : ScanResult) :
  ScanNetwork_returns env ips timeout 1 r ->
  map Host_IP (Hosts r) = ips.
Proof.
  intros (sched & s & Hrun & Hret & <-).
  destruct (run_order env timeout sched (start ips 1) s eq_refl Hrun) as [_ Ho].
  pose proof (run_inv _ _ _ _ _ _ _ (start_inv env timeout ips 1) Hrun) as Hinv.
  destruct (returned_drained _ _ _ _ _ (Z.le_refl 1) Hinv Hret) as (Ht & Hj & Hh & Hrs).
  unfold in_order in Ho. rewrite Ht, Hj, Hh, Hrs in Ho.
  cbn [start] in Ho. proj. cbn in Ho. rewrite !app_nil_r in Ho. exact Ho.
Qed.

Lemma count_reachable_filter (env : Env) (timeout : time.Duration) (ips : list IP) :
  count_reachable env timeout ips
  = Z.of_nat (List.length (filter (answers env timeout) ips)).
Proof.
  induction ips as [|ip ips IH]; [reflexivity|].
  cbn [count_reachable filter]. rewrite IH.
  unfold reachable at 1. rewrite scanHost_IsAlive. cbn [clock]. fold (answers env timeout ip).
  destruct (answers env timeout ip); cbn [List.length]; lia.
Qed.

(** In a stable network the result of a scan says which addresses
    answer: with at least one worker and under every schedule, a record is
    alive exactly if the ping of its address exits with status 0, and
    [AliveHosts] is the number of addresses of the call whose ping does.  On
    a platform [pingHost] does not support, no record is alive. *)
Theorem ScanNetwork_counts_answers (env : Env) (ips : list IP)
  (timeout : time.Duration) (w : Z) (r : ScanResult) :
  1 <= w -> stable env -> ScanNetwork_returns env ips timeout w r ->
  AliveHosts r = Z.of_nat (List.length (filter (answers env timeout) ips))
  /\ Forall (fun h => IsAlive h = answers env timeout (Host_IP h)) (Hosts r)
  /\ (GOOS env <> "windows"%string -> GOOS env <> "darwin"%string ->
      GOOS env <> "linux"%string -> AliveHosts r = 0).
Proof.
  intros Hw Hs Hr.
  pose proof (returns_reachable env ips timeout w r Hw Hs Hr) as Ha.
  destruct (returns_summary env ips timeout w r Hw Hr) as (_ & HF & _ & _).
  rewrite count_reachable_filter in Ha.
  split; [exact Ha|split].
  - apply Forall_forall. intros h Hh. rewrite Forall_forall in HF.
    rewrite (probed_reachable env timeout h Hs (HF h Hh)).
    unfold reachable. rewrite scanHost_IsAlive. reflexivity.
  - intros H1 H2 H3. rewrite Ha.
    assert (Hn : forall ip, answers env timeout ip = false).
    { intros ip. unfold answers, ping_command.
      apply String.eqb_neq in H1, H2, H3. rewrite H1, H2, H3. reflexivity. }
    assert (Hz : forall l, filter (answers env timeout) l = []).
    { induction l as [|x l IHl]; [reflexivity|]. cbn [filter]. rewrite Hn. exact IHl. }
    rewrite Hz. reflexivity.
Qed.

Lemma ScanNetwork_one_worker_order_witness :
  exists r : ScanResult,
    ScanNetwork_returns env_loopback example_ips time.Second 1 r
    /\ map Host_IP (Hosts r) = example_ips.
Proof.
  assert (H : exists s, run env_loopback time.Second schedule_one_worker
                          (start example_ips 1) = Some s
                        /\ returned s = true).
  { eexists. split; [vm_compute; reflexivity|]. reflexivity. }
  destruct H as (s & Hrun & Hret).
  assert (Hr : ScanNetwork_returns env_loopback example_ips time.Second 1 (result s)).
  { exists schedule_one_worker, s. auto. }
  exists (result s). split; [exact Hr|].
  exact (ScanNetwork_one_worker_order env_loopback example_ips time.Second (result s) Hr).
Defined.

Lemma ScanNetwork_counts_answers_witness :
  exists r : ScanResult,
    ScanNetwork_returns env_loopback example_ips time.Second 3 r
    /\ AliveHosts r
       = Z.of_nat (List.length (filter (answers env_loopback time.Second) example_ips))
    /\ Forall (fun h => IsAlive h = answers env_loopback time.Second (Host_IP h)) (Hosts r)
    /\ (GOOS env_loopback <> "windows"%string -> GOOS env_loopback <> "darwin"%string ->
        GOOS env_loopback <> "linux"%string -> AliveHosts r = 0).
Proof.
  assert (H : exists s, run env_loopback time.Second schedule_three_workers
                          (start example_ips 3) = Some s
                        /\ returned s = true).
  { eexists. split; [vm_compute; reflexivity|]. reflexivity. }
  destruct H as (s & Hrun & Hret).
  assert (Hr : ScanNetwork_returns env_loopback example_ips time.Second 3 (result s)).
  { exists schedule_three_workers, s. auto. }
  assert (Hst : stable env_loopback) by (intros t t' c; reflexivity).
  exists (result s). split; [exact Hr|].
  exact (ScanNetwork_counts_answers env_loopback example_ips time.Second 3 (result s)
           ltac:(lia) Hst Hr).
Defined.

End PoolOrder.

Section VendorSeparator.
Import net scanner ProbeFacts VendorFacts TextFacts EnrichFacts.

Lemma prefix_has_char (c : ascii) (k mac : string) :
  strings.HasPrefix mac k = true -> has_char c k = true -> has_char c mac = true.
Proof.
  unfold strings.HasPrefix. revert mac.
  induction k as [|x k IH]; intros mac Hp Hc; [discriminate|].
  destruct mac as [|y mac]; [discriminate|]. cbn [String.prefix] in Hp.
  destruct (ascii_dec x y) as [->|]; [|discriminate].
  cbn [has_char] in *. destruct (Ascii.eqb y c); [reflexivity|].
  cbn [orb] in *. auto.
Qed.

(** The vendor table knows the colon form only.  A hardware address without
    a colon, such as the hyphen form that [arp -a] prints on Windows, has the
    vendor [Unknown] whatever its first three octets are; and so has every
    record of [scanHost] whose hardware address has no colon. *)
Theorem getVendorFromMAC_without_colon (order : list (string * string)) (mac : string) :
  Permutation vendors order -> has_char ":" mac = false ->
  getVendorFromMAC_in order mac = "Unknown"%string
  /\ forall (env : Env) (ip : IP) (timeout : time.Duration) (w : World),
      MAC (fst (scanHost ip timeout env w)) = mac -> mac <> EmptyString ->
      Vendor (fst (scanHost ip timeout env w)) = "Unknown"%string
      /\ strings.Count mac "-" = 5.
Proof.
  intros HP Hc.
  assert (Hk : forall k, has_char ":" k = true -> strings.HasPrefix mac k = false).
  { intros k Hk. destruct (strings.HasPrefix mac k) eqn:E; [|reflexivity].
    rewrite (prefix_has_char ":" k mac E Hk) in Hc. discriminate. }
  assert (Hu : forall o, Permutation vendors o -> getVendorFromMAC_in o mac = "Unknown"%string).
  { intros o Ho. apply getVendorFromMAC_unknown; [assumption|].
    unfold vendors. cbn [find fst]. rewrite !Hk by reflexivity. reflexivity. }
  split; [apply Hu; assumption|].
  intros env ip timeout w Hm Hne.
  destruct (fst (fst (pingHost (IP_String ip) timeout env w))) eqn:Ea.
  - rewrite (scanHost_alive env ip timeout w Ea) in *. cbn [fst MAC Vendor] in *.
    set (m := getMACAddress (IP_String ip) env _) in *.
    rewrite Hm. destruct (String.eqb mac EmptyString) eqn:Em.
    + apply String.eqb_eq in Em. congruence.
    + split; [apply (Hu vendors); reflexivity|].
      assert (Hs : fst m <> EmptyString) by congruence.
      destruct (getMACAddress_shape env (IP_String ip) _ Hs) as [[H5|H5] _].
      * exfalso. fold m in H5. rewrite Hm in H5.
        assert (Hz : forall s, has_char ":" s = false -> strings.Count s ":" = 0).
        { unfold strings.Count. induction s as [|x s IH]; [reflexivity|].
          cbn [has_char strings.Count_from]. intros H.
          apply orb_false_iff in H as [Hx Hs']. rewrite HasPrefix_char, Hx. auto. }
        rewrite (Hz mac Hc) in H5. discriminate.
      * fold m in H5. rewrite Hm in H5. exact H5.
  - rewrite (scanHost_dead env ip timeout w Ea) in Hm. cbn in Hm. congruence.
Qed.

Lemma getVendorFromMAC_without_colon_witness :
  getVendorFromMAC "00-50-56-C0-00-08" = "Unknown"%string
  /\ MAC (fst (scanHost (IPv4 10 0 0 9) time.Second env_windows (mkWorld 0 [])))
     = "00-50-56-C0-00-08"%string
  /\ Vendor (fst (scanHost (IPv4 10 0 0 9) time.Second env_windows (mkWorld 0 [])))
     = "Unknown"%string.
Proof.
  destruct (getVendorFromMAC_without_colon vendors "00-50-56-C0-00-08"
              (Permutation_refl vendors) eq_refl) as [H1 H2].
  split; [exact H1|]. split; [reflexivity|].
  destruct (H2 env_windows (IPv4 10 0 0 9) time.Second (mkWorld 0 []) eq_refl
              ltac:(discriminate)) as [Hv _].
  exact Hv.
Defined.

End VendorSeparator.

(** * The package [main]: what the interface shows *)

Section Interface.
Import net scanner ui NetworkFacts ProbeFacts PoolFacts TextFacts UIFacts.

(** The progress bar.  For a progress between -1000 and 1000 the bar is
    [progress / 5] (rounded toward zero) full cells followed by
    [20 - progress / 5] empty ones, a negative count standing for none.  So
    from 0 to 100 the bar is 20 cells wide, one full cell for every five per
    cent; from 105 up it is all full cells and wider than 20; from -5 down it
    is all empty cells and wider than 20. *)
Theorem updateProgressBar_cells (message : string) (progress : Z) :
  -1000 <= progress <= 1000 ->
  let full := Z.to_nat (Z.quot progress 5) in
  let empty := Z.to_nat (20 - Z.quot progress 5) in
  updateProgressBar message progress
  = ("[#ffffff]" ++ message ++ newline
     ++ ("[#00ff88]" ++ cells "█" full ++ "[#333333]" ++ cells "░" empty)
     ++ " [#00ff88]" ++ fmt.Sprintf_d progress ++ "%")%string
  /\ (0 <= progress <= 100 -> (full + empty = 20)%nat /\ Z.of_nat full = progress / 5)
  /\ (105 <= progress -> (20 < full)%nat /\ empty = O)
  /\ (progress <= -5 -> full = O /\ (20 < empty)%nat).
Proof.
  intros Hp full empty. split; [|split; [|split]].
  - unfold updateProgressBar. rewrite (filled_quot progress Hp).
    rewrite (WriteString_loop_cells "█" full) by (unfold full; lia).
    rewrite (WriteString_loop_cells "░" empty) by (unfold empty, barWidth; lia).
    rewrite !append_assoc. reflexivity.
  - intros H. unfold full, empty. clear full empty.
    rewrite Z.quot_div_nonneg by lia.
    pose proof (Z.div_pos progress 5 ltac:(lia) ltac:(lia)) as H0.
    assert (H1 : progress / 5 <= 20) by (apply Z.div_le_upper_bound; lia).
    revert H0 H1. generalize (progress / 5). intros q H0 H1. split; lia.
  - intros H. unfold full, empty. clear full empty.
    rewrite Z.quot_div_nonneg by lia.
    assert (H1 : 21 <= progress / 5) by (apply Z.div_le_lower_bound; lia).
    revert H1. generalize (progress / 5). intros q H1. split; lia.
  - intros H. unfold full, empty. clear full empty.
    assert (H1 : Z.quot progress 5 <= -1).
    { rewrite <- (Z.opp_involutive progress), Z.quot_opp_l by lia.
      rewrite Z.quot_div_nonneg by lia.
      assert (1 <= - progress / 5) by (apply Z.div_le_lower_bound; lia). lia. }
    revert H1. generalize (Z.quot progress 5). intros q H1. split; lia.
Qed.

Lemma updateProgressBar_cells_witness :
  updateProgressBar "Scanning 254 hosts..." 25
  = ("[#ffffff]Scanning 254 hosts..." ++ newline
     ++ "[#00ff88]█████[#333333]░░░░░░░░░░░░░░░ [#00ff88]25%")%string.
Proof.
  destruct (updateProgressBar_cells "Scanning 254 hosts..." 25 ltac:(lia)) as [H _].
  exact H.
Defined.

(** A scan of no address shows a success rate that is not a number.  When
    the address list is empty (the range was an IPv6 address, or its ends
    were in descending order), whatever [ScanNetwork] returns makes
    [updateInfoPanel] divide zero by zero: the panel reads 0 hosts, 0 active
    and a success rate of [NaN%], in the colour of the lowest rate. *)
Theorem updateInfoPanel_empty_scan (env : Env) (timeout : time.Duration) (w : Z)
  (r : ScanResult) (now : string) :
  ScanNetwork_returns env [] timeout w r ->
  percentage (AliveHosts r) (TotalHosts r) = S754_nan
  /\ updateInfoPanel (Some r) now
     = ("[#00ff88::b]📊 Scan Summary" ++ newline ++ newline
        ++ "[#ffffff::b]Total Hosts:[#ffffff] 0" ++ newline
        ++ "[#00ff88::b]Active Hosts:[#ffffff] 0" ++ newline
        ++ "[#ff4444::b]Success Rate:[#ffffff] NaN%" ++ newline ++ newline
        ++ "[#ffffff::b]Scan Duration:[#ffffff] "
        ++ time.Duration_String (time.Truncate (ScanTime r) time.Millisecond)
        ++ newline ++ newline
        ++ "[#888888]Last updated: " ++ now)%string.
Proof.
  intros (sched & s & Hrun & Hret & <-).
  pose proof (run_inv _ _ _ _ _ _ _ (start_inv env timeout [] w) Hrun) as Hinv.
  pose proof (inv_total _ _ _ _ _ Hinv) as Ht. cbn in Ht.
  pose proof (inv_alive _ _ _ _ _ Hinv) as Ha.
  pose proof (inv_perm _ _ _ _ _ Hinv) as Hp.
  apply Permutation_sym, Permutation_nil in Hp. unfold in_flight in Hp.
  repeat (apply app_eq_nil in Hp as [? Hp]).
  apply map_eq_nil in Hp. rewrite Hp in Ha. cbn in Ha.
  unfold updateInfoPanel. rewrite Ht, Ha. split; reflexivity.
Qed.

Lemma updateInfoPanel_empty_scan_witness :
  exists r : ScanResult,
    ScanNetwork_returns env_silent [] time.Second 100 r
    /\ percentage (AliveHosts r) (TotalHosts r) = S754_nan
    /\ fmt.Sprintf_f1 (percentage (AliveHosts r) (TotalHosts r)) = "NaN"%string.
Proof.
  assert (H : exists s, run env_silent time.Second
                          ([CloseJobs] ++ map Leave (seq 0 100)
                           ++ [CloseResults; Finish 1000])
                          (start [] 100) = Some s
                        /\ returned s = true).
  { eexists. split; [vm_compute; reflexivity|]. reflexivity. }
  destruct H as (s & Hrun & Hret).
  assert (Hr : ScanNetwork_returns env_silent [] time.Second 100 (result s)).
  { eexists. exists s. split; [exact Hrun|]. auto. }
  exists (result s). split; [exact Hr|].
  destruct (updateInfoPanel_empty_scan env_silent time.Second 100 (result s)
              EmptyString Hr) as [Hn _].
  split; [exact Hn|]. rewrite Hn. reflexivity.
Defined.

(** The table of hosts after a scan with at least one worker.  The rows are
    numbered from 1 without a gap.  With the offline hosts hidden there is
    one row per alive record, in the order of the records, every row is an
    online row, and the number of rows is the count of active hosts in the
    title.  With the offline hosts shown there is one row per record, so as
    many rows as addresses.  An offline row shows the placeholder in its
    host name, hardware address and vendor cells and no latency. *)
Theorem displayModernResults_rows (env : Env) (ips : list IP) (timeout : time.Duration)
  (w : Z) (r : ScanResult) (showInactive : bool) (ipRange : string) :
  1 <= w -> ScanNetwork_returns env ips timeout w r ->
  let rows := fst (displayModernResults showInactive r ipRange) in
  let title := snd (displayModernResults showInactive r ipRange) in
  map row_number rows = count_up 1 (List.length rows)
  /\ (showInactive = false ->
      map ip_cell rows = map (fun h => IP_String (Host_IP h)) (filter IsAlive (Hosts r))
      /\ Z.of_nat (List.length rows) = AliveHosts r
      /\ Forall (fun row => status_color row = ColorGreen) rows)
  /\ (showInactive = true ->
      map ip_cell rows = map (fun h => IP_String (Host_IP h)) (Hosts r)
      /\ List.length rows = List.length ips
      /\ Permutation (map ip_cell rows) (map IP_String ips))
  /\ Forall (fun row =>
               status_color row = ColorRed ->
               status_cell row = "🔴 Offline"%string
               /\ hostname_cell row = "[#666666]Unknown"%string
               /\ mac_cell row = "[#666666]Unknown"%string
               /\ vendor_cell row = "[#666666]Unknown"%string
               /\ latency_cell row = "[#666666]N/A"%string) rows
  /\ title = (" 📋 Network Devices - " ++ fmt.Sprintf_d (count_alive (Hosts r))
              ++ " Active / " ++ fmt.Sprintf_d (Z.of_nat (List.length ips))
              ++ " Total ")%string.
Proof.
  intros Hw Hr rows title.
  destruct (returns_summary env ips timeout w r Hw Hr) as (HP & HF & Ht & Ha).
  unfold rows, title, displayModernResults. cbn [fst snd].
  split; [apply display_rows_numbers|].
  split; [|split; [|split]].
  - intros ->. destruct (display_rows_hidden (Hosts r) 1) as (H1 & H2 & H3).
    rewrite Ha. auto.
  - intros ->. rewrite display_rows_shown.
    split; [reflexivity|]. split.
    + rewrite <- (length_map ip_cell), display_rows_shown, length_map.
      rewrite <- (length_map Host_IP). apply Permutation_length. assumption.
    + rewrite <- (map_map Host_IP IP_String). apply Permutation_map. assumption.
  - apply Forall_forall. intros row Hin.
    destruct (display_rows_In _ _ _ _ Hin) as (h & k & Hh & ->).
    rewrite Forall_forall in HF. specialize (HF h Hh).
    unfold host_row. cbn [status_color status_cell hostname_cell mac_cell vendor_cell
                          latency_cell].
    destruct (IsAlive h) eqn:Ea; [discriminate|]. intros _.
    destruct (probed_offline env timeout h HF Ea) as (-> & -> & ->).
    cbn. auto.
  - rewrite Ha, Ht. reflexivity.
Qed.

Lemma displayModernResults_rows_witness :
  exists r : ScanResult,
    ScanNetwork_returns env_loopback example_ips time.Second 3 r
    /\ map ip_cell (fst (displayModernResults false r EmptyString)) = ["127.0.0.1"%string]
    /\ map ip_cell (fst (displayModernResults true r EmptyString))
       = ["10.0.0.9"; "127.0.0.1"]%string.
Proof.
  assert (H : exists s, run env_loopback time.Second schedule_three_workers
                          (start example_ips 3) = Some s
                        /\ returned s = true
                        /\ map (fun h => IP_String (Host_IP h))
                               (filter IsAlive (Hosts (result s)))
                           = ["127.0.0.1"%string]
                        /\ map (fun h => IP_String (Host_IP h)) (Hosts (result s))
                           = ["10.0.0.9"; "127.0.0.1"]%string).
  { eexists. split; [vm_compute; reflexivity|]. repeat split; reflexivity. }
  destruct H as (s & Hrun & Hret & H1 & H2).
  assert (Hr : ScanNetwork_returns env_loopback example_ips time.Second 3 (result s)).
  { exists schedule_three_workers, s. auto. }
  exists (result s). split; [exact Hr|].
  destruct (displayModernResults_rows env_loopback example_ips time.Second 3 (result s)
              false EmptyString ltac:(lia) Hr) as (_ & Hf & _).
  destruct (displayModernResults_rows env_loopback example_ips time.Second 3 (result s)
              true EmptyString ltac:(lia) Hr) as (_ & _ & Ht & _).
  destruct (Hf eq_refl) as (E1 & _). destruct (Ht eq_refl) as (E2 & _).
  split; [rewrite E1; exact H1|rewrite E2; exact H2].
Defined.

End Interface.

